(** * anonymize_reserves.py: a shallow embedding and its verified properties

    The script reads a JSON document of rooms and entries, replaces every
    entry title by a short alphabetic label and writes the result.  The
    embedding follows the source function by function: [generate_labels],
    [build_mapping], [anonymize], [load_json], [save_json] and [main]. *)

From Stdlib Require Import String Ascii.
From Stdlib Require Import ZArith NArith List Bool Lia.
From Stdlib Require Import Sorting.Sorted Sorting.Permutation FinFun.
From Equations Require Import Equations.
Import ListNotations.

(** ** Python strings

    A [str] is a sequence of Unicode code points.  [ord] and [chr] move
    between a one-character string and its code point; string comparison is
    lexicographic on the code points. *)

Definition str := list N.

(** An ASCII literal of the source as a [str]. *)
Definition lit (s : string) : str := map N_of_ascii (list_ascii_of_string s).

(** [chr(i)] for [0 <= i < 0x110000], the only arguments the script passes. *)
Definition chr (i : N) : str := [i].

(** [ord("A")]. *)
Definition ord_A : N := 65.

Definition str_eqb (s t : str) : bool :=
  if list_eq_dec N.eq_dec s t then true else false.

(** [s < t] on strings. *)
Fixpoint str_ltb (s t : str) : bool :=
  match s, t with
  | _, [] => false
  | [], _ :: _ => true
  | a :: s', b :: t' => (a <? b)%N || ((a =? b)%N && str_ltb s' t')
  end.

Open Scope N_scope.

(** [range(count)]: the integers [0 .. count - 1]; empty when [count <= 0].
    Every element is a natural number. *)
Definition range (count : Z) : list N :=
  map N.of_nat (seq 0 (Z.to_nat count)).

(** [len(l)]. *)
Definition len {A} (l : list A) : Z := Z.of_nat (length l).

(** ** generate_labels *)

Definition base : N := 26.

(** The [while True] loop of [generate_labels], with the loop variables [n]
    and [label] as arguments.  [n] starts at an element of [range(count)] and
    [n -= 1] runs only after [n] was found different from [0], so [n] stays a
    natural number. *)
Equations? label_loop (n : N) (label : str) : str by wf (N.to_nat n) lt :=
  label_loop n label with N.eq_dec (n / base) 0 := {
    | left _ => chr (ord_A + n mod base) ++ label
    | right _ => label_loop (n / base - 1) (chr (ord_A + n mod base) ++ label) }.
Proof.
  assert (n / base <= n) by (apply N.Div0.div_le_upper_bound; unfold base; lia).
  remember (n / base) as q eqn:Hq; clear Hq.
  lia.
Qed.

Definition generate_labels (count : Z) : list str :=
  map (fun num => label_loop num []) (range count).

(** ** Python values and exceptions *)

(** The values [json.load] builds: [None], [bool], [int], [str], [list] and
    [dict] with string keys.  A dict keeps its keys in insertion order, so
    it is an association list.  Numbers with a fraction or an exponent
    (Python floats) are outside the model. *)
#[warnings="-register-all"]
Inductive json : Type :=
| JNull
| JBool (b : bool)
| JInt (z : Z)
| JStr (s : str)
| JArr (items : list json)
| JObj (fields : list (str * json)).

Inductive exn : Type :=
| TypeError
| ValueError
| AttributeError
| KeyError
| FileNotFoundError
| SystemExit (message : str).

(** The outcome of a call: a value or a raised exception. *)
Inductive result (A : Type) : Type :=
| Ok (a : A)
| Raise (e : exn).
Arguments Ok {A} a.
Arguments Raise {A} e.

Definition bind {A B} (c : result A) (k : A -> result B) : result B :=
  match c with
  | Ok a => k a
  | Raise e => Raise e
  end.

Declare Scope result_scope.
Delimit Scope result_scope with result.
Notation "x <- c ;; k" := (bind c (fun x => k))
  (at level 61, c at next level, right associativity) : result_scope.
Open Scope result_scope.

(** [for x in l: s = body(s, x)], stopping at the first exception. *)
Fixpoint for_each {A S} (l : list A) (body : S -> A -> result S) (s : S)
  : result S :=
  match l with
  | [] => Ok s
  | x :: l' => s' <- body s x ;; for_each l' body s'
  end.

(** *** Dicts *)

Section Dict.
Variables (K V : Type) (eqb : K -> K -> bool).

Definition dict := list (K * V).

(** [d.get(k)], with [None] for a missing key. *)
Fixpoint dict_get (d : dict) (k : K) : option V :=
  match d with
  | [] => None
  | (k', v) :: d' => if eqb k' k then Some v else dict_get d' k
  end.

(** [k in d]. *)
Definition dict_contains (d : dict) (k : K) : bool :=
  match dict_get d k with Some _ => true | None => false end.

(** [d[k] = v]: an existing key keeps its place, a new one goes last. *)
Fixpoint dict_set (d : dict) (k : K) (v : V) : dict :=
  match d with
  | [] => [(k, v)]
  | (k', v') :: d' =>
      if eqb k' k then (k', v) :: d' else (k', v') :: dict_set d' k v
  end.

(** [dict(pairs)]. *)
Definition dict_of_pairs (pairs : list (K * V)) : dict :=
  fold_left (fun d kv => dict_set d (fst kv) (snd kv)) pairs [].

Definition keys (d : dict) : list K := map fst d.
End Dict.

Arguments dict_get {K V} eqb d k.
Arguments dict_contains {K V} eqb d k.
Arguments dict_set {K V} eqb d k v.
Arguments dict_of_pairs {K V} eqb pairs.
Arguments keys {K V} d.

(** *** Hashable values: the elements of a set and the keys of the mapping

    [None], integers and strings hash; lists and dicts do not.  [True] and
    [False] are the integers [1] and [0]: they are equal to them and hash
    alike. *)
Inductive hkey : Type :=
| HNone
| HInt (z : Z)
| HStr (s : str).

Definition hash_key (v : json) : result hkey :=
  match v with
  | JNull => Ok HNone
  | JBool b => Ok (HInt (if b then 1 else 0))
  | JInt z => Ok (HInt z)
  | JStr s => Ok (HStr s)
  | JArr _ | JObj _ => Raise TypeError
  end.

Definition hkey_eqb (a b : hkey) : bool :=
  match a, b with
  | HNone, HNone => true
  | HInt x, HInt y => (x =? y)%Z
  | HStr s, HStr t => str_eqb s t
  | _, _ => false
  end.

(** [a < b] where Python defines it: between two strings and between two
    integers. *)
Definition hkey_ltb (a b : hkey) : bool :=
  match a, b with
  | HInt x, HInt y => (x <? y)%Z
  | HStr s, HStr t => str_ltb s t
  | _, _ => false
  end.

Definition is_HStr (a : hkey) : bool :=
  match a with HStr _ => true | _ => false end.

Definition is_HInt (a : hkey) : bool :=
  match a with HInt _ => true | _ => false end.

(** [set(l)]: one element per class of equal elements.  The order in which
    Python iterates a set is not specified; [sorted] fixes it afterwards. *)
Fixpoint dedup (l : list hkey) : list hkey :=
  match l with
  | [] => []
  | x :: l' => if existsb (hkey_eqb x) l' then dedup l' else x :: dedup l'
  end.

Definition set_of {A} (hash : A -> result hkey) (l : list A)
  : result (list hkey) :=
  ks <- for_each l (fun acc v => k <- hash v ;; Ok (acc ++ [k])) [] ;;
  Ok (dedup ks).

Definition py_set (l : list json) : result (list hkey) := set_of hash_key l.

(** [sorted(l)].  The sort compares with [<] only; it places [x] after the
    elements that are not greater. *)
Fixpoint insert_sorted (x : hkey) (l : list hkey) : list hkey :=
  match l with
  | [] => [x]
  | y :: l' => if hkey_ltb x y then x :: y :: l' else y :: insert_sorted x l'
  end.

Fixpoint sort (l : list hkey) : list hkey :=
  match l with
  | [] => []
  | x :: l' => insert_sorted x (sort l')
  end.

(** A list of two or more elements sorts only when [<] is defined between
    all of them; otherwise a comparison raises [TypeError]. *)
Definition comparable (l : list hkey) : bool :=
  (length l <=? 1)%nat || forallb is_HStr l || forallb is_HInt l.

Definition py_sorted (l : list hkey) : result (list hkey) :=
  if comparable l then Ok (sort l) else Raise TypeError.

(** ** build_mapping *)

Definition build_mapping (titles : list json) : result (dict hkey str) :=
  title_set <- py_set titles ;;
  unique_titles <- py_sorted title_set ;;
  let labels := generate_labels (len unique_titles) in
  Ok (dict_of_pairs hkey_eqb (combine unique_titles labels)).

(** ** Operations on JSON values used by [anonymize] *)

(** [obj.get(key, default)]: only a dict has [get]. *)
Definition py_get (obj : json) (key : str) (default : json) : result json :=
  match obj with
  | JObj fields =>
      match dict_get str_eqb fields key with
      | Some v => Ok v
      | None => Ok default
      end
  | _ => Raise AttributeError
  end.

(** The items a [for] loop over [v] visits: the elements of a list, the keys
    of a dict, the characters of a string. *)
Definition py_iter (v : json) : result (list json) :=
  match v with
  | JArr items => Ok items
  | JObj fields => Ok (map (fun kv => JStr (fst kv)) fields)
  | JStr s => Ok (map (fun c => JStr [c]) s)
  | JNull | JBool _ | JInt _ => Raise TypeError
  end.

Fixpoint prefixb (p s : str) : bool :=
  match p, s with
  | [], _ => true
  | _ :: _, [] => false
  | a :: p', b :: s' => (a =? b) && prefixb p' s'
  end.

Fixpoint substringb (p s : str) : bool :=
  prefixb p s || match s with [] => false | _ :: s' => substringb p s' end.

Definition is_JStr (key : str) (v : json) : bool :=
  match v with JStr s => str_eqb s key | _ => false end.

(** [key in container] for a string [key]: a key of a dict, an element of a
    list, a substring of a string. *)
Definition py_contains (container : json) (key : str) : result bool :=
  match container with
  | JObj fields => Ok (dict_contains str_eqb fields key)
  | JArr items => Ok (existsb (is_JStr key) items)
  | JStr s => Ok (substringb key s)
  | JNull | JBool _ | JInt _ => Raise TypeError
  end.

(** [container[key]] for a string [key]. *)
Definition py_getitem (container : json) (key : str) : result json :=
  match container with
  | JObj fields =>
      match dict_get str_eqb fields key with
      | Some v => Ok v
      | None => Raise KeyError
      end
  | _ => Raise TypeError
  end.

(** [dict(v)] for a [v] that is not a dict: [v] is read as a sequence of
    key/value pairs.  Each element in turn must be iterable ([TypeError]),
    have two items ([ValueError]) and start with a hashable key
    ([TypeError]).  When every element passes, a dict is built. *)
Definition check_pair (item : json) : result unit :=
  kv <- py_iter item ;;
  match kv with
  | [k; _] => _ <- hash_key k ;; Ok tt
  | _ => Raise ValueError
  end.

Definition dict_of_sequence (v : json) : result unit :=
  items <- py_iter v ;;
  for_each items (fun _ item => check_pair item) tt.

(** ** anonymize *)

(** [room.get("entries", [])], as the [for] loop iterates it. *)
Definition room_entries (room : json) : result (list json) :=
  entries <- py_get room (lit "entries") (JArr []) ;;
  py_iter entries.

(** The first loop: the titles of all entries, in order. *)
Definition collect_titles (rooms : list json) : result (list json) :=
  for_each rooms (fun titles room =>
    entries <- room_entries room ;;
    for_each entries (fun titles entry =>
      has_title <- py_contains entry (lit "title") ;;
      if has_title : bool
      then title <- py_getitem entry (lit "title") ;; Ok (titles ++ [title])
      else Ok titles) titles) [].

(** The body of the inner loop of the second pass.  For an [entry] that is
    not a dict, [dict(entry)] raises or builds a dict, and then
    [entry.get] raises [AttributeError]. *)
Definition anonymize_entry (mapping : dict hkey str) (entry : json)
  : result json :=
  match entry with
  | JObj fields =>
      let new_entry := fields in
      title <- py_get entry (lit "title") JNull ;;
      k <- hash_key title ;;
      match dict_get hkey_eqb mapping k with
      | Some label => Ok (JObj (dict_set str_eqb new_entry (lit "title") (JStr label)))
      | None => Ok (JObj new_entry)
      end
  | _ =>
      _ <- dict_of_sequence entry ;;
      Raise AttributeError
  end.

Definition anonymize_room (mapping : dict hkey str) (room : json)
  : result json :=
  room_id <- py_get room (lit "room") JNull ;;
  entries <- room_entries room ;;
  new_entries <- for_each entries (fun acc entry =>
                   new_entry <- anonymize_entry mapping entry ;;
                   Ok (acc ++ [new_entry])) [] ;;
  Ok (JObj [(lit "room", room_id); (lit "entries", JArr new_entries)]).

(** Both loops iterate [data]; [rooms] are the items they visit. *)
Definition anonymize (data : json) : result json :=
  rooms <- py_iter data ;;
  titles <- collect_titles rooms ;;
  mapping <- build_mapping titles ;;
  anonymized <- for_each rooms (fun acc room =>
                  new_room <- anonymize_room mapping room ;;
                  Ok (acc ++ [new_room])) [] ;;
  Ok (JArr anonymized).

(** ** anonymize on a heap

    The same function with its objects in a store: lists and dicts live at
    locations, variables and fields hold references, [append] and item
    assignment change the object at a location.  This is the reading of the
    source in which one can ask whether the input is mutated. *)

Module Heap.

Definition loc := nat.

(** Immutable values are held directly, lists and dicts by reference. *)
Inductive val : Type :=
| VNone
| VBool (b : bool)
| VInt (z : Z)
| VStr (s : str)
| VRef (l : loc).

Inductive obj : Type :=
| OList (items : list val)
| ODict (fields : list (hkey * val)).

(** Allocation takes the next free location. *)
Definition heap := list obj.

Fixpoint update (h : heap) (l : loc) (o : obj) : heap :=
  match h, l with
  | [], _ => []
  | _ :: h', O => o :: h'
  | o' :: h', S l' => o' :: update h' l' o
  end.

(** A statement: from the heap before to the heap after and the outcome. *)
Definition M (A : Type) : Type := heap -> heap * result A.

Definition ret {A} (a : A) : M A := fun h => (h, Ok a).

Definition raise {A} (e : exn) : M A := fun h => (h, Raise e).

Definition bind {A B} (m : M A) (k : A -> M B) : M B :=
  fun h =>
    match m h with
    | (h', Ok a) => k a h'
    | (h', Raise e) => (h', Raise e)
    end.

Declare Scope heap_scope.
Delimit Scope heap_scope with heap.
Notation "x <- c ;; k" := (bind c (fun x => k))
  (at level 61, c at next level, right associativity) : heap_scope.
#[local] Open Scope heap_scope.

(** An expression that only reads the heap. *)
Definition reading {A} (f : heap -> result A) : M A := fun h => (h, f h).

(** A new object. *)
Definition alloc (o : obj) : M val := fun h => (h ++ [o], Ok (VRef (length h))).

(** The object at a location replaced. *)
Definition mutate (l : loc) (o : obj) : M unit := fun h => (update h l o, Ok tt).

Fixpoint for_each {A} (l : list A) (body : A -> M unit) : M unit :=
  match l with
  | [] => ret tt
  | x :: l' => _ <- body x ;; for_each l' body
  end.

(** What a value is, with the object a reference leads to.  The references
    the script handles lead to objects; one that leads nowhere is given the
    shape [SDangling], on which every operation raises. *)
Inductive shape : Type :=
| SNone
| SBool (b : bool)
| SInt (z : Z)
| SStr (s : str)
| SList (l : loc) (items : list val)
| SDict (l : loc) (fields : list (hkey * val))
| SDangling.

Definition view (h : heap) (v : val) : shape :=
  match v with
  | VNone => SNone
  | VBool b => SBool b
  | VInt z => SInt z
  | VStr s => SStr s
  | VRef l =>
      match nth_error h l with
      | Some (OList items) => SList l items
      | Some (ODict fields) => SDict l fields
      | None => SDangling
      end
  end.

(** [hash(v)]: lists and dicts do not hash. *)
Definition hash_val (v : val) : result hkey :=
  match v with
  | VNone => Ok HNone
  | VBool b => Ok (HInt (if b then 1 else 0))
  | VInt z => Ok (HInt z)
  | VStr s => Ok (HStr s)
  | VRef _ => Raise TypeError
  end.

(** A key of a dict as the value a loop over the dict visits. *)
Definition val_of_key (k : hkey) : val :=
  match k with
  | HNone => VNone
  | HInt z => VInt z
  | HStr s => VStr s
  end.

(** [obj.get(key, default)]. *)
Definition py_get (obj : val) (key : str) (default : val) : M val :=
  reading (fun h =>
    match view h obj with
    | SDict _ fields =>
        match dict_get hkey_eqb fields (HStr key) with
        | Some v => Ok v
        | None => Ok default
        end
    | _ => Raise AttributeError
    end).

(** The items a [for] loop over [v] visits.  The script never changes a
    list or a dict while a loop visits it, so the items are those present
    when the loop starts. *)
Definition py_iter (v : val) : M (list val) :=
  reading (fun h =>
    match view h v with
    | SList _ items => Ok items
    | SDict _ fields => Ok (map (fun kv => val_of_key (fst kv)) fields)
    | SStr s => Ok (map (fun c => VStr [c]) s)
    | _ => Raise TypeError
    end).

Definition is_VStr (key : str) (v : val) : bool :=
  match v with VStr s => str_eqb s key | _ => false end.

(** [key in container] for a string [key]. *)
Definition py_contains (container : val) (key : str) : M bool :=
  reading (fun h =>
    match view h container with
    | SDict _ fields => Ok (dict_contains hkey_eqb fields (HStr key))
    | SList _ items => Ok (existsb (is_VStr key) items)
    | SStr s => Ok (substringb key s)
    | _ => Raise TypeError
    end).

(** [container[key]] for a hashable [key]. *)
Definition py_getitem (container : val) (key : hkey) : M val :=
  reading (fun h =>
    match view h container with
    | SDict _ fields =>
        match dict_get hkey_eqb fields key with
        | Some v => Ok v
        | None => Raise KeyError
        end
    | _ => Raise TypeError
    end).

(** [key in mapping] for any value [key]: the key is hashed first. *)
Definition py_in (container : val) (key : val) : M bool :=
  reading (fun h =>
    match view h container, hash_val key with
    | SDict _ fields, Ok k => Ok (dict_contains hkey_eqb fields k)
    | SDict _ _, Raise e => Raise e
    | _, _ => Raise TypeError
    end).

(** [target.append(v)]. *)
Definition list_append (target : val) (v : val) : M unit :=
  fun h =>
    match view h target with
    | SList l items => mutate l (OList (items ++ [v])) h
    | _ => raise AttributeError h
    end.

(** [target[key] = v]. *)
Definition py_setitem (target : val) (key : hkey) (v : val) : M unit :=
  fun h =>
    match view h target with
    | SDict l fields => mutate l (ODict (dict_set hkey_eqb fields key v)) h
    | _ => raise TypeError h
    end.

(** The pairs that [dict(v)] reads from a sequence [v]: every item must be
    iterable, have two elements and a hashable first one. *)
Fixpoint pairs_of (h : heap) (items : list val) (acc : dict hkey val)
  : result (dict hkey val) :=
  match items with
  | [] => Ok acc
  | item :: items' =>
      match snd (py_iter item h) with
      | Ok [k; v] =>
          match hash_val k with
          | Ok hk => pairs_of h items' (dict_set hkey_eqb acc hk v)
          | Raise e => Raise e
          end
      | Ok _ => Raise ValueError
      | Raise e => Raise e
      end
  end.

(** [dict(v)]: a new dict, with the fields of [v] when [v] is a dict. *)
Definition py_dict (v : val) : M val :=
  fun h =>
    match view h v with
    | SDict _ fields => alloc (ODict fields) h
    | _ =>
        (items <- py_iter v ;;
         fields <- reading (fun h => pairs_of h items []) ;;
         alloc (ODict fields)) h
    end.

(** [build_mapping(titles)]; the set, the sorted list and the labels do not
    outlive the call and are not allocated. *)
Definition build_mapping (titles : val) : M val :=
  items <- py_iter titles ;;
  title_set <- reading (fun _ => set_of hash_val items) ;;
  unique_titles <- reading (fun _ => py_sorted title_set) ;;
  let labels := generate_labels (len unique_titles) in
  alloc (ODict (dict_of_pairs hkey_eqb (combine unique_titles (map VStr labels)))).

(** [room.get("entries", [])], as the [for] loop iterates it; the default
    [[]] is a new list at each evaluation. *)
Definition room_entries (room : val) : M (list val) :=
  default <- alloc (OList []) ;;
  entries <- py_get room (lit "entries") default ;;
  py_iter entries.

Definition anonymize (data : val) : M val :=
  titles <- alloc (OList []) ;;
  rooms <- py_iter data ;;
  _ <- for_each rooms (fun room =>
         entries <- room_entries room ;;
         for_each entries (fun entry =>
           has_title <- py_contains entry (lit "title") ;;
           if has_title : bool
           then title <- py_getitem entry (HStr (lit "title")) ;;
                list_append titles title
           else ret tt)) ;;
  mapping <- build_mapping titles ;;
  anonymized <- alloc (OList []) ;;
  rooms <- py_iter data ;;
  _ <- for_each rooms (fun room =>
         room_id <- py_get room (lit "room") VNone ;;
         new_entries <- alloc (OList []) ;;
         new_room <- alloc (ODict [(HStr (lit "room"), room_id);
                                   (HStr (lit "entries"), new_entries)]) ;;
         entries <- room_entries room ;;
         _ <- for_each entries (fun entry =>
                new_entry <- py_dict entry ;;
                title <- py_get entry (lit "title") VNone ;;
                mapped <- py_in mapping title ;;
                _ <- (if mapped : bool
                      then k <- reading (fun _ => hash_val title) ;;
                           label <- py_getitem mapping k ;;
                           py_setitem new_entry (HStr (lit "title")) label
                      else ret tt) ;;
                target <- py_getitem new_room (HStr (lit "entries")) ;;
                list_append target new_entry) ;;
         list_append anonymized new_room) ;;
  ret anonymized.

(** A JSON value built in the heap, as [json.load] leaves it. *)
Fixpoint store (j : json) : M val :=
  match j with
  | JNull => ret VNone
  | JBool b => ret (VBool b)
  | JInt z => ret (VInt z)
  | JStr s => ret (VStr s)
  | JArr items =>
      vs <- (fix store_items (l : list json) : M (list val) :=
               match l with
               | [] => ret []
               | x :: l' => v <- store x ;; vs <- store_items l' ;; ret (v :: vs)
               end) items ;;
      alloc (OList vs)
  | JObj fields =>
      kvs <- (fix store_fields (l : list (str * json)) : M (list (hkey * val)) :=
                match l with
                | [] => ret []
                | (k, x) :: l' =>
                    v <- store x ;; kvs <- store_fields l' ;; ret ((HStr k, v) :: kvs)
                end) fields ;;
      alloc (ODict (dict_of_pairs hkey_eqb kvs))
  end.

(** All the values of a list of optional values, if none is missing. *)
Fixpoint all_some {A} (l : list (option A)) : option (list A) :=
  match l with
  | [] => Some []
  | Some a :: l' => option_map (cons a) (all_some l')
  | None :: _ => None
  end.

Definition field_back (k : hkey) (j : option json) : option (str * json) :=
  match k, j with
  | HStr s, Some j => Some (s, j)
  | _, _ => None
  end.

(** The JSON value a heap value stands for; [fuel] bounds the depth. *)
Fixpoint read_back (fuel : nat) (h : heap) (v : val) : option json :=
  match fuel with
  | O => None
  | S fuel' =>
      match view h v with
      | SNone => Some JNull
      | SBool b => Some (JBool b)
      | SInt z => Some (JInt z)
      | SStr s => Some (JStr s)
      | SList _ items =>
          option_map JArr (all_some (map (read_back fuel' h) items))
      | SDict _ fields =>
          option_map JObj
            (all_some (map (fun kv => field_back (fst kv) (read_back fuel' h (snd kv)))
                           fields))
      | SDangling => None
      end
  end.

End Heap.

(** ** load_json, save_json and main *)

(** The files of the machine, by path, and the lines printed so far.  A path
    without content is a file that does not exist; other failures of the
    operating system are outside the model. *)
Record world : Type := {
  files : str -> option str;
  stdout : list str
}.

(** The interpreter ends the process with status [0] when [main] returns.
    An uncaught [SystemExit] whose argument is a string prints that string
    on the error stream and ends with status [1]; any other uncaught
    exception prints a traceback and ends with status [1]. *)
Definition exit_status (outcome : result unit) : Z :=
  match outcome with
  | Ok _ => 0
  | Raise _ => 1
  end.

Definition fatal_message (outcome : result unit) : option str :=
  match outcome with
  | Raise (SystemExit message) => Some message
  | _ => None
  end.

Section Script.
(** [json.load] on the text of a file, and [json.dump] with
    [ensure_ascii=False, indent=2]: the parser and the printer of the
    library. *)
Variable json_load : str -> result json.
Variable json_dump : json -> str.

(** [Path(text)], given by the text [str(path)] shows. *)
Variable Path : str -> str.

Definition DEFAULT_INPUT : str := Path (lit "reserves.json").
Definition DEFAULT_OUTPUT : str := Path (lit "reserves_anonymized.json").

(** [path.open("r")] and reading the whole file. *)
Definition open_read (w : world) (path : str) : result str :=
  match files w path with
  | Some text => Ok text
  | None => Raise FileNotFoundError
  end.

(** The text before the path in the message of [load_json]:
    "入力ファイルが見つかりません: ". *)
Definition missing_input_message : str :=
  [0x5165; 0x529b; 0x30d5; 0x30a1; 0x30a4; 0x30eb; 0x304c; 0x898b; 0x3064;
   0x304b; 0x308a; 0x307e; 0x305b; 0x3093; 0x3a; 0x20].

Definition load_json (w : world) (path : str) : result json :=
  match (text <- open_read w path ;; json_load text) with
  | Raise FileNotFoundError =>
      Raise (SystemExit (missing_input_message ++ path))
  | outcome => outcome
  end.

(** [path.open("w")] creates or empties the file; the dump and a newline
    are written to it. *)
Definition save_json (w : world) (path : str) (data : json) : world :=
  {| files := fun p => if str_eqb p path
                       then Some (json_dump data ++ [10])
                       else files w p;
     stdout := stdout w |}.

Definition print (w : world) (line : str) : world :=
  {| files := files w; stdout := stdout w ++ [line] |}.

Definition input_path (argv : list str) : str :=
  match nth_error argv 1 with
  | Some arg => Path arg
  | None => DEFAULT_INPUT
  end.

Definition output_path (argv : list str) : str :=
  match nth_error argv 2 with
  | Some arg => Path arg
  | None => DEFAULT_OUTPUT
  end.

Definition main (argv : list str) (w : world) : world * result unit :=
  match load_json w (input_path argv) with
  | Raise e => (w, Raise e)
  | Ok data =>
      match anonymize data with
      | Raise e => (w, Raise e)
      | Ok anonymized =>
          let w' := save_json w (output_path argv) anonymized in
          (print w' (lit "Anonymized " ++ input_path argv
                     ++ lit " -> " ++ output_path argv),
           Ok tt)
      end
  end.
End Script.

(** * Vocabulary of the properties *)

(** Bijective base-26 numeration, as the specification words it: the digits
    ['A'] .. ['Z'] count [1] .. [26], there is no zero digit, and the label of
    index [K] is the numeral of [K + 1] (A=0, ..., Z=25, AA=26, AB=27). *)
Definition digit (c : N) : N := c - ord_A + 1.

Definition bijective_value (s : str) : N :=
  fold_left (fun acc c => acc * base + digit c) s 0.

(** A code point of ['A'] .. ['Z']. *)
Definition is_upper (c : N) : Prop := ord_A <= c <= ord_A + 25.

(** [s] is a bijective base-26 numeral of index [K]. *)
Definition represents (s : str) (K : N) : Prop :=
  s <> [] /\ Forall is_upper s /\ bijective_value s = K + 1.

(** The lexicographic order of strings on code points, as a relation. *)
Inductive str_lt : str -> str -> Prop :=
| str_lt_nil c t : str_lt [] (c :: t)
| str_lt_head a b s t : a < b -> str_lt (a :: s) (b :: t)
| str_lt_tail a s t : str_lt s t -> str_lt (a :: s) (a :: t).

(** [<] on keys, as a relation. *)
Definition hkey_lt (a b : hkey) : Prop := hkey_ltb a b = true.

(** The order [sorted] leaves between neighbours: the later one is not
    smaller. *)
Definition not_after (a b : hkey) : Prop := hkey_ltb b a = false.

(** [room.get("room")]. *)
Definition room_id (room : json) : result json := py_get room (lit "room") JNull.

(** The title an entry carries, if it is a dict with that key. *)
Definition title_of (entry : json) : option json :=
  match entry with
  | JObj fields => dict_get str_eqb fields (lit "title")
  | _ => None
  end.

(** The fields of an entry other than [title], in their order. *)
Definition other_fields (entry : json) : option (list (str * json)) :=
  match entry with
  | JObj fields =>
      Some (filter (fun kv => negb (str_eqb (fst kv) (lit "title"))) fields)
  | _ => None
  end.

(** The entry at position [j] of the room at position [i] of a document. *)
Definition entry_at (rooms : list json) (i j : nat) : option json :=
  match nth_error rooms i with
  | Some room =>
      match room_entries room with
      | Ok entries => nth_error entries j
      | Raise _ => None
      end
  | None => None
  end.

(** The titles the first loop appends for one entry. *)
Definition entry_titles (entry : json) : list json :=
  match title_of entry with
  | Some t => [t]
  | None => []
  end.

(** The titles it appends for one room. *)
Definition room_titles (room : json) : list json :=
  match room_entries room with
  | Ok entries => flat_map entry_titles entries
  | Raise _ => []
  end.

(** The scenario of the specification: one room, two entries of one title. *)
Definition scenario : list json :=
  [JObj [(lit "room", JStr (lit "101"));
         (lit "entries",
          JArr [JObj [(lit "title", JStr (lit "Acme Corp")); (lit "note", JStr (lit "x"))];
                JObj [(lit "title", JStr (lit "Acme Corp"))];
                JObj [(lit "title", JStr (lit "Beta LLC"))]])]].

(** What the specification expects for it. *)
Definition scenario_anonymized : list json :=
  [JObj [(lit "room", JStr (lit "101"));
         (lit "entries",
          JArr [JObj [(lit "title", JStr (lit "A")); (lit "note", JStr (lit "x"))];
                JObj [(lit "title", JStr (lit "A"))];
                JObj [(lit "title", JStr (lit "B"))]])]].

(** A room record without the [room] key. *)
Definition room_without_id : list json :=
  [JObj [(lit "entries", JArr [JObj [(lit "title", JStr (lit "Acme Corp"))]])]].



(** A document where one entry has [title: null] and another has no title. *)
Definition null_title_document : list json :=
  [JObj [(lit "entries",
          JArr [JObj [(lit "title", JNull)];
                JObj [(lit "note", JStr (lit "x"))]])]].

(** The documents of the data model: every room is a dict whose [entries],
    if any, iterate to dicts, and every [title] present is a string. *)
Definition well_formed_entry (entry : json) : Prop :=
  exists fields,
    entry = JObj fields /\
    (title_of entry = None \/ exists s, title_of entry = Some (JStr s)).

Definition well_formed_room (room : json) : Prop :=
  (exists fields, room = JObj fields) /\
  exists entries, room_entries room = Ok entries /\ Forall well_formed_entry entries.

(** A room record with no [entries] field, or with an empty list. *)
Definition no_entries (room : json) : Prop :=
  exists fields,
    room = JObj fields /\
    (dict_get str_eqb fields (lit "entries") = None \/
     dict_get str_eqb fields (lit "entries") = Some (JArr [])).

(** The output room with [entries: []] for such a room. *)
Definition empty_room (room : json) : json :=
  JObj [(lit "room", match room_id room with Ok id => id | Raise _ => JNull end);
        (lit "entries", JArr [])].

(** Two such rooms. *)
Definition rooms_without_entries : list json :=
  [JObj [(lit "room", JStr (lit "101"))];
   JObj [(lit "room", JStr (lit "102")); (lit "entries", JArr [])]].




(** The exceptions [anonymize] can end with. *)
Definition shape_error (e : exn) : Prop :=
  e = TypeError \/ e = ValueError \/ e = AttributeError.

Definition raises_shape_error {A} (r : result A) : Prop :=
  forall e, r = Raise e -> shape_error e.

(** A document with an entry without title and no [title: null]. *)
Definition untitled_entry_document : list json :=
  [JObj [(lit "room", JStr (lit "101"));
         (lit "entries",
          JArr [JObj [(lit "title", JStr (lit "Acme Corp"))];
                JObj [(lit "note", JStr (lit "x"))]])]].

(** The number of labels of at most [L] letters: 26 + 26^2 + ... + 26^L. *)
Fixpoint count_upto (L : nat) : N :=
  match L with
  | O => 0
  | S L' => base * (count_upto L' + 1)
  end.

(** Shorter first, and code point order between strings of one length: the
    order A, B, ..., Z, AA, AB, ... *)
Definition shortlex (s t : str) : Prop :=
  (length s < length t)%nat \/ (length s = length t /\ str_lt s t).

(** The number of distinct titles that sort before [t]. *)
Definition smaller_titles (t : str) (titles : list str) : nat :=
  length (dedup (map HStr (filter (fun u => str_ltb u t) titles))).

(** ** Values in the heap that stand for JSON values *)

(** The value [v] stands for the JSON value [j] in the heap [h], through
    objects at locations in [D] only. *)
Fixpoint rep_in (D : Heap.loc -> Prop) (h : Heap.heap) (j : json) (v : Heap.val)
  {struct j} : Prop :=
  match j with
  | JNull => v = Heap.VNone
  | JBool b => v = Heap.VBool b
  | JInt z => v = Heap.VInt z
  | JStr s => v = Heap.VStr s
  | JArr js =>
      exists l vs,
        v = Heap.VRef l /\ D l /\ nth_error h l = Some (Heap.OList vs) /\
        (fix items (js : list json) (vs : list Heap.val) {struct js} : Prop :=
           match js, vs with
           | [], [] => True
           | j :: js', v :: vs' => rep_in D h j v /\ items js' vs'
           | _, _ => False
           end) js vs
  | JObj fs =>
      exists l kvs,
        v = Heap.VRef l /\ D l /\ nth_error h l = Some (Heap.ODict kvs) /\
        (fix fields (fs : list (str * json)) (kvs : list (hkey * Heap.val))
           {struct fs} : Prop :=
           match fs, kvs with
           | [], [] => True
           | (k, j) :: fs', (hk, v) :: kvs' =>
               hk = HStr k /\ rep_in D h j v /\ fields fs' kvs'
           | _, _ => False
           end) fs kvs
  end.

(** A field of a dict in the heap stands for a field of a JSON object. *)
Definition field_in (D : Heap.loc -> Prop) (h : Heap.heap)
  (f : str * json) (kv : hkey * Heap.val) : Prop :=
  fst kv = HStr (fst f) /\ rep_in D h (snd f) (snd kv).

Definition anywhere (l : Heap.loc) : Prop := True.

(** The value [v] stands for the JSON value [j] in the heap [h]. *)
Definition rep (h : Heap.heap) (j : json) (v : Heap.val) : Prop :=
  rep_in anywhere h j v.

Definition rep_field (h : Heap.heap) (f : str * json) (kv : hkey * Heap.val)
  : Prop :=
  field_in anywhere h f kv.

(** Two outcomes that agree: related values, or the same exception. *)
Definition same_outcome {A B} (R : A -> B -> Prop) (c : result A) (r : result B)
  : Prop :=
  match c, r with
  | Ok a, Ok b => R a b
  | Raise e, Raise e' => e = e'
  | _, _ => False
  end.

(** The mapping as the fields of the dict that holds it. *)
Definition mapping_fields (mapping : dict hkey str) : list (hkey * Heap.val) :=
  map (fun kv => (fst kv, Heap.VStr (snd kv))) mapping.

(** * Properties *)

(** ** Labels *)

Lemma bijective_value_app s c :
  bijective_value (s ++ [c]) = bijective_value s * base + digit c.
Proof. unfold bijective_value. rewrite fold_left_app. reflexivity. Qed.

(** The loop, one iteration unfolded: the body up to [break], then the
    next iteration. *)
Lemma label_loop_body n label :
  label_loop n label =
  let label' := chr (ord_A + n mod base) ++ label in
  if n / base =? 0 then label' else label_loop (n / base - 1) label'.
Proof.
  rewrite label_loop_equation_1. cbv zeta.
  destruct (N.eq_dec (n / base) 0) as [e | e]; cbn.
  - apply N.eqb_eq in e. rewrite e. reflexivity.
  - apply N.eqb_neq in e. rewrite e. reflexivity.
Qed.

Lemma div_base_lt n : n / base <> 0 -> 0 <= n / base - 1 < n.
Proof.
  intros Hq.
  assert (n / base <= n) by (apply N.Div0.div_le_upper_bound; unfold base; lia).
  remember (n / base) as q eqn:E; clear E. lia.
Qed.

(** The letters the loop prepends depend on [n] only. *)
Lemma label_loop_app n : forall label,
  label_loop n label = label_loop n [] ++ label.
Proof.
  induction n as [n IH] using (well_founded_induction (N.lt_wf 0)).
  intros label.
  rewrite (label_loop_body n label), (label_loop_body n []). cbv zeta.
  destruct (n / base =? 0) eqn:E.
  - reflexivity.
  - apply N.eqb_neq in E.
    rewrite (IH _ (div_base_lt n E) (chr _ ++ label)).
    rewrite (IH _ (div_base_lt n E) (chr _ ++ [])).
    rewrite <- app_assoc. reflexivity.
Qed.

Lemma label_loop_step n :
  n / base <> 0 ->
  label_loop n [] = label_loop (n / base - 1) [] ++ [ord_A + n mod base].
Proof.
  intros E. rewrite (label_loop_body n []). cbv zeta.
  apply N.eqb_neq in E. rewrite E.
  rewrite label_loop_app. reflexivity.
Qed.

Lemma label_loop_last n :
  n / base = 0 -> label_loop n [] = [ord_A + n mod base].
Proof.
  intros E. rewrite (label_loop_body n []). cbv zeta.
  apply N.eqb_eq in E. rewrite E. reflexivity.
Qed.

Lemma mod_base_upper n : is_upper (ord_A + n mod base).
Proof.
  assert (n mod base < base) by (apply N.mod_lt; discriminate).
  remember (n mod base) as r eqn:E; clear E.
  unfold is_upper, base in *. lia.
Qed.

Lemma digit_mod n : digit (ord_A + n mod base) = n mod base + 1.
Proof. unfold digit. remember (n mod base) as r eqn:E; clear E. lia. Qed.

(** The label of [n] is a numeral of [n + 1]. *)
Lemma label_loop_represents n : represents (label_loop n []) n.
Proof.
  induction n as [n IH] using (well_founded_induction (N.lt_wf 0)).
  destruct (N.eq_dec (n / base) 0) as [E | E].
  - rewrite (label_loop_last n E). repeat split.
    + discriminate.
    + constructor; [apply mod_base_upper | constructor].
    + pose proof (N.div_mod n base ltac:(discriminate)) as D.
      rewrite E in D. cbn [bijective_value fold_left]. rewrite digit_mod. lia.
  - rewrite (label_loop_step n E).
    destruct (IH _ (div_base_lt n E)) as (Hne & Hup & Hval).
    repeat split.
    + intros C. apply app_eq_nil in C. destruct C as [_ C]. discriminate.
    + apply Forall_app. split; [exact Hup |].
      constructor; [apply mod_base_upper | constructor].
    + rewrite bijective_value_app, Hval, digit_mod.
      pose proof (N.div_mod n base ltac:(discriminate)) as D.
      remember (n / base) as q eqn:Eq; clear Eq.
      replace (q - 1 + 1) with q by lia. lia.
Qed.

Lemma digit_bounds c : is_upper c -> 1 <= digit c <= 26.
Proof. unfold is_upper, digit, ord_A. lia. Qed.

Lemma bijective_value_pos s :
  s <> [] -> Forall is_upper s -> 1 <= bijective_value s.
Proof.
  destruct s as [|c s _] using rev_ind; [contradiction |].
  intros _ Hup. apply Forall_app in Hup. destruct Hup as [_ Hc].
  inversion Hc as [|? ? Hc' _]; subst.
  rewrite bijective_value_app. pose proof (digit_bounds _ Hc'). lia.
Qed.

(** No other string is a numeral of [K + 1]: the numeration is one-to-one. *)
Lemma represents_label_loop s : forall K, represents s K -> label_loop K [] = s.
Proof.
  induction s as [|c s IH] using rev_ind; intros K (Hne & Hup & Hval).
  - contradiction.
  - apply Forall_app in Hup. destruct Hup as [Hs Hc].
    inversion Hc as [|? ? Hc' _]; subst.
    rewrite bijective_value_app in Hval.
    pose proof (digit_bounds _ Hc') as Hd.
    assert (Hmod : K mod base = digit c - 1).
    { symmetry. apply (N.mod_unique K base (bijective_value s)); unfold base in *; lia. }
    assert (Hdiv : K / base = bijective_value s).
    { symmetry. apply (N.div_unique K base (bijective_value s) (digit c - 1));
        unfold base in *; lia. }
    assert (Hchar : ord_A + K mod base = c).
    { rewrite Hmod. unfold is_upper, digit, ord_A in *. lia. }
    destruct (list_eq_dec N.eq_dec s []) as [-> | Hs0].
    + cbn in Hdiv. rewrite (label_loop_last K Hdiv), Hchar. reflexivity.
    + pose proof (bijective_value_pos s Hs0 Hs) as Hpos.
      assert (E : K / base <> 0) by lia.
      rewrite (label_loop_step K E), Hchar. f_equal.
      apply IH. repeat split; [exact Hs0 | exact Hs | lia].
Qed.

Lemma represents_unique s t K : represents s K -> represents t K -> s = t.
Proof.
  intros Hs Ht.
  rewrite <- (represents_label_loop s K Hs). apply represents_label_loop, Ht.
Qed.

Lemma label_loop_injective a b : label_loop a [] = label_loop b [] -> a = b.
Proof.
  intros E.
  destruct (label_loop_represents a) as (_ & _ & Ha).
  destruct (label_loop_represents b) as (_ & _ & Hb).
  rewrite E in Ha. lia.
Qed.

Lemma range_length count : length (range count) = Z.to_nat count.
Proof. unfold range. rewrite length_map, length_seq. reflexivity. Qed.

Lemma range_nth count K :
  (K < Z.to_nat count)%nat -> nth_error (range count) K = Some (N.of_nat K).
Proof.
  intros HK. unfold range. rewrite nth_error_map.
  rewrite nth_error_seq. 
  destruct (Nat.ltb_spec K (Z.to_nat count)); [reflexivity | lia].
Qed.

Lemma range_NoDup count : NoDup (range count).
Proof.
  unfold range. apply Injective_map_NoDup.
  - intros a b. apply Nat2N.inj.
  - apply seq_NoDup.
Qed.

Lemma generate_labels_length count :
  length (generate_labels count) = Z.to_nat count.
Proof. unfold generate_labels. rewrite length_map. apply range_length. Qed.

Lemma generate_labels_nth count K :
  (K < Z.to_nat count)%nat ->
  nth_error (generate_labels count) K = Some (label_loop (N.of_nat K) []).
Proof.
  intros HK. unfold generate_labels.
  rewrite nth_error_map, (range_nth _ _ HK). reflexivity.
Qed.

Lemma generate_labels_NoDup count : NoDup (generate_labels count).
Proof.
  unfold generate_labels. apply Injective_map_NoDup.
  - intros a b. apply label_loop_injective.
  - apply range_NoDup.
Qed.

(** C2. For every count [N >= 0], [generate_labels N] yields exactly [N]
    pairwise distinct strings over ['A'..'Z']; the string of index [K] is the
    bijective base-26 numeral of [K] (and the only one); index 0 is "A",
    index 25 is "Z" and index 26 is "AA". *)
Theorem generate_labels_bijective_base26 (count : Z) (Hcount : (0 <= count)%Z) :
  len (generate_labels count) = count /\
  NoDup (generate_labels count) /\
  (forall K, (Z.of_nat K < count)%Z ->
     exists label,
       nth_error (generate_labels count) K = Some label /\
       represents label (N.of_nat K) /\
       (forall s, represents s (N.of_nat K) -> s = label)) /\
  ((0 < count)%Z -> nth_error (generate_labels count) 0 = Some (lit "A")) /\
  ((25 < count)%Z -> nth_error (generate_labels count) 25 = Some (lit "Z")) /\
  ((26 < count)%Z -> nth_error (generate_labels count) 26 = Some (lit "AA")).
Proof.
  split; [| split; [| split; [| split; [| split]]]].
  - unfold len. rewrite generate_labels_length. lia.
  - apply generate_labels_NoDup.
  - intros K HK. exists (label_loop (N.of_nat K) []). split; [| split].
    + apply generate_labels_nth. lia.
    + apply label_loop_represents.
    + intros s Hs. symmetry. apply represents_label_loop, Hs.
  - intros H. rewrite generate_labels_nth by lia. reflexivity.
  - intros H. rewrite generate_labels_nth by lia. reflexivity.
  - intros H. rewrite generate_labels_nth by lia. reflexivity.
Qed.

Lemma generate_labels_bijective_base26_witness :
  (0 <= 27)%Z /\ nth_error (generate_labels 27) 26 = Some (lit "AA").
Proof.
  split; [lia |].
  apply (generate_labels_bijective_base26 27); lia.
Defined.

(** ** Strings and hashable keys *)

Lemma str_ltb_lt s : forall t, str_ltb s t = true <-> str_lt s t.
Proof.
  induction s as [|a s IH]; intros [|b t]; cbn.
  - split; [discriminate | inversion 1].
  - split; [constructor | reflexivity].
  - split; [discriminate | inversion 1].
  - rewrite orb_true_iff, andb_true_iff, N.ltb_lt, N.eqb_eq, IH. split.
    + intros [H | [-> H]]; [apply str_lt_head, H | apply str_lt_tail, H].
    + inversion 1; subst; [left; assumption | right; split; [reflexivity | assumption]].
Qed.

Lemma str_lt_irrefl s : ~ str_lt s s.
Proof. induction s as [|a s IH]; inversion 1; subst; [lia | auto]. Qed.

Lemma str_lt_trans s t u : str_lt s t -> str_lt t u -> str_lt s u.
Proof.
  intros H. revert u. induction H; intros u Hu; inversion Hu; subst.
  - constructor.
  - constructor.
  - apply str_lt_head. lia.
  - apply str_lt_head. assumption.
  - apply str_lt_head. assumption.
  - apply str_lt_tail. auto.
Qed.

Lemma str_lt_total s : forall t, str_lt s t \/ s = t \/ str_lt t s.
Proof.
  induction s as [|a s IH]; intros [|b t].
  - auto.
  - left. constructor.
  - right. right. constructor.
  - destruct (N.lt_total a b) as [H | [-> | H]].
    + left. apply str_lt_head, H.
    + destruct (IH t) as [H | [-> | H]].
      * left. apply str_lt_tail, H.
      * auto.
      * right. right. apply str_lt_tail, H.
    + right. right. apply str_lt_head, H.
Qed.

Lemma str_eqb_eq s t : str_eqb s t = true <-> s = t.
Proof.
  unfold str_eqb. destruct (list_eq_dec N.eq_dec s t); split; congruence.
Qed.

Lemma str_eqb_refl s : str_eqb s s = true.
Proof. apply str_eqb_eq. reflexivity. Qed.

Lemma str_eqb_neq s t : str_eqb s t = false <-> s <> t.
Proof.
  unfold str_eqb. destruct (list_eq_dec N.eq_dec s t); split; congruence.
Qed.

Lemma hkey_eqb_eq a b : hkey_eqb a b = true <-> a = b.
Proof.
  destruct a, b; cbn; try (split; congruence).
  - rewrite Z.eqb_eq. split; congruence.
  - rewrite str_eqb_eq. split; congruence.
Qed.

Lemma hkey_eqb_refl a : hkey_eqb a a = true.
Proof. apply hkey_eqb_eq. reflexivity. Qed.

Lemma hkey_eqb_neq a b : hkey_eqb a b = false <-> a <> b.
Proof.
  rewrite <- hkey_eqb_eq. destruct (hkey_eqb a b); split; congruence.
Qed.

Lemma hkey_lt_asym a b : hkey_lt a b -> hkey_ltb b a = false.
Proof.
  unfold hkey_lt. destruct a, b; cbn; try discriminate.
  - intros H. apply Z.ltb_lt in H. apply Z.ltb_ge. lia.
  - intros H. apply str_ltb_lt in H.
    destruct (str_ltb s0 s) eqn:E; [| reflexivity].
    apply str_ltb_lt in E. destruct (str_lt_irrefl s). eapply str_lt_trans; eassumption.
Qed.

Lemma hkey_lt_trans a b c : hkey_lt a b -> hkey_lt b c -> hkey_lt a c.
Proof.
  unfold hkey_lt. destruct a, b, c; cbn; try discriminate.
  - rewrite !Z.ltb_lt. lia.
  - rewrite !str_ltb_lt. apply str_lt_trans.
Qed.

(** Between two keys of the same comparable kind, one of [a < b], [a == b],
    [b < a] holds. *)
Lemma hkey_lt_total_str a b :
  is_HStr a = true -> is_HStr b = true ->
  hkey_ltb a b = false -> hkey_ltb b a = false -> a = b.
Proof.
  destruct a, b; cbn; try discriminate. intros _ _ H1 H2.
  destruct (str_lt_total s s0) as [H | [-> | H]]; [| reflexivity |];
    apply str_ltb_lt in H; congruence.
Qed.

Lemma hkey_lt_total_int a b :
  is_HInt a = true -> is_HInt b = true ->
  hkey_ltb a b = false -> hkey_ltb b a = false -> a = b.
Proof.
  destruct a, b; cbn; try discriminate. intros _ _ H1 H2.
  apply Z.ltb_ge in H1, H2. f_equal. lia.
Qed.

(** ** set and sorted *)

Lemma existsb_hkey_eqb x l : existsb (hkey_eqb x) l = true <-> In x l.
Proof.
  rewrite existsb_exists. split.
  - intros (y & Hy & E). apply hkey_eqb_eq in E. subst. exact Hy.
  - intros H. exists x. split; [exact H | apply hkey_eqb_refl].
Qed.

Lemma dedup_In x l : In x (dedup l) <-> In x l.
Proof.
  induction l as [|y l IH]; cbn; [tauto |].
  destruct (existsb (hkey_eqb y) l) eqn:E.
  - apply existsb_hkey_eqb in E. rewrite IH. split; [auto |].
    intros [-> | H]; assumption.
  - cbn. rewrite IH. tauto.
Qed.

Lemma dedup_NoDup l : NoDup (dedup l).
Proof.
  induction l as [|y l IH]; cbn; [constructor |].
  destruct (existsb (hkey_eqb y) l) eqn:E; [exact IH |].
  constructor; [| exact IH].
  rewrite dedup_In, <- existsb_hkey_eqb. congruence.
Qed.

Lemma insert_sorted_perm x l : Permutation (x :: l) (insert_sorted x l).
Proof.
  induction l as [|y l IH]; cbn; [reflexivity |].
  destruct (hkey_ltb x y); [reflexivity |].
  rewrite perm_swap. apply perm_skip, IH.
Qed.

Lemma sort_perm l : Permutation l (sort l).
Proof.
  induction l as [|x l IH]; cbn; [constructor |].
  rewrite <- insert_sorted_perm. apply perm_skip, IH.
Qed.

Lemma insert_sorted_Sorted x l :
  Sorted not_after l -> Sorted not_after (insert_sorted x l).
Proof.
  induction 1 as [|y l Hl IH Hhd]; cbn.
  - repeat constructor.
  - destruct (hkey_ltb x y) eqn:E.
    + constructor; [constructor; assumption |].
      constructor. apply hkey_lt_asym, E.
    + constructor; [exact IH |].
      destruct l as [|z l]; cbn.
      * constructor. exact E.
      * destruct (hkey_ltb x z); constructor; [exact E |].
        inversion Hhd; assumption.
Qed.

Lemma sort_Sorted l : Sorted not_after (sort l).
Proof.
  induction l as [|x l IH]; cbn; [constructor | apply insert_sorted_Sorted, IH].
Qed.

(** On distinct keys of one comparable kind the result is strictly
    increasing. *)
Lemma Sorted_strict l :
  (forallb is_HStr l = true \/ forallb is_HInt l = true) ->
  NoDup l -> Sorted not_after l -> StronglySorted hkey_lt l.
Proof.
  intros Hkind Hnd Hs.
  apply Sorted_StronglySorted; [exact hkey_lt_trans |].
  induction Hs as [|y l Hl IH Hhd]; [constructor |].
  inversion Hnd as [|? ? Hy Hnd']; subst.
  assert (Hkind' : forallb is_HStr l = true \/ forallb is_HInt l = true).
  { cbn in Hkind. rewrite !andb_true_iff in Hkind. tauto. }
  constructor; [apply IH; assumption |].
  destruct Hhd as [|z l Hz]; constructor.
  unfold hkey_lt. destruct (hkey_ltb y z) eqn:E; [reflexivity | exfalso].
  apply Hy. left. symmetry.
  cbn in Hkind. rewrite !andb_true_iff in Hkind.
  destruct Hkind as [(Ha & Hb & _) | (Ha & Hb & _)].
  - apply hkey_lt_total_str; assumption.
  - apply hkey_lt_total_int; assumption.
Qed.

Lemma forallb_perm {A} (f : A -> bool) l l' :
  Permutation l l' -> forallb f l = forallb f l'.
Proof.
  induction 1; cbn; try congruence.
  - destruct (f x), (f y); reflexivity.
Qed.

Lemma forallb_dedup f l : forallb f l = true -> forallb f (dedup l) = true.
Proof.
  rewrite !forallb_forall. intros H x Hx. apply H, dedup_In, Hx.
Qed.

Lemma all_HStr_map l :
  forallb is_HStr l = true -> exists us, l = map HStr us.
Proof.
  induction l as [|[| |s] l IH]; cbn; try discriminate.
  - exists []. reflexivity.
  - intros H. destruct (IH H) as (us & ->). exists (s :: us). reflexivity.
Qed.

Lemma StronglySorted_map_HStr us :
  StronglySorted hkey_lt (map HStr us) -> StronglySorted str_lt us.
Proof.
  induction us as [|u us IH]; cbn; [constructor |].
  inversion 1 as [|? ? Hs Hall]; subst.
  constructor; [apply IH, Hs |].
  rewrite Forall_forall in *. intros t Ht.
  apply str_ltb_lt. apply (Hall (HStr t)), in_map, Ht.
Qed.

Lemma StronglySorted_NoDup us : StronglySorted str_lt us -> NoDup us.
Proof.
  induction 1 as [|u us Hs IH Hall]; constructor; [| exact IH].
  intros Hin. rewrite Forall_forall in Hall.
  apply (str_lt_irrefl u), Hall, Hin.
Qed.

(** A strictly increasing list is determined by its elements: the order in
    which the set is iterated does not show in [sorted(set(titles))]. *)
Lemma StronglySorted_unique us : forall vs,
  StronglySorted str_lt us -> StronglySorted str_lt vs ->
  (forall t, In t us <-> In t vs) -> us = vs.
Proof.
  induction us as [|u us IH]; intros [|v vs] Hu Hv Hin.
  - reflexivity.
  - destruct (proj2 (Hin v)); left; reflexivity.
  - destruct (proj1 (Hin u)); left; reflexivity.
  - inversion Hu as [|? ? Hu' Hua]; inversion Hv as [|? ? Hv' Hva]; subst.
    rewrite Forall_forall in Hua, Hva.
    assert (u = v).
    { destruct (proj1 (Hin u) (or_introl eq_refl)) as [E | Hi]; [congruence |].
      destruct (proj2 (Hin v) (or_introl eq_refl)) as [E | Hj]; [congruence |].
      destruct (str_lt_irrefl u).
      apply (str_lt_trans u v u); [apply Hua, Hj | apply Hva, Hi]. }
    subst v. f_equal. apply IH; [assumption | assumption |].
    intros t. split; intros Ht.
    + destruct (proj1 (Hin t) (or_intror Ht)) as [<- | H]; [| exact H].
      destruct (str_lt_irrefl u). apply Hua, Ht.
    + destruct (proj2 (Hin t) (or_intror Ht)) as [<- | H]; [| exact H].
      destruct (str_lt_irrefl u). apply Hva, Ht.
Qed.

(** ** Dicts keyed by hashable values *)

Lemma dict_get_In {V} (d : dict hkey V) k v :
  dict_get hkey_eqb d k = Some v -> In (k, v) d.
Proof.
  induction d as [|[k' v'] d IH]; cbn; [discriminate |].
  destruct (hkey_eqb k' k) eqn:E.
  - apply hkey_eqb_eq in E. intros [= ->]. left. congruence.
  - auto.
Qed.

Lemma dict_get_None {V} (d : dict hkey V) k :
  dict_get hkey_eqb d k = None <-> ~ In k (keys d).
Proof.
  induction d as [|[k' v'] d IH]; cbn; [tauto |].
  destruct (hkey_eqb k' k) eqn:E.
  - apply hkey_eqb_eq in E. split; [discriminate | intros H; destruct H; auto].
  - apply hkey_eqb_neq in E. rewrite IH. tauto.
Qed.

Lemma dict_set_fresh {V} (d : dict hkey V) k v :
  dict_get hkey_eqb d k = None -> dict_set hkey_eqb d k v = d ++ [(k, v)].
Proof.
  induction d as [|[k' v'] d IH]; cbn; [reflexivity |].
  destruct (hkey_eqb k' k); [discriminate |].
  intros H. rewrite (IH H). reflexivity.
Qed.

(** [dict(pairs)] on pairs with distinct keys keeps them as they come. *)
Lemma dict_of_pairs_NoDup {V} (pairs : list (hkey * V)) :
  NoDup (keys pairs) -> dict_of_pairs hkey_eqb pairs = pairs.
Proof.
  unfold dict_of_pairs.
  enough (G : forall acc, NoDup (keys (acc ++ pairs)) ->
              fold_left (fun d kv => dict_set hkey_eqb d (fst kv) (snd kv)) pairs acc
              = acc ++ pairs) by (apply (G [])).
  induction pairs as [|[k v] pairs IH]; intros acc Hnd; cbn.
  - rewrite app_nil_r. reflexivity.
  - rewrite dict_set_fresh.
    + rewrite IH; rewrite <- app_assoc; [reflexivity | exact Hnd].
    + apply dict_get_None. unfold keys in *. rewrite map_app in Hnd. cbn in Hnd.
      apply NoDup_remove_2 in Hnd. rewrite in_app_iff in Hnd. tauto.
Qed.

Lemma keys_combine {V} (ks : list hkey) (vs : list V) :
  length ks = length vs -> keys (combine ks vs) = ks.
Proof.
  revert vs. induction ks as [|k ks IH]; intros [|v vs]; cbn; try discriminate.
  - reflexivity.
  - intros [= H]. f_equal. apply IH, H.
Qed.

(** Looking a key up in [zip(ks, vs)] gives the value at the key's position. *)
Lemma dict_get_combine_nth {V} (ks : list hkey) : forall (vs : list V) i k v,
  NoDup ks -> nth_error ks i = Some k -> nth_error vs i = Some v ->
  dict_get hkey_eqb (combine ks vs) k = Some v.
Proof.
  induction ks as [|k0 ks IH]; intros [|v0 vs] [|i] k v Hnd Hk Hv;
    cbn in *; try discriminate.
  - injection Hk as ->. injection Hv as ->. rewrite hkey_eqb_refl. reflexivity.
  - inversion Hnd as [|? ? Hk0 Hnd']; subst.
    destruct (hkey_eqb k0 k) eqn:E.
    + apply hkey_eqb_eq in E. subst. destruct Hk0. eapply nth_error_In, Hk.
    + eapply IH; eassumption.
Qed.

Lemma dict_get_combine_inv {V} (ks : list hkey) : forall (vs : list V) k v,
  dict_get hkey_eqb (combine ks vs) k = Some v ->
  exists i, nth_error ks i = Some k /\ nth_error vs i = Some v.
Proof.
  induction ks as [|k0 ks IH]; intros [|v0 vs] k v; cbn; try discriminate.
  destruct (hkey_eqb k0 k) eqn:E.
  - apply hkey_eqb_eq in E. subst. intros [= ->]. exists 0%nat. split; reflexivity.
  - intros H. destruct (IH _ _ _ H) as (i & Hi & Hv). exists (S i). split; assumption.
Qed.

(** [zip] of distinct keys with distinct values is one-to-one. *)
Lemma dict_get_combine_injective {V} (ks : list hkey) (vs : list V) k1 k2 v :
  NoDup vs ->
  dict_get hkey_eqb (combine ks vs) k1 = Some v ->
  dict_get hkey_eqb (combine ks vs) k2 = Some v -> k1 = k2.
Proof.
  intros Hnd H1 H2.
  apply dict_get_combine_inv in H1, H2.
  destruct H1 as (i & Hi & Hvi), H2 as (j & Hj & Hvj).
  assert (i = j).
  { apply (proj1 (NoDup_nth_error vs) Hnd).
    - apply nth_error_Some. congruence.
    - congruence. }
  subst. congruence.
Qed.

(** ** build_mapping *)

Lemma hash_keys_str (titles : list str) : forall acc,
  for_each (map JStr titles) (fun acc v => k <- hash_key v ;; Ok (acc ++ [k])) acc
  = Ok (acc ++ map HStr titles).
Proof.
  induction titles as [|t titles IH]; intros acc; cbn.
  - rewrite app_nil_r. reflexivity.
  - rewrite IH, <- app_assoc. reflexivity.
Qed.

Lemma py_set_str (titles : list str) :
  py_set (map JStr titles) = Ok (dedup (map HStr titles)).
Proof. unfold py_set, set_of. rewrite hash_keys_str. reflexivity. Qed.

Lemma forallb_is_HStr_map us : forallb is_HStr (map HStr us) = true.
Proof. induction us; cbn; auto. Qed.

Lemma NoDup_map_HStr us : NoDup us -> NoDup (map HStr us).
Proof.
  apply Injective_map_NoDup. intros a b. congruence.
Qed.

Lemma len_generate_labels {A} (l : list A) :
  length (generate_labels (len l)) = length l.
Proof. rewrite generate_labels_length. unfold len. lia. Qed.

(** C3. For titles that are strings, [build_mapping] returns the pairs of
    the unique titles, sorted increasingly by code points, with the labels
    of [generate_labels] in order: the title at position [k] maps to the
    label of index [k] (the first to "A", the second to "B"); distinct
    titles have distinct labels; no title gives the empty mapping. *)
Theorem build_mapping_sorted_zip (titles : list str) :
  exists unique_titles mapping,
    build_mapping (map JStr titles) = Ok mapping /\
    mapping = combine (map HStr unique_titles)
                      (generate_labels (len unique_titles)) /\
    StronglySorted str_lt unique_titles /\
    (forall t, In t unique_titles <-> In t titles) /\
    (forall k t, nth_error unique_titles k = Some t ->
       dict_get hkey_eqb mapping (HStr t) = Some (label_loop (N.of_nat k) [])) /\
    (forall t, nth_error unique_titles 0 = Some t ->
       dict_get hkey_eqb mapping (HStr t) = Some (lit "A")) /\
    (forall t, nth_error unique_titles 1 = Some t ->
       dict_get hkey_eqb mapping (HStr t) = Some (lit "B")) /\
    (forall k1 k2 label,
       dict_get hkey_eqb mapping k1 = Some label ->
       dict_get hkey_eqb mapping k2 = Some label -> k1 = k2) /\
    (forall k label, dict_get hkey_eqb mapping k = Some label ->
       exists t, k = HStr t /\ In t titles) /\
    (unique_titles = [] -> mapping = []).
Proof.
  pose proof (sort_perm (dedup (map HStr titles))) as Hperm.
  assert (Hstr : forallb is_HStr (dedup (map HStr titles)) = true)
    by apply forallb_dedup, forallb_is_HStr_map.
  assert (Hstr' : forallb is_HStr (sort (dedup (map HStr titles))) = true)
    by (rewrite <- (forallb_perm _ _ _ Hperm); exact Hstr).
  destruct (all_HStr_map _ Hstr') as (us & Hus).
  assert (Hnd : NoDup (map HStr us)).
  { rewrite <- Hus. eapply Permutation_NoDup; [exact Hperm | apply dedup_NoDup]. }
  assert (Hsorted : StronglySorted str_lt us).
  { apply StronglySorted_map_HStr. rewrite <- Hus.
    apply Sorted_strict; [left; exact Hstr' | rewrite Hus; exact Hnd | apply sort_Sorted]. }
  assert (Hin : forall t, In t us <-> In t titles).
  { intros t. transitivity (In (HStr t) (map HStr us)).
    - split; [apply in_map |]. rewrite in_map_iff. intros (x & [= ->] & Hx). exact Hx.
    - rewrite <- Hus.
      transitivity (In (HStr t) (dedup (map HStr titles))).
      + split; apply Permutation_in; [symmetry |]; exact Hperm.
      + rewrite dedup_In. split; [| apply in_map].
        rewrite in_map_iff. intros (x & [= ->] & Hx). exact Hx. }
  assert (Hlen : length (map HStr us) = length (generate_labels (len us))).
  { rewrite length_map, len_generate_labels. reflexivity. }
  assert (Hpos : forall k t, nth_error us k = Some t ->
            dict_get hkey_eqb (combine (map HStr us) (generate_labels (len us))) (HStr t)
            = Some (label_loop (N.of_nat k) [])).
  { intros k t Hk. apply (dict_get_combine_nth _ _ k); [exact Hnd | |].
    - rewrite nth_error_map, Hk. reflexivity.
    - apply generate_labels_nth. unfold len. rewrite Nat2Z.id.
      apply nth_error_Some. congruence. }
  exists us, (combine (map HStr us) (generate_labels (len us))).
  split; [| split; [reflexivity | split; [exact Hsorted | split; [exact Hin |
    split; [exact Hpos | split; [| split; [| split; [| split]]]]]]]].
  - unfold build_mapping. rewrite py_set_str. cbn [bind].
    unfold py_sorted, comparable. rewrite Hstr, orb_true_r. cbn [bind orb].
    rewrite Hus. unfold len at 1. rewrite length_map. fold (len us).
    rewrite dict_of_pairs_NoDup; [reflexivity |].
    rewrite keys_combine; [exact Hnd | exact Hlen].
  - intros t Ht. apply (Hpos 0%nat t Ht).
  - intros t Ht. apply (Hpos 1%nat t Ht).
  - intros k1 k2 label. apply dict_get_combine_injective, generate_labels_NoDup.
  - intros k label Hk. apply dict_get_In, in_combine_l, in_map_iff in Hk.
    destruct Hk as (t & <- & Ht). exists t. split; [reflexivity | apply Hin, Ht].
  - intros ->. reflexivity.
Qed.

(** ** The loops of anonymize *)

Lemma bind_Ok {A B} (c : result A) (k : A -> result B) b :
  bind c k = Ok b -> exists a, c = Ok a /\ k a = Ok b.
Proof. destruct c as [a | e]; cbn; [eauto | discriminate]. Qed.

(** A loop that appends one item per element succeeds when every element
    does, and then lists the items in order. *)
Lemma for_each_append {A B} (f : A -> result B) l : forall acc r,
  for_each l (fun acc x => y <- f x ;; Ok (acc ++ [y])) acc = Ok r <->
  exists ys, r = acc ++ ys /\ Forall2 (fun x y => f x = Ok y) l ys.
Proof.
  induction l as [|x l IH]; intros acc r; cbn.
  - split.
    + intros [= <-]. exists []. rewrite app_nil_r. split; [reflexivity | constructor].
    + intros (ys & -> & H). inversion H. rewrite app_nil_r. reflexivity.
  - destruct (f x) as [y | e] eqn:E; cbn.
    + rewrite IH. split.
      * intros (ys & -> & H). exists (y :: ys). rewrite <- app_assoc.
        split; [reflexivity | constructor; assumption].
      * intros (ys & -> & H). inversion H as [|? y' ? ys' Hy Hys]; subst.
        assert (y' = y) by congruence. subst y'.
        exists ys'. rewrite <- app_assoc. split; [reflexivity | assumption].
    + split; [discriminate |].
      intros (ys & _ & H). inversion H; subst. congruence.
Qed.

Lemma anonymize_room_Ok mapping room new_room :
  anonymize_room mapping room = Ok new_room <->
  exists id entries new_entries,
    room_id room = Ok id /\
    room_entries room = Ok entries /\
    Forall2 (fun e e' => anonymize_entry mapping e = Ok e') entries new_entries /\
    new_room = JObj [(lit "room", id); (lit "entries", JArr new_entries)].
Proof.
  unfold anonymize_room, room_id. split.
  - intros H.
    apply bind_Ok in H. destruct H as (id & Hid & H).
    apply bind_Ok in H. destruct H as (entries & He & H).
    apply bind_Ok in H. destruct H as (new_entries & Hn & H).
    apply for_each_append in Hn. destruct Hn as (ys & -> & Hys).
    injection H as <-. exists id, entries, ys. auto.
  - intros (id & entries & new_entries & Hid & He & Hf & ->).
    rewrite Hid. cbn [bind]. rewrite He. cbn [bind].
    assert (E : for_each entries (fun acc entry =>
                  new_entry <- anonymize_entry mapping entry ;; Ok (acc ++ [new_entry])) []
                = Ok new_entries).
    { apply for_each_append. exists new_entries. auto. }
    rewrite E. reflexivity.
Qed.

Lemma anonymize_Ok rooms out :
  anonymize (JArr rooms) = Ok out <->
  exists titles mapping new_rooms,
    collect_titles rooms = Ok titles /\
    build_mapping titles = Ok mapping /\
    Forall2 (fun room room' => anonymize_room mapping room = Ok room') rooms new_rooms /\
    out = JArr new_rooms.
Proof.
  unfold anonymize. cbn [py_iter bind]. split.
  - intros H.
    apply bind_Ok in H. destruct H as (titles & Ht & H).
    apply bind_Ok in H. destruct H as (mapping & Hm & H).
    apply bind_Ok in H. destruct H as (new_rooms & Hn & H).
    apply for_each_append in Hn. destruct Hn as (ys & -> & Hys).
    injection H as <-. exists titles, mapping, ys. auto.
  - intros (titles & mapping & new_rooms & Ht & Hm & Hf & ->).
    rewrite Ht. cbn [bind]. rewrite Hm. cbn [bind].
    assert (E : for_each rooms (fun acc room =>
                  new_room <- anonymize_room mapping room ;; Ok (acc ++ [new_room])) []
                = Ok new_rooms).
    { apply for_each_append. exists new_rooms. auto. }
    rewrite E. reflexivity.
Qed.

Lemma dict_get_set_same {V} (d : dict str V) k v :
  dict_get str_eqb (dict_set str_eqb d k v) k = Some v.
Proof.
  induction d as [|[k' v'] d IH]; cbn.
  - rewrite str_eqb_refl. reflexivity.
  - destruct (str_eqb k' k) eqn:E; cbn; rewrite E; [reflexivity | exact IH].
Qed.

Lemma dict_get_set_other {V} (d : dict str V) k v k' :
  k' <> k -> dict_get str_eqb (dict_set str_eqb d k v) k' = dict_get str_eqb d k'.
Proof.
  intros Hk. induction d as [|[k0 v0] d IH]; cbn.
  - apply str_eqb_neq in Hk. 
    destruct (str_eqb k k') eqn:E; [| reflexivity].
    apply str_eqb_eq in E. apply str_eqb_neq in Hk. congruence.
  - destruct (str_eqb k0 k) eqn:E; cbn.
    + apply str_eqb_eq in E. subst k0.
      destruct (str_eqb k k') eqn:E'; [| reflexivity].
      apply str_eqb_eq in E'. congruence.
    + rewrite IH. reflexivity.
Qed.

Lemma filter_dict_set {V} (d : dict str V) k v :
  filter (fun kv => negb (str_eqb (fst kv) k)) (dict_set str_eqb d k v) =
  filter (fun kv => negb (str_eqb (fst kv) k)) d.
Proof.
  induction d as [|[k0 v0] d IH]; cbn.
  - rewrite str_eqb_refl. reflexivity.
  - destruct (str_eqb k0 k) eqn:E; cbn; rewrite E; cbn; [reflexivity |].
    rewrite IH. reflexivity.
Qed.

(** What the loop body does to one entry. *)
Lemma anonymize_entry_Ok mapping entry new_entry :
  anonymize_entry mapping entry = Ok new_entry <->
  exists fields title k,
    entry = JObj fields /\
    py_get entry (lit "title") JNull = Ok title /\
    hash_key title = Ok k /\
    new_entry = match dict_get hkey_eqb mapping k with
                | Some label => JObj (dict_set str_eqb fields (lit "title") (JStr label))
                | None => JObj fields
                end.
Proof.
  split.
  - destruct entry as [| | | | items | fields]; cbn [anonymize_entry];
      try (intros H; apply bind_Ok in H; destruct H as (? & _ & H); discriminate).
    intros H.
    apply bind_Ok in H. destruct H as (title & Ht & H).
    apply bind_Ok in H. destruct H as (k & Hk & H).
    exists fields, title, k. repeat split; try assumption.
    destruct (dict_get hkey_eqb mapping k); congruence.
  - intros (fields & title & k & -> & Ht & Hk & ->).
    cbn [anonymize_entry]. rewrite Ht. cbn [bind]. rewrite Hk. cbn [bind].
    destruct (dict_get hkey_eqb mapping k); reflexivity.
Qed.

(** An entry that is not a dict stops the run. *)
Lemma anonymize_entry_not_dict mapping entry :
  (forall fields, entry <> JObj fields) ->
  exists e, anonymize_entry mapping entry = Raise e.
Proof.
  intros Hn. destruct (anonymize_entry mapping entry) as [e' | e] eqn:E; [| eauto].
  apply anonymize_entry_Ok in E. destruct E as (fields & _ & _ & -> & _).
  destruct (Hn fields). reflexivity.
Qed.

(** Every field but [title] is left as it was, whatever the mapping. *)
Lemma anonymize_entry_other_fields mapping entry new_entry :
  anonymize_entry mapping entry = Ok new_entry ->
  (exists fields, entry = JObj fields) /\
  other_fields new_entry = other_fields entry /\
  (forall fields fields' key,
     entry = JObj fields -> new_entry = JObj fields' -> key <> lit "title" ->
     dict_get str_eqb fields' key = dict_get str_eqb fields key).
Proof.
  intros H. apply anonymize_entry_Ok in H.
  destruct H as (fields & title & k & -> & _ & _ & ->).
  split; [eauto |].
  destruct (dict_get hkey_eqb mapping k) as [label |]; cbn [other_fields].
  - split; [rewrite filter_dict_set; reflexivity |].
    intros ? ? key [= <-] [= <-] Hkey. apply dict_get_set_other, Hkey.
  - split; [reflexivity |]. intros ? ? key [= <-] [= <-] _. reflexivity.
Qed.

Lemma collect_entry_Ok titles entry titles' :
  (has_title <- py_contains entry (lit "title") ;;
   if has_title : bool
   then title <- py_getitem entry (lit "title") ;; Ok (titles ++ [title])
   else Ok titles) = Ok titles' ->
  titles' = titles ++ entry_titles entry.
Proof.
  unfold entry_titles.
  destruct entry as [| | | s | items | fields];
    cbn [py_contains py_getitem bind title_of]; try discriminate.
  - destruct (substringb _ _); cbn [bind]; [discriminate |].
    intros [= <-]. rewrite app_nil_r. reflexivity.
  - destruct (existsb _ _); cbn [bind]; [discriminate |].
    intros [= <-]. rewrite app_nil_r. reflexivity.
  - unfold dict_contains.
    destruct (dict_get str_eqb fields (lit "title")) as [v |]; cbn [bind].
    + intros [= <-]. reflexivity.
    + intros [= <-]. rewrite app_nil_r. reflexivity.
Qed.

Lemma collect_entries_Ok entries : forall titles titles',
  for_each entries (fun titles entry =>
    has_title <- py_contains entry (lit "title") ;;
    if has_title : bool
    then title <- py_getitem entry (lit "title") ;; Ok (titles ++ [title])
    else Ok titles) titles = Ok titles' ->
  titles' = titles ++ flat_map entry_titles entries.
Proof.
  induction entries as [|entry entries IH]; intros titles titles'; cbn [for_each].
  - intros [= <-]. cbn. rewrite app_nil_r. reflexivity.
  - intros H. apply bind_Ok in H. destruct H as (mid & Hmid & H).
    apply collect_entry_Ok in Hmid. apply IH in H. subst.
    cbn. rewrite <- app_assoc. reflexivity.
Qed.

Lemma collect_rooms_Ok rooms : forall titles titles',
  for_each rooms (fun titles room =>
    entries <- room_entries room ;;
    for_each entries (fun titles entry =>
      has_title <- py_contains entry (lit "title") ;;
      if has_title : bool
      then title <- py_getitem entry (lit "title") ;; Ok (titles ++ [title])
      else Ok titles) titles) titles = Ok titles' ->
  titles' = titles ++ flat_map room_titles rooms.
Proof.
  induction rooms as [|room rooms IH]; intros titles titles'; cbn [for_each].
  - intros [= <-]. cbn. rewrite app_nil_r. reflexivity.
  - intros H. apply bind_Ok in H. destruct H as (mid & Hmid & H).
    apply bind_Ok in Hmid. destruct Hmid as (entries & He & Hmid).
    apply collect_entries_Ok in Hmid. apply IH in H. subst.
    cbn. unfold room_titles at 2. rewrite He, <- app_assoc. reflexivity.
Qed.

Lemma collect_titles_Ok rooms titles :
  collect_titles rooms = Ok titles -> titles = flat_map room_titles rooms.
Proof. intros H. apply collect_rooms_Ok in H. exact H. Qed.

(** The collected titles are the titles of the entries of the document. *)
Lemma collect_titles_In rooms titles t :
  collect_titles rooms = Ok titles ->
  (In t titles <->
   exists i j e, entry_at rooms i j = Some e /\ title_of e = Some t).
Proof.
  intros H. apply collect_titles_Ok in H. subst.
  rewrite in_flat_map. unfold room_titles, entry_at, entry_titles. split.
  - intros (room & Hroom & Ht).
    apply In_nth_error in Hroom. destruct Hroom as (i & Hi).
    destruct (room_entries room) as [entries | ?] eqn:He; [| destruct Ht].
    apply in_flat_map in Ht. destruct Ht as (e & Hin & Ht).
    apply In_nth_error in Hin. destruct Hin as (j & Hj).
    exists i, j, e. rewrite Hi, He. split; [exact Hj |].
    destruct (title_of e) as [t' |]; [| destruct Ht].
    destruct Ht as [-> | []]. reflexivity.
  - intros (i & j & e & He & Ht).
    destruct (nth_error rooms i) as [room |] eqn:Hi; [| discriminate].
    exists room. split; [eapply nth_error_In, Hi |].
    destruct (room_entries room) as [entries | ?]; [| discriminate].
    apply in_flat_map. exists e. split; [eapply nth_error_In, He |].
    rewrite Ht. left. reflexivity.
Qed.

(** The mapping of any run that succeeds: distinct keys, those of the
    titles, zipped with the labels. *)
Lemma build_mapping_Ok titles mapping :
  build_mapping titles = Ok mapping ->
  exists ks,
    mapping = combine ks (generate_labels (len ks)) /\
    NoDup ks /\
    (forall k, In k ks <-> exists t, In t titles /\ hash_key t = Ok k) /\
    (forall t, In t titles -> exists k, hash_key t = Ok k).
Proof.
  unfold build_mapping, py_set, set_of, py_sorted. intros H.
  apply bind_Ok in H. destruct H as (title_set & Hs & H).
  apply bind_Ok in Hs. destruct Hs as (ks0 & Hks0 & [= <-]).
  apply for_each_append in Hks0. destruct Hks0 as (ys & -> & Hys). cbn [app] in *.
  destruct (comparable (dedup ys)); cbn [bind] in H; [| discriminate].
  injection H as <-.
  pose proof (sort_perm (dedup ys)) as Hperm.
  assert (Hnd : NoDup (sort (dedup ys)))
    by (eapply Permutation_NoDup; [exact Hperm | apply dedup_NoDup]).
  exists (sort (dedup ys)). split; [| split; [exact Hnd | split]].
  - apply dict_of_pairs_NoDup. rewrite keys_combine; [exact Hnd |].
    rewrite len_generate_labels. reflexivity.
  - intros k. transitivity (In k (dedup ys));
      [split; apply Permutation_in; [symmetry |]; exact Hperm |].
    rewrite dedup_In.
    clear - Hys. induction Hys as [|t k' titles ys Hk Hys IH]; cbn.
    + split; [tauto | intros (? & [] & _)].
    + rewrite IH. split.
      * intros [<- | (t' & Ht' & Hk')]; eauto.
      * intros (t' & [<- | Ht'] & Hk'); [left; congruence | right; eauto].
  - clear - Hys. induction Hys as [|t k' titles ys Hk Hys IH]; cbn; [tauto |].
    intros t' [<- | Ht']; eauto.
Qed.

Lemma mapping_lookup ks k :
  In k ks -> NoDup ks ->
  exists label, dict_get hkey_eqb (combine ks (generate_labels (len ks))) k = Some label.
Proof.
  intros Hin Hnd. apply In_nth_error in Hin. destruct Hin as (i & Hi).
  exists (label_loop (N.of_nat i) []).
  apply (dict_get_combine_nth _ _ i); [exact Hnd | exact Hi |].
  apply generate_labels_nth. unfold len. rewrite Nat2Z.id.
  apply nth_error_Some. congruence.
Qed.

Lemma Forall2_nth_error {A B} (R : A -> B -> Prop) l l' :
  Forall2 R l l' ->
  forall i x, nth_error l i = Some x ->
  exists y, nth_error l' i = Some y /\ R x y.
Proof.
  induction 1 as [|a b l l' Hab Hl IH]; intros [|i] x; cbn; try discriminate.
  - intros [= <-]. eauto.
  - apply IH.
Qed.

Lemma Forall2_length_eq {A B} (R : A -> B -> Prop) l l' :
  Forall2 R l l' -> length l = length l'.
Proof. induction 1; cbn; congruence. Qed.

Lemma room_entries_new id entries :
  room_entries (JObj [(lit "room", id); (lit "entries", JArr entries)]) = Ok entries.
Proof. reflexivity. Qed.

(** The output entry at a position comes from the input entry there. *)
Lemma anonymize_entry_at rooms new_rooms mapping i j e :
  Forall2 (fun room room' => anonymize_room mapping room = Ok room') rooms new_rooms ->
  entry_at rooms i j = Some e ->
  exists e', entry_at new_rooms i j = Some e' /\ anonymize_entry mapping e = Ok e'.
Proof.
  intros Hf He. unfold entry_at in *.
  destruct (nth_error rooms i) as [room |] eqn:Hi; [| discriminate].
  destruct (Forall2_nth_error _ _ _ Hf _ _ Hi) as (room' & Hi' & Hroom).
  apply anonymize_room_Ok in Hroom.
  destruct Hroom as (id & entries & new_entries & _ & Hent & Hfe & ->).
  rewrite Hent in He. rewrite Hi', room_entries_new.
  destruct (Forall2_nth_error _ _ _ Hfe _ _ He) as (e' & Hj' & He').
  eauto.
Qed.

(** ** anonymize: labels *)

Example anonymize_scenario : anonymize (JArr scenario) = Ok (JArr scenario_anonymized).
Proof. vm_compute. reflexivity. Qed.

Lemma title_of_get fields t :
  title_of (JObj fields) = Some t -> py_get (JObj fields) (lit "title") JNull = Ok t.
Proof. cbn [title_of py_get]. intros ->. reflexivity. Qed.

(** C1. In a run of [anonymize], every title of the input has one label
    in the mapping, and every entry carrying that title carries that label in
    the output; so any two entries (in any rooms) with the identical title
    string receive the identical label string. *)
Theorem anonymize_same_title_same_label (rooms : list json) (out : json)
  (Hrun : anonymize (JArr rooms) = Ok out) :
  exists new_rooms mapping,
    out = JArr new_rooms /\
    (forall i j e t,
       entry_at rooms i j = Some e -> title_of e = Some t ->
       exists k label e',
         hash_key t = Ok k /\
         dict_get hkey_eqb mapping k = Some label /\
         entry_at new_rooms i j = Some e' /\
         title_of e' = Some (JStr label)) /\
    (forall i1 j1 e1 i2 j2 e2 s,
       entry_at rooms i1 j1 = Some e1 -> title_of e1 = Some (JStr s) ->
       entry_at rooms i2 j2 = Some e2 -> title_of e2 = Some (JStr s) ->
       exists label e1' e2',
         dict_get hkey_eqb mapping (HStr s) = Some label /\
         entry_at new_rooms i1 j1 = Some e1' /\ title_of e1' = Some (JStr label) /\
         entry_at new_rooms i2 j2 = Some e2' /\ title_of e2' = Some (JStr label)).
Proof.
  apply anonymize_Ok in Hrun.
  destruct Hrun as (titles & mapping & new_rooms & Ht & Hm & Hf & ->).
  assert (Hone : forall i j e t,
            entry_at rooms i j = Some e -> title_of e = Some t ->
            exists k label e',
              hash_key t = Ok k /\
              dict_get hkey_eqb mapping k = Some label /\
              entry_at new_rooms i j = Some e' /\
              title_of e' = Some (JStr label)).
  { intros i j e t He Hs.
    destruct (build_mapping_Ok _ _ Hm) as (ks & Hmap & Hnd & Hks & Hhash).
    assert (Hin : In t titles)
      by (apply (collect_titles_In rooms titles t Ht); eauto).
    destruct (Hhash t Hin) as (k & Hk).
    assert (Hink : In k ks) by (apply Hks; eauto).
    destruct (mapping_lookup ks k Hink Hnd) as (label & Hlabel).
    rewrite <- Hmap in Hlabel.
    destruct (anonymize_entry_at _ _ _ _ _ _ Hf He) as (e' & He' & Hanon).
    exists k, label, e'.
    split; [exact Hk | split; [exact Hlabel | split; [exact He' |]]].
    apply anonymize_entry_Ok in Hanon.
    destruct Hanon as (fields & title & k' & -> & Htitle & Hk' & ->).
    rewrite (title_of_get _ _ Hs) in Htitle. injection Htitle as <-.
    assert (k' = k) by congruence. subst k'. rewrite Hlabel.
    cbn [title_of]. apply dict_get_set_same. }
  exists new_rooms, mapping. split; [reflexivity | split; [exact Hone |]].
  intros i1 j1 e1 i2 j2 e2 s H1 Hs1 H2 Hs2.
  destruct (Hone _ _ _ _ H1 Hs1) as (k1 & label & e1' & Hk1 & Hl1 & He1 & Ht1).
  destruct (Hone _ _ _ _ H2 Hs2) as (k2 & label2 & e2' & Hk2 & Hl2 & He2 & Ht2).
  cbn in Hk1, Hk2. injection Hk1 as <-. injection Hk2 as <-.
  assert (label2 = label) by congruence. subst label2.
  exists label, e1', e2'. auto.
Qed.

Lemma anonymize_same_title_same_label_witness :
  exists new_rooms mapping,
    JArr scenario_anonymized = JArr new_rooms /\
    (forall i j e t,
       entry_at scenario i j = Some e -> title_of e = Some t ->
       exists k label e',
         hash_key t = Ok k /\
         dict_get hkey_eqb mapping k = Some label /\
         entry_at new_rooms i j = Some e' /\
         title_of e' = Some (JStr label)) /\
    (forall i1 j1 e1 i2 j2 e2 s,
       entry_at scenario i1 j1 = Some e1 -> title_of e1 = Some (JStr s) ->
       entry_at scenario i2 j2 = Some e2 -> title_of e2 = Some (JStr s) ->
       exists label e1' e2',
         dict_get hkey_eqb mapping (HStr s) = Some label /\
         entry_at new_rooms i1 j1 = Some e1' /\ title_of e1' = Some (JStr label) /\
         entry_at new_rooms i2 j2 = Some e2' /\ title_of e2' = Some (JStr label)).
Proof.
  apply (anonymize_same_title_same_label scenario (JArr scenario_anonymized)).
  vm_compute. reflexivity.
Defined.

(** On the documents of the data model the run returns: the theorems about
    a run that returns are about every such document. *)
Lemma collect_entries_total entries : forall titles,
  Forall well_formed_entry entries ->
  for_each entries (fun titles entry =>
    has_title <- py_contains entry (lit "title") ;;
    if has_title : bool
    then title <- py_getitem entry (lit "title") ;; Ok (titles ++ [title])
    else Ok titles) titles = Ok (titles ++ flat_map entry_titles entries).
Proof.
  induction entries as [|entry entries IH]; intros titles Hwf; cbn [for_each flat_map].
  - rewrite app_nil_r. reflexivity.
  - inversion Hwf as [|? ? (fields & -> & Ht) Hwf']; subst.
    cbn [py_contains py_getitem bind]. unfold dict_contains, entry_titles.
    cbn [title_of] in *.
    destruct (dict_get str_eqb fields (lit "title")) as [v |]; cbn [bind].
    + rewrite (IH _ Hwf'), <- app_assoc. reflexivity.
    + rewrite (IH _ Hwf'). reflexivity.
Qed.

Lemma collect_titles_total rooms :
  Forall well_formed_room rooms ->
  collect_titles rooms = Ok (flat_map room_titles rooms).
Proof.
  unfold collect_titles. intros Hwf.
  enough (G : forall titles,
            for_each rooms (fun titles room =>
              entries <- room_entries room ;;
              for_each entries (fun titles entry =>
                has_title <- py_contains entry (lit "title") ;;
                if has_title : bool
                then title <- py_getitem entry (lit "title") ;; Ok (titles ++ [title])
                else Ok titles) titles) titles
            = Ok (titles ++ flat_map room_titles rooms)) by apply (G []).
  induction Hwf as [|room rooms (_ & entries & He & Hentries) _ IH];
    intros titles; cbn [for_each flat_map].
  - rewrite app_nil_r. reflexivity.
  - rewrite He. cbn [bind]. rewrite (collect_entries_total _ _ Hentries). cbn [bind].
    rewrite IH. unfold room_titles at 2. rewrite He, <- app_assoc. reflexivity.
Qed.

Lemma well_formed_titles rooms :
  Forall well_formed_room rooms ->
  exists strs, flat_map room_titles rooms = map JStr strs.
Proof.
  induction 1 as [|room rooms (_ & entries & He & Hentries) _ (strs & IH)];
    cbn [flat_map].
  - exists []. reflexivity.
  - unfold room_titles at 1. rewrite He, IH.
    assert (G : exists ss, flat_map entry_titles entries = map JStr ss).
    { clear - Hentries.
      induction Hentries as [|e es (fields & -> & Ht) _ (ss & IHs)]; cbn [flat_map].
      - exists []. reflexivity.
      - unfold entry_titles at 1. rewrite IHs.
        destruct Ht as [-> | (s & ->)]; [exists ss | exists (s :: ss)]; reflexivity. }
    destruct G as (ss & ->). exists (ss ++ strs). rewrite map_app. reflexivity.
Qed.

Lemma build_mapping_str_total (strs : list str) :
  exists mapping, build_mapping (map JStr strs) = Ok mapping.
Proof.
  unfold build_mapping. rewrite py_set_str. cbn [bind].
  unfold py_sorted, comparable.
  rewrite (forallb_dedup _ _ (forallb_is_HStr_map strs)), orb_true_r.
  cbn [bind orb]. eauto.
Qed.

Lemma anonymize_entry_total mapping entry :
  well_formed_entry entry -> exists entry', anonymize_entry mapping entry = Ok entry'.
Proof.
  intros (fields & -> & Ht). cbn [anonymize_entry py_get title_of] in *.
  destruct Ht as [-> | (s & ->)]; cbn [bind hash_key];
    match goal with |- context [dict_get hkey_eqb mapping ?k] =>
      destruct (dict_get hkey_eqb mapping k) end; eauto.
Qed.

Lemma Forall_total {A B} (P : A -> Prop) (f : A -> result B) l :
  (forall x, P x -> exists y, f x = Ok y) -> Forall P l ->
  exists ys, Forall2 (fun x y => f x = Ok y) l ys.
Proof.
  intros Hf. induction 1 as [|x l Hx _ (ys & IH)].
  - exists []. constructor.
  - destruct (Hf x Hx) as (y & Hy). exists (y :: ys). constructor; assumption.
Qed.

Lemma anonymize_room_total mapping room :
  well_formed_room room -> exists room', anonymize_room mapping room = Ok room'.
Proof.
  intros ((fields & ->) & entries & He & Hentries).
  destruct (Forall_total _ (anonymize_entry mapping) entries
              (anonymize_entry_total mapping) Hentries) as (new_entries & Hnew).
  eexists. apply anonymize_room_Ok.
  exists (match dict_get str_eqb fields (lit "room") with Some v => v | None => JNull end),
    entries, new_entries.
  split; [| split; [exact He | split; [exact Hnew | reflexivity]]].
  unfold room_id. cbn [py_get].
  destruct (dict_get str_eqb fields (lit "room")); reflexivity.
Qed.

Lemma anonymize_total rooms :
  Forall well_formed_room rooms -> exists out, anonymize (JArr rooms) = Ok out.
Proof.
  intros Hwf.
  destruct (well_formed_titles rooms Hwf) as (strs & Hstrs).
  destruct (build_mapping_str_total strs) as (mapping & Hm).
  destruct (Forall_total _ (anonymize_room mapping) rooms
              (anonymize_room_total mapping) Hwf) as (new_rooms & Hnew).
  exists (JArr new_rooms). apply anonymize_Ok.
  exists (flat_map room_titles rooms), mapping, new_rooms.
  split; [apply collect_titles_total, Hwf |].
  split; [rewrite Hstrs; exact Hm | split; [exact Hnew | reflexivity]].
Qed.

(** ** anonymize: structure *)

(** C4. The output has one room per input room, in the same order (room [i]
    carries the [room] value of input room [i]), and in each room one entry
    per input entry, in the same order (entry [j] carries the other fields
    of input entry [j]); the counts are equal. *)
Theorem anonymize_preserves_counts_and_order (rooms : list json) (out : json)
  (Hrun : anonymize (JArr rooms) = Ok out) :
  exists new_rooms,
    out = JArr new_rooms /\
    length new_rooms = length rooms /\
    forall i room, nth_error rooms i = Some room ->
      exists room' entries entries',
        nth_error new_rooms i = Some room' /\
        room_id room' = room_id room /\
        room_entries room = Ok entries /\
        room_entries room' = Ok entries' /\
        length entries' = length entries /\
        forall j e, nth_error entries j = Some e ->
          exists e', nth_error entries' j = Some e' /\
                     other_fields e' = other_fields e.
Proof.
  apply anonymize_Ok in Hrun.
  destruct Hrun as (titles & mapping & new_rooms & Ht & Hm & Hf & ->).
  exists new_rooms. split; [reflexivity | split].
  - symmetry. eapply Forall2_length_eq, Hf.
  - intros i room Hi.
    destruct (Forall2_nth_error _ _ _ Hf _ _ Hi) as (room' & Hi' & Hroom).
    apply anonymize_room_Ok in Hroom.
    destruct Hroom as (id & entries & new_entries & Hid & Hent & Hfe & ->).
    exists (JObj [(lit "room", id); (lit "entries", JArr new_entries)]), entries, new_entries.
    split; [exact Hi' | split; [rewrite Hid; reflexivity | split; [exact Hent |]]].
    split; [reflexivity | split].
    + symmetry. eapply Forall2_length_eq, Hfe.
    + intros j e Hj.
      destruct (Forall2_nth_error _ _ _ Hfe _ _ Hj) as (e' & Hj' & He').
      exists e'. split; [exact Hj' |].
      apply (anonymize_entry_other_fields _ _ _ He').
Qed.

Lemma anonymize_preserves_counts_and_order_witness :
  exists new_rooms,
    JArr scenario_anonymized = JArr new_rooms /\
    length new_rooms = length scenario /\
    forall i room, nth_error scenario i = Some room ->
      exists room' entries entries',
        nth_error new_rooms i = Some room' /\
        room_id room' = room_id room /\
        room_entries room = Ok entries /\
        room_entries room' = Ok entries' /\
        length entries' = length entries /\
        forall j e, nth_error entries j = Some e ->
          exists e', nth_error entries' j = Some e' /\
                     other_fields e' = other_fields e.
Proof.
  apply (anonymize_preserves_counts_and_order scenario (JArr scenario_anonymized)).
  vm_compute. reflexivity.
Defined.

(** C10. Every output room is a dict with exactly the keys [room] and
    [entries], in that order; [room] holds the input room's value, and
    [None] when the input room has no such key. *)
Theorem anonymize_room_has_two_keys (rooms : list json) (out : json)
  (Hrun : anonymize (JArr rooms) = Ok out) :
  exists new_rooms,
    out = JArr new_rooms /\
    length new_rooms = length rooms /\
    forall i room, nth_error rooms i = Some room ->
      exists fields fields',
        room = JObj fields /\
        nth_error new_rooms i = Some (JObj fields') /\
        keys fields' = [lit "room"; lit "entries"] /\
        dict_get str_eqb fields' (lit "room") =
          Some match dict_get str_eqb fields (lit "room") with
               | Some id => id
               | None => JNull
               end /\
        (dict_get str_eqb fields (lit "room") = None ->
         dict_get str_eqb fields' (lit "room") = Some JNull).
Proof.
  apply anonymize_Ok in Hrun.
  destruct Hrun as (titles & mapping & new_rooms & Ht & Hm & Hf & ->).
  exists new_rooms. split; [reflexivity | split].
  - symmetry. eapply Forall2_length_eq, Hf.
  - intros i room Hi.
    destruct (Forall2_nth_error _ _ _ Hf _ _ Hi) as (room' & Hi' & Hroom).
    apply anonymize_room_Ok in Hroom.
    destruct Hroom as (id & entries & new_entries & Hid & Hent & Hfe & ->).
    destruct room as [| | | | |fields]; try discriminate.
    exists fields, [(lit "room", id); (lit "entries", JArr new_entries)].
    split; [reflexivity | split; [exact Hi' | split; [reflexivity |]]].
    unfold room_id in Hid. cbn [py_get] in Hid.
    destruct (dict_get str_eqb fields (lit "room")) as [v |];
      injection Hid as <-; split; try reflexivity; discriminate.
Qed.

Lemma anonymize_room_has_two_keys_witness :
  exists new_rooms,
    JArr [JObj [(lit "room", JNull);
                (lit "entries", JArr [JObj [(lit "title", JStr (lit "A"))]])]]
      = JArr new_rooms /\
    length new_rooms = length room_without_id /\
    forall i room, nth_error room_without_id i = Some room ->
      exists fields fields',
        room = JObj fields /\
        nth_error new_rooms i = Some (JObj fields') /\
        keys fields' = [lit "room"; lit "entries"] /\
        dict_get str_eqb fields' (lit "room") =
          Some match dict_get str_eqb fields (lit "room") with
               | Some id => id
               | None => JNull
               end /\
        (dict_get str_eqb fields (lit "room") = None ->
         dict_get str_eqb fields' (lit "room") = Some JNull).
Proof.
  apply (anonymize_room_has_two_keys room_without_id).
  vm_compute. reflexivity.
Defined.

(** ** anonymize: fields passed through *)




(** ** anonymize: the title key *)

(** C5. Where one entry has [title: null], the mapping has the key [None];
    [entry.get("title")] is [None] too for an entry without the key, so the
    second entry, which has no [title], leaves with [title: "A"] added. *)
Theorem anonymize_adds_title_after_null_title :
  anonymize (JArr null_title_document) =
  Ok (JArr [JObj [(lit "room", JNull);
                  (lit "entries",
                   JArr [JObj [(lit "title", JStr (lit "A"))];
                         JObj [(lit "note", JStr (lit "x"));
                               (lit "title", JStr (lit "A"))]])]]).
Proof. vm_compute. reflexivity. Qed.

Lemma hash_key_HNone t : hash_key t = Ok HNone -> t = JNull.
Proof. destruct t as [| [] | | | |]; cbn; congruence. Qed.

(** X4. Apart from that case the entries without a title pass unchanged: when
    no entry has [title: null], an entry without the key is copied as it
    is, and no [title] is added. *)
Lemma anonymize_keeps_missing_title rooms new_rooms :
  anonymize (JArr rooms) = Ok (JArr new_rooms) ->
  (forall i j e, entry_at rooms i j = Some e -> title_of e <> Some JNull) ->
  forall i j fields,
    entry_at rooms i j = Some (JObj fields) ->
    title_of (JObj fields) = None ->
    entry_at new_rooms i j = Some (JObj fields).
Proof.
  intros Hrun Hnull i j fields He Hnone.
  apply anonymize_Ok in Hrun.
  destruct Hrun as (titles & mapping & new_rooms' & Ht & Hm & Hf & [= <-]).
  destruct (anonymize_entry_at _ _ _ _ _ _ Hf He) as (e' & He' & Hanon).
  rewrite He'. f_equal.
  apply anonymize_entry_Ok in Hanon.
  destruct Hanon as (fields0 & title & k & [= <-] & Htitle & Hk & ->).
  cbn [py_get] in Htitle. cbn [title_of] in Hnone. rewrite Hnone in Htitle.
  injection Htitle as <-. cbn in Hk. injection Hk as <-.
  destruct (build_mapping_Ok _ _ Hm) as (ks & Hmap & Hnd & Hks & _).
  assert (Hget : dict_get hkey_eqb mapping HNone = None).
  { apply dict_get_None. rewrite Hmap, keys_combine
      by (rewrite len_generate_labels; reflexivity).
    intros Hin. apply Hks in Hin. destruct Hin as (t & Hin & Hh).
    apply hash_key_HNone in Hh. subst t.
    apply (collect_titles_In rooms titles JNull Ht) in Hin.
    destruct Hin as (i' & j' & e0 & He0 & Ht0).
    apply (Hnull _ _ _ He0 Ht0). }
  rewrite Hget. reflexivity.
Qed.

(** ** anonymize: lenient and strict shapes *)

Lemma no_entries_room_entries room : no_entries room -> room_entries room = Ok [].
Proof.
  intros (fields & -> & [H | H]); unfold room_entries; cbn [py_get];
    rewrite H; reflexivity.
Qed.

Lemma no_entries_anonymize_room mapping room :
  no_entries room -> anonymize_room mapping room = Ok (empty_room room).
Proof.
  intros H. apply anonymize_room_Ok.
  pose proof (no_entries_room_entries _ H) as He.
  destruct H as (fields & -> & _).
  unfold empty_room, room_id. cbn [py_get].
  destruct (dict_get str_eqb fields (lit "room")) as [id |].
  - exists id, [], []. repeat split; [exact He | constructor].
  - exists JNull, [], []. repeat split; [exact He | constructor].
Qed.

Lemma collect_titles_no_entries rooms :
  Forall no_entries rooms -> collect_titles rooms = Ok [].
Proof.
  unfold collect_titles. intros Hall. generalize (@nil json) as acc.
  induction Hall as [|room rooms Hroom _ IH]; intros acc; cbn [for_each].
  - reflexivity.
  - rewrite (no_entries_room_entries _ Hroom). cbn [bind for_each]. apply IH.
Qed.

(** C8, as stated, fails: an entry that is not a dict raises. *)
Lemma anonymize_rejects_non_dict_entry :
  ~ (forall rooms i j e,
       entry_at rooms i j = Some e -> (forall fields, e <> JObj fields) ->
       exists out, anonymize (JArr rooms) = Ok out).
Proof.
  intros H.
  destruct (H [JObj [(lit "entries", JArr [JInt 5])]] 0%nat 0%nat (JInt 5) eq_refl)
    as (out & Hout).
  - intros fields. discriminate.
  - vm_compute in Hout. discriminate Hout.
Qed.

(** C8, amended. A room without an [entries] field, like a room with an
    empty list, gives an output room with [entries: []]; a document of such
    rooms raises nothing.  An entry that is not a dict is not tolerated: the
    run raises an exception. *)
Theorem anonymize_lenient_rooms_strict_entries (rooms : list json) :
  (Forall no_entries rooms ->
   anonymize (JArr rooms) = Ok (JArr (map empty_room rooms))) /\
  (forall out, anonymize (JArr rooms) = Ok out ->
     exists new_rooms,
       out = JArr new_rooms /\
       forall i room, nth_error rooms i = Some room -> no_entries room ->
         nth_error new_rooms i = Some (empty_room room)) /\
  (forall i j e,
     entry_at rooms i j = Some e -> (forall fields, e <> JObj fields) ->
     exists err, anonymize (JArr rooms) = Raise err).
Proof.
  split; [| split].
  - intros Hall. apply anonymize_Ok.
    exists [], [], (map empty_room rooms).
    split; [apply collect_titles_no_entries, Hall |].
    split; [reflexivity | split; [| reflexivity]].
    induction Hall as [|room rooms Hroom _ IH]; cbn [map]; constructor.
    + apply no_entries_anonymize_room, Hroom.
    + exact IH.
  - intros out Hrun. apply anonymize_Ok in Hrun.
    destruct Hrun as (titles & mapping & new_rooms & Ht & Hm & Hf & ->).
    exists new_rooms. split; [reflexivity |].
    intros i room Hi Hroom.
    destruct (Forall2_nth_error _ _ _ Hf _ _ Hi) as (room' & Hi' & Hanon).
    rewrite (no_entries_anonymize_room mapping _ Hroom) in Hanon.
    congruence.
  - intros i j e He Hshape.
    destruct (anonymize (JArr rooms)) as [out | err] eqn:Hrun; [| eauto].
    apply anonymize_Ok in Hrun.
    destruct Hrun as (titles & mapping & new_rooms & Ht & Hm & Hf & ->).
    destruct (anonymize_entry_at _ _ _ _ _ _ Hf He) as (e' & _ & Hanon).
    destruct (anonymize_entry_not_dict mapping e Hshape) as (err & Herr).
    congruence.
Qed.

Lemma rooms_without_entries_no_entries : Forall no_entries rooms_without_entries.
Proof.
  repeat constructor.
  - eexists. split; [reflexivity | left; reflexivity].
  - eexists. split; [reflexivity | right; reflexivity].
Defined.

Lemma anonymize_lenient_rooms_strict_entries_witness :
  anonymize (JArr rooms_without_entries) =
    Ok (JArr [JObj [(lit "room", JStr (lit "101")); (lit "entries", JArr [])];
              JObj [(lit "room", JStr (lit "102")); (lit "entries", JArr [])]]) /\
  exists err, anonymize (JArr [JObj [(lit "entries", JArr [JArr []])]]) = Raise err.
Proof.
  split.
  - apply (proj1 (anonymize_lenient_rooms_strict_entries rooms_without_entries)).
    apply rooms_without_entries_no_entries.
  - apply (proj2 (proj2 (anonymize_lenient_rooms_strict_entries
                           [JObj [(lit "entries", JArr [JArr []])]]))
             0%nat 0%nat (JArr [])).
    + reflexivity.
    + intros fields. discriminate.
Defined.

(** ** main: a missing input file *)

Section ScriptProperties.
Variable json_load : str -> result json.
Variable json_dump : json -> str.
Variable Path : str -> str.

Lemma load_json_missing w path :
  files w path = None ->
  load_json json_load w path = Raise (SystemExit (missing_input_message ++ path)).
Proof. intros H. unfold load_json, open_read. rewrite H. reflexivity. Qed.

Lemma load_json_present w path text :
  files w path = Some text -> json_load text <> Raise FileNotFoundError ->
  load_json json_load w path = json_load text.
Proof.
  intros H Hne. unfold load_json, open_read. rewrite H. cbn [bind].
  destruct (json_load text) as [v | []]; try reflexivity. congruence.
Qed.

(** C7. When the input path does not exist, [main] ends with
    [SystemExit] carrying the message that names the path, the process
    status is not zero, and the files are as they were: no output file is
    created or written, and nothing is printed. *)
Theorem main_missing_input_is_fatal (argv : list str) (w : world)
  (Hmissing : files w (input_path Path argv) = None) :
  main json_load json_dump Path argv w =
    (w, Raise (SystemExit (missing_input_message ++ input_path Path argv))) /\
  fatal_message (snd (main json_load json_dump Path argv w)) =
    Some (missing_input_message ++ input_path Path argv) /\
  exit_status (snd (main json_load json_dump Path argv w)) <> 0%Z /\
  files (fst (main json_load json_dump Path argv w)) = files w /\
  files (fst (main json_load json_dump Path argv w)) (output_path Path argv)
    = files w (output_path Path argv).
Proof.
  assert (E : main json_load json_dump Path argv w =
              (w, Raise (SystemExit (missing_input_message ++ input_path Path argv)))).
  { unfold main. rewrite (load_json_missing _ _ Hmissing). reflexivity. }
  rewrite E. cbn. repeat split. discriminate.
Qed.
End ScriptProperties.

Definition empty_world : world := {| files := fun _ => None; stdout := [] |}.

Lemma main_missing_input_is_fatal_witness :
  main (fun _ => Raise ValueError) (fun _ => []) (fun p => p)
       [lit "anonymize_reserves.py"; lit "in.json"; lit "out.json"] empty_world
  = (empty_world, Raise (SystemExit (missing_input_message ++ lit "in.json"))).
Proof.
  apply (main_missing_input_is_fatal (fun _ => Raise ValueError) (fun _ => [])
           (fun p => p) [lit "anonymize_reserves.py"; lit "in.json"; lit "out.json"]
           empty_world).
  reflexivity.
Defined.

(** ** anonymize on the heap: what it writes *)

Module HeapProperties.
Import Heap.
#[local] Open Scope heap_scope.
#[local] Open Scope nat_scope.

Lemma update_length h : forall l o, length (update h l o) = length h.
Proof.
  induction h as [|o' h IH]; intros [|l] o; cbn; try reflexivity.
  rewrite IH. reflexivity.
Qed.

Lemma update_app_r h t : forall l o,
  length h <= l -> update (h ++ t) l o = h ++ update t (l - length h) o.
Proof.
  induction h as [|o' h IH]; intros l o Hl; cbn.
  - rewrite Nat.sub_0_r. reflexivity.
  - destruct l as [|l]; cbn in Hl; [lia |].
    cbn. rewrite IH by lia. reflexivity.
Qed.

Lemma nth_error_update_other h : forall l l' o,
  l' <> l -> nth_error (update h l o) l' = nth_error h l'.
Proof.
  induction h as [|o' h IH]; intros [|l] [|l'] o Hne; cbn; try reflexivity.
  - contradiction.
  - apply IH. congruence.
Qed.

Lemma nth_error_alloc (h : heap) o l x :
  nth_error h l = Some x -> nth_error (h ++ [o]) l = Some x.
Proof.
  intros H. rewrite nth_error_app1; [exact H |].
  apply nth_error_Some. congruence.
Qed.

Lemma view_list h v l items :
  view h v = SList l items -> v = VRef l /\ nth_error h l = Some (OList items).
Proof.
  destruct v as [| | | |l0]; cbn; try discriminate.
  destruct (nth_error h l0) as [[|]|] eqn:E; try discriminate.
  intros [= <- <-]. auto.
Qed.

Lemma view_dict h v l fields :
  view h v = SDict l fields -> v = VRef l /\ nth_error h l = Some (ODict fields).
Proof.
  destruct v as [| | | |l0]; cbn; try discriminate.
  destruct (nth_error h l0) as [[|]|] eqn:E; try discriminate.
  intros [= <- <-]. auto.
Qed.

Section Frame.
(** The heap before the call. *)
Variable h0 : heap.

(** A later heap in which every object of [h0] is as it was. *)
Definition keeps (h : heap) : Prop := exists new, h = h0 ++ new.

Lemma keeps_refl : keeps h0.
Proof. exists []. rewrite app_nil_r. reflexivity. Qed.

Lemma keeps_length h : keeps h -> length h0 <= length h.
Proof. intros (new & ->). rewrite length_app. lia. Qed.

Lemma keeps_alloc h o : keeps h -> keeps (h ++ [o]).
Proof. intros (new & ->). exists (new ++ [o]). rewrite app_assoc. reflexivity. Qed.

Lemma keeps_update h l o : keeps h -> length h0 <= l -> keeps (update h l o).
Proof.
  intros (new & ->) Hl. exists (update new (l - length h0) o).
  apply update_app_r, Hl.
Qed.

Lemma keeps_nth_error h l o :
  keeps h -> nth_error h0 l = Some o -> nth_error h l = Some o.
Proof.
  intros (new & ->) H. rewrite nth_error_app1; [exact H |].
  apply nth_error_Some. congruence.
Qed.

(** A statement run from a heap satisfying [P]: when it returns [a], the
    heap satisfies [Q a]; when it raises, the heap still keeps [h0]. *)
Definition triple {A} (P : heap -> Prop) (m : M A) (Q : A -> heap -> Prop) : Prop :=
  forall h, P h ->
    match m h with
    | (h', Ok a) => Q a h'
    | (h', Raise _) => keeps h'
    end.

(** An invariant of the heap that implies [keeps], survives allocation and
    survives writes to the new locations outside a set [X]. *)
Record invariant (Inv : heap -> Prop) (X : loc -> Prop) : Prop := {
  inv_keeps : forall h, Inv h -> keeps h;
  inv_alloc : forall h o, Inv h -> Inv (h ++ [o]);
  inv_update : forall h l o, Inv h -> length h0 <= l -> ~ X l -> Inv (update h l o);
  inv_next : forall h, Inv h -> ~ X (length h)
}.

Arguments inv_keeps {Inv X} _.
Arguments inv_alloc {Inv X} _.
Arguments inv_update {Inv X} _.
Arguments inv_next {Inv X} _.

Section Invariant.
Variables (Inv : heap -> Prop) (X : loc -> Prop).
Hypothesis HI : invariant Inv X.

(** A value the function may write through: no reference into [h0] or [X]. *)
Definition fresh (v : val) : Prop :=
  match v with
  | VRef l => length h0 <= l /\ ~ X l
  | _ => True
  end.

Definition ok {A} (m : M A) (Q : A -> Prop) : Prop :=
  triple Inv m (fun a h => Inv h /\ Q a).

Lemma ok_ret {A} (a : A) (Q : A -> Prop) : Q a -> ok (ret a) Q.
Proof. intros HQ h Hh. cbn. auto. Qed.

Lemma ok_raise {A} e (Q : A -> Prop) : ok (raise e) Q.
Proof. intros h Hh. cbn. apply (inv_keeps HI), Hh. Qed.

Lemma ok_bind {A B} (m : M A) (k : A -> M B) (Q : A -> Prop) (R : B -> Prop) :
  ok m Q -> (forall a, Q a -> ok (k a) R) -> ok (bind m k) R.
Proof.
  intros Hm Hk h Hh. unfold bind. specialize (Hm h Hh).
  destruct (m h) as [h' [a | e]]; [| exact Hm].
  destruct Hm as [Hh' Ha]. apply (Hk a Ha h' Hh').
Qed.

Lemma ok_weaken {A} (m : M A) (Q Q' : A -> Prop) :
  ok m Q -> (forall a, Q a -> Q' a) -> ok m Q'.
Proof.
  intros Hm HQ h Hh. specialize (Hm h Hh).
  destruct (m h) as [h' [a | e]]; [| exact Hm].
  destruct Hm. auto.
Qed.

Lemma ok_reading {A} (f : heap -> result A) (Q : A -> Prop) :
  (forall h a, Inv h -> f h = Ok a -> Q a) -> ok (reading f) Q.
Proof.
  intros HQ h Hh. unfold reading. destruct (f h) as [a | e] eqn:E.
  - split; [exact Hh | eapply HQ; eassumption].
  - apply (inv_keeps HI), Hh.
Qed.

Lemma ok_reading_any {A} (f : heap -> result A) : ok (reading f) (fun _ => True).
Proof. apply ok_reading. auto. Qed.

Lemma ok_alloc o : ok (alloc o) fresh.
Proof.
  intros h Hh. cbn. split; [apply (inv_alloc HI), Hh |].
  split; [apply keeps_length, (inv_keeps HI), Hh | apply (inv_next HI), Hh].
Qed.

Lemma ok_list_append target v :
  fresh target -> ok (list_append target v) (fun _ => True).
Proof.
  intros Hf h Hh. unfold list_append.
  destruct (view h target) as [| | | | l items | |] eqn:E;
    try (cbn; apply (inv_keeps HI), Hh).
  apply view_list in E. destruct E as [-> _]. destruct Hf as [Hl HX].
  cbn. split; [apply (inv_update HI); assumption | exact I].
Qed.

Lemma ok_setitem target key v :
  fresh target -> ok (py_setitem target key v) (fun _ => True).
Proof.
  intros Hf h Hh. unfold py_setitem.
  destruct (view h target) as [| | | | | l fields |] eqn:E;
    try (cbn; apply (inv_keeps HI), Hh).
  apply view_dict in E. destruct E as [-> _]. destruct Hf as [Hl HX].
  cbn. split; [apply (inv_update HI); assumption | exact I].
Qed.

Lemma ok_for_each {A} (l : list A) (body : A -> M unit) :
  (forall x, ok (body x) (fun _ => True)) ->
  ok (for_each l body) (fun _ => True).
Proof.
  intros Hbody. induction l as [|x l IH]; cbn [for_each].
  - apply ok_ret. exact I.
  - eapply ok_bind; [apply Hbody | intros _ _; exact IH].
Qed.

Lemma ok_dict_of_sequence v :
  ok (items <- py_iter v ;;
      fields <- reading (fun h => pairs_of h items []) ;;
      alloc (ODict fields)) fresh.
Proof.
  eapply ok_bind; [apply ok_reading_any | intros items _].
  eapply ok_bind; [apply ok_reading_any | intros fields _].
  apply ok_alloc.
Qed.

Lemma ok_py_dict v : ok (py_dict v) fresh.
Proof.
  intros h Hh. unfold py_dict.
  destruct (view h v);
    try (apply (ok_dict_of_sequence v h Hh)).
  apply (ok_alloc _ h Hh).
Qed.

Lemma ok_room_entries room : ok (room_entries room) (fun _ => True).
Proof.
  unfold room_entries.
  eapply ok_bind; [apply ok_alloc | intros default _].
  eapply ok_bind; [apply ok_reading_any | intros entries _].
  apply ok_reading_any.
Qed.

Lemma ok_build_mapping titles : ok (build_mapping titles) fresh.
Proof.
  unfold build_mapping.
  eapply ok_bind; [apply ok_reading_any | intros items _].
  eapply ok_bind; [apply ok_reading_any | intros title_set _].
  eapply ok_bind; [apply ok_reading_any | intros unique_titles _].
  apply ok_alloc.
Qed.

(** The first loop writes to [titles] only. *)
Lemma ok_collect titles rooms :
  fresh titles ->
  ok (for_each rooms (fun room =>
        entries <- room_entries room ;;
        for_each entries (fun entry =>
          has_title <- py_contains entry (lit "title") ;;
          if has_title : bool
          then title <- py_getitem entry (HStr (lit "title")) ;;
               list_append titles title
          else ret tt))) (fun _ => True).
Proof.
  intros Ht. apply ok_for_each. intros room.
  eapply ok_bind; [apply ok_room_entries | intros entries _].
  apply ok_for_each. intros entry.
  eapply ok_bind; [apply ok_reading_any | intros [|] _].
  - eapply ok_bind; [apply ok_reading_any | intros title _].
    apply ok_list_append, Ht.
  - apply ok_ret. exact I.
Qed.

End Invariant.

Arguments ok_raise {Inv X} HI.
Arguments ok_reading {Inv X} HI.
Arguments ok_reading_any {Inv X} HI.
Arguments ok_alloc {Inv X} HI.
Arguments ok_list_append {Inv X} HI.
Arguments ok_setitem {Inv X} HI.
Arguments ok_py_dict {Inv X} HI.
Arguments ok_room_entries {Inv X} HI.
Arguments ok_build_mapping {Inv X} HI.
Arguments ok_collect {Inv X} HI.

Lemma triple_bind {A B} P (m : M A) (Q : A -> heap -> Prop) (k : A -> M B) R :
  triple P m Q -> (forall a, triple (Q a) (k a) R) -> triple P (bind m k) R.
Proof.
  intros Hm Hk h Hh. unfold bind. specialize (Hm h Hh).
  destruct (m h) as [h' [a | e]]; [apply (Hk a h' Hm) | exact Hm].
Qed.

Lemma triple_alloc (P : heap -> Prop) o (Q : val -> heap -> Prop) :
  (forall h, P h -> Q (VRef (length h)) (h ++ [o])) -> triple P (alloc o) Q.
Proof. intros H h Hh. cbn. apply H, Hh. Qed.

Lemma triple_pre {A} (P P' : heap -> Prop) (m : M A) Q :
  (forall h, P' h -> P h) -> triple P m Q -> triple P' m Q.
Proof. intros HP Hm h Hh. apply Hm, HP, Hh. Qed.

Lemma triple_post {A} (P : heap -> Prop) (m : M A) (Q Q' : A -> heap -> Prop) :
  (forall a h, Q a h -> Q' a h) -> triple P m Q -> triple P m Q'.
Proof.
  intros HQ Hm h Hh. specialize (Hm h Hh).
  destruct (m h) as [h' [a | e]]; [apply HQ, Hm | exact Hm].
Qed.

(** No location is set apart. *)
Definition nowhere (l : loc) : Prop := False.

Lemma keeps_invariant : invariant keeps nowhere.
Proof.
  split.
  - auto.
  - intros h o. apply keeps_alloc.
  - intros h l o Hk Hl _. apply keeps_update; assumption.
  - intros h _ [].
Qed.

(** The second pass: [anonymized] is allocated at [a]. *)
Definition allocated (a : loc) (h : heap) : Prop := keeps h /\ a < length h.

Lemma allocated_invariant a : invariant (allocated a) nowhere.
Proof.
  split.
  - intros h [Hk _]. exact Hk.
  - intros h o [Hk Ha]. split; [apply keeps_alloc, Hk |].
    rewrite length_app. lia.
  - intros h l o [Hk Ha] Hl _. split; [apply keeps_update; assumption |].
    rewrite update_length. exact Ha.
  - intros h _ [].
Qed.

(** While a room is built: [new_room], at [r], has the fields it was created
    with; no statement of the inner loop writes to [r]. *)
Definition building (a r : loc) (fields : list (hkey * val)) (h : heap) : Prop :=
  allocated a h /\ nth_error h r = Some (ODict fields).

Lemma building_invariant a r fields : invariant (building a r fields) (eq r).
Proof.
  split.
  - intros h [[Hk _] _]. exact Hk.
  - intros h o [Ha Hr]. split; [apply (inv_alloc (allocated_invariant a)), Ha |].
    apply nth_error_alloc, Hr.
  - intros h l o [Ha Hr] Hl Hne. split.
    + apply (inv_update (allocated_invariant a)); [exact Ha | exact Hl | intros []].
    + rewrite nth_error_update_other; [exact Hr | exact Hne].
  - intros h [_ Hr] E. subst r.
    assert (length h < length h) by (apply nth_error_Some; congruence). lia.
Qed.

Definition new_room_fields (room_id : val) (e : loc) : list (hkey * val) :=
  [(HStr (lit "room"), room_id); (HStr (lit "entries"), VRef e)].

(** The body of the inner loop writes to the new entry and, through
    [new_room["entries"]], to the list [e] created with the room. *)
Lemma ok_inner_body a r room_id e mapping entry :
  length h0 <= e -> e <> r ->
  ok (building a r (new_room_fields room_id e))
     (new_entry <- py_dict entry ;;
      title <- py_get entry (lit "title") VNone ;;
      mapped <- py_in mapping title ;;
      _ <- (if mapped : bool
            then k <- reading (fun _ => hash_val title) ;;
                 label <- py_getitem mapping k ;;
                 py_setitem new_entry (HStr (lit "title")) label
            else ret tt) ;;
      target <- py_getitem (VRef r) (HStr (lit "entries")) ;;
      list_append target new_entry) (fun _ => True).
Proof.
  intros He Her.
  pose proof (building_invariant a r (new_room_fields room_id e)) as HJ.
  assert (Htail : forall new_entry,
            ok (building a r (new_room_fields room_id e))
               (target <- py_getitem (VRef r) (HStr (lit "entries")) ;;
                list_append target new_entry) (fun _ => True)).
  { intros new_entry.
    apply ok_bind with (Q := fun target => target = VRef e).
    - apply (ok_reading HJ). intros h v [_ Hr] Hv.
      cbn [view] in Hv. rewrite Hr in Hv. vm_compute in Hv. congruence.
    - intros target ->. apply (ok_list_append HJ). split; [exact He | congruence]. }
  eapply ok_bind; [apply (ok_py_dict HJ) | intros new_entry Hnew].
  eapply ok_bind; [apply (ok_reading_any HJ) | intros title _].
  eapply ok_bind; [apply (ok_reading_any HJ) | intros [|] _].
  - apply ok_bind with (Q := fun _ => True); [| intros _ _; apply Htail].
    eapply ok_bind; [apply (ok_reading_any HJ) | intros k _].
    eapply ok_bind; [apply (ok_reading_any HJ) | intros label _].
    apply (ok_setitem HJ), Hnew.
  - apply ok_bind with (Q := fun _ => True); [| intros _ _; apply Htail].
    apply ok_ret. exact I.
Qed.

(** The body of the outer loop of the second pass writes to the objects it
    creates and to [anonymized]. *)
Lemma ok_outer_body a mapping room :
  length h0 <= a ->
  ok (allocated a)
     (room_id <- py_get room (lit "room") VNone ;;
      new_entries <- alloc (OList []) ;;
      new_room <- alloc (ODict [(HStr (lit "room"), room_id);
                                (HStr (lit "entries"), new_entries)]) ;;
      entries <- room_entries room ;;
      _ <- for_each entries (fun entry =>
             new_entry <- py_dict entry ;;
             title <- py_get entry (lit "title") VNone ;;
             mapped <- py_in mapping title ;;
             _ <- (if mapped : bool
                   then k <- reading (fun _ => hash_val title) ;;
                        label <- py_getitem mapping k ;;
                        py_setitem new_entry (HStr (lit "title")) label
                   else ret tt) ;;
             target <- py_getitem new_room (HStr (lit "entries")) ;;
             list_append target new_entry) ;;
      list_append (VRef a) new_room) (fun _ => True).
Proof.
  intros Ha. unfold ok.
  apply triple_bind with (Q := fun _ h => allocated a h).
  { eapply triple_post; [| apply (ok_reading_any (allocated_invariant a))].
    intros ? ? [H _]. exact H. }
  intros room_id.
  apply triple_bind with
    (Q := fun v h => exists hp, allocated a hp /\ h = hp ++ [OList []] /\ v = VRef (length hp)).
  { apply triple_alloc. intros h Hh. exists h. auto. }
  intros new_entries.
  apply triple_bind with
    (Q := fun v h => exists e r,
            new_entries = VRef e /\ v = VRef r /\ length h0 <= e /\ e <> r /\ a <> r /\
            building a r (new_room_fields room_id e) h).
  { apply triple_alloc. intros h (hp & Hp & -> & ->).
    exists (length hp), (length (hp ++ [OList []])).
    pose proof (keeps_length hp (proj1 Hp)) as Hlen. destruct Hp as [Hk Hlt].
    rewrite length_app. cbn [length].
    split; [reflexivity | split; [reflexivity |]].
    split; [exact Hlen | split; [lia | split; [lia |]]].
    split.
    - split; [apply keeps_alloc, keeps_alloc, Hk |].
      rewrite !length_app. cbn [length]. lia.
    - rewrite nth_error_app2 by (rewrite length_app; cbn [length]; lia).
      rewrite length_app. cbn [length]. rewrite Nat.sub_diag. reflexivity. }
  intros new_room h (e & r & -> & -> & He & Her & Har & HB).
  pose proof (building_invariant a r (new_room_fields room_id e)) as HJ.
  assert (Hrest :
    ok (building a r (new_room_fields room_id e))
       (entries <- room_entries room ;;
        _ <- for_each entries (fun entry =>
               new_entry <- py_dict entry ;;
               title <- py_get entry (lit "title") VNone ;;
               mapped <- py_in mapping title ;;
               _ <- (if mapped : bool
                     then k <- reading (fun _ => hash_val title) ;;
                          label <- py_getitem mapping k ;;
                          py_setitem new_entry (HStr (lit "title")) label
                     else ret tt) ;;
               target <- py_getitem (VRef r) (HStr (lit "entries")) ;;
               list_append target new_entry) ;;
        list_append (VRef a) (VRef r)) (fun _ => True)).
  { eapply ok_bind; [apply (ok_room_entries HJ) | intros entries _].
    eapply ok_bind.
    - apply ok_for_each. intros entry. apply ok_inner_body; assumption.
    - intros _ _. apply (ok_list_append HJ). split; [exact Ha | congruence]. }
  specialize (Hrest h HB).
  match goal with |- match ?c with _ => _ end =>
    destruct c as [h' [u | err]] end.
  - destruct Hrest as [[HA _] _]. split; [exact HA | exact I].
  - exact Hrest.
Qed.

(** The whole function: every heap it leaves keeps the heap it started
    from, and the value it returns is a new object. *)
Lemma anonymize_keeps data :
  triple (fun h => h = h0) (anonymize data)
         (fun v h => keeps h /\ exists a, v = VRef a /\ length h0 <= a).
Proof.
  apply triple_pre with (P := keeps); [intros h ->; apply keeps_refl |].
  change (ok keeps (anonymize data) (fun v => exists a, v = VRef a /\ length h0 <= a)).
  unfold anonymize.
  eapply ok_bind; [apply (ok_alloc keeps_invariant) | intros titles Ht].
  eapply ok_bind; [apply (ok_reading_any keeps_invariant) | intros rooms _].
  eapply ok_bind; [apply (ok_collect keeps_invariant), Ht | intros _ _].
  eapply ok_bind; [apply (ok_build_mapping keeps_invariant) | intros mapping _].
  unfold ok.
  apply triple_bind with
    (Q := fun v h => exists a, v = VRef a /\ length h0 <= a /\ allocated a h).
  { apply triple_alloc. intros h Hk. exists (length h).
    split; [reflexivity | split; [apply keeps_length, Hk |]].
    split; [apply keeps_alloc, Hk | rewrite length_app; cbn [length]; lia]. }
  intros anonymized h (a & -> & Ha & HA).
  pose proof (allocated_invariant a) as HI.
  assert (Hrest :
    ok (allocated a)
       (rooms0 <- py_iter data ;;
        _ <- for_each rooms0 (fun room =>
               room_id <- py_get room (lit "room") VNone ;;
               new_entries <- alloc (OList []) ;;
               new_room <- alloc (ODict [(HStr (lit "room"), room_id);
                                         (HStr (lit "entries"), new_entries)]) ;;
               entries <- room_entries room ;;
               _ <- for_each entries (fun entry =>
                      new_entry <- py_dict entry ;;
                      title <- py_get entry (lit "title") VNone ;;
                      mapped <- py_in mapping title ;;
                      _ <- (if mapped : bool
                            then k <- reading (fun _ => hash_val title) ;;
                                 label <- py_getitem mapping k ;;
                                 py_setitem new_entry (HStr (lit "title")) label
                            else ret tt) ;;
                      target <- py_getitem new_room (HStr (lit "entries")) ;;
                      list_append target new_entry) ;;
               list_append (VRef a) new_room) ;;
        ret (VRef a)) (fun v => exists a, v = VRef a /\ length h0 <= a)).
  { eapply ok_bind; [apply (ok_reading_any HI) | intros rooms0 _].
    eapply ok_bind.
    - apply ok_for_each. intros room. apply ok_outer_body, Ha.
    - intros _ _. apply ok_ret. exists a. split; [reflexivity | exact Ha]. }
  specialize (Hrest h HA).
  match goal with |- match ?c with _ => _ end =>
    destruct c as [h' [u | err]] end.
  - destruct Hrest as [[Hk _] Hu]. split; [exact Hk | exact Hu].
  - exact Hrest.
Qed.

End Frame.

Lemma view_keeps h0 h v :
  keeps h0 h -> view h0 v <> SDangling -> view h v = view h0 v.
Proof.
  intros Hk Hv. destruct v as [| | | |l]; cbn in *; try reflexivity.
  destruct (nth_error h0 l) as [o |] eqn:E; [| contradiction].
  rewrite (keeps_nth_error h0 h l o Hk E). reflexivity.
Qed.

Lemma all_some_map_keeps {A B} (f g : A -> option B) l : forall ys,
  (forall x y, In x l -> f x = Some y -> g x = Some y) ->
  all_some (map f l) = Some ys -> all_some (map g l) = Some ys.
Proof.
  induction l as [|x l IH]; intros ys Hfg; cbn; [auto |].
  destruct (f x) as [y |] eqn:E; [| discriminate].
  rewrite (Hfg x y (or_introl eq_refl) E).
  destruct (all_some (map f l)) as [ys' |] eqn:E'; [| discriminate].
  rewrite (IH ys'); auto. intros x' y' Hin. apply Hfg. right. exact Hin.
Qed.

(** What could be read from the heap before can be read from a heap that
    keeps it, and reads the same. *)
Lemma read_back_keeps h0 h fuel : forall v j,
  keeps h0 h -> read_back fuel h0 v = Some j -> read_back fuel h v = Some j.
Proof.
  induction fuel as [|fuel IH]; intros v j Hk; cbn [read_back]; [discriminate |].
  intros H.
  assert (Hv : view h0 v <> SDangling) by (intros E; rewrite E in H; discriminate).
  rewrite (view_keeps h0 h v Hk Hv).
  destruct (view h0 v) as [| | | | l items | l fields |]; try exact H.
  - destruct (all_some (map (read_back fuel h0) items)) as [js |] eqn:E;
      [| discriminate].
    rewrite (all_some_map_keeps (read_back fuel h0) (read_back fuel h) items js);
      [exact H | | exact E].
    intros x y _. apply IH, Hk.
  - destruct (all_some (map (fun kv => field_back (fst kv) (read_back fuel h0 (snd kv)))
                            fields)) as [js |] eqn:E; [| discriminate].
    rewrite (all_some_map_keeps
               (fun kv => field_back (fst kv) (read_back fuel h0 (snd kv)))
               (fun kv => field_back (fst kv) (read_back fuel h (snd kv))) fields js);
      [exact H | | exact E].
    intros [k x] y _. cbn [fst snd].
    destruct (read_back fuel h0 x) as [jx |] eqn:Ex.
    + rewrite (IH x jx Hk Ex). auto.
    + destruct k; discriminate.
Qed.

(** C9. [anonymize] never mutates its input.  Whatever it is given and
    whether it returns or raises, every object of the heap before the call
    is the same object after it, so the rooms, their entries and all they
    reach read back as the same JSON; the value returned is an object that
    did not exist before the call. *)
Theorem anonymize_does_not_mutate_input (h : heap) (data : val) :
  (forall l o, nth_error h l = Some o ->
     nth_error (fst (anonymize data h)) l = Some o) /\
  (forall fuel v j, read_back fuel h v = Some j ->
     read_back fuel (fst (anonymize data h)) v = Some j) /\
  (forall v, snd (anonymize data h) = Ok v ->
     exists a, v = VRef a /\ length h <= a).
Proof.
  pose proof (anonymize_keeps h data h eq_refl) as H.
  destruct (anonymize data h) as [h' [v | e]]; cbn [fst snd].
  - destruct H as [Hk Hv]. split; [| split].
    + intros l o. apply keeps_nth_error, Hk.
    + intros fuel v' j. apply read_back_keeps, Hk.
    + intros v' [= <-]. exact Hv.
  - split; [| split].
    + intros l o. apply keeps_nth_error, H.
    + intros fuel v' j. apply read_back_keeps, H.
    + discriminate.
Qed.

(** The scenario of the specification, built in an empty heap. *)
Definition scenario_heap : heap := fst (store (JArr scenario) []).

Definition scenario_data : val := VRef 5.

Example store_scenario : store (JArr scenario) [] = (scenario_heap, Ok scenario_data).
Proof. vm_compute. reflexivity. Qed.

(** On the scenario the function on the heap returns what the function on
    values returns. *)
Example anonymize_scenario_heap :
  read_back 5 (fst (anonymize scenario_data scenario_heap)) scenario_data
    = Some (JArr scenario) /\
  match snd (anonymize scenario_data scenario_heap) with
  | Ok v => read_back 5 (fst (anonymize scenario_data scenario_heap)) v
  | Raise _ => None
  end = Some (JArr scenario_anonymized).
Proof. vm_compute. split; reflexivity. Qed.

Lemma anonymize_does_not_mutate_input_witness :
  read_back 5 (fst (anonymize scenario_data scenario_heap)) scenario_data
    = Some (JArr scenario).
Proof.
  apply (proj1 (proj2 (anonymize_does_not_mutate_input scenario_heap scenario_data))).
  vm_compute. reflexivity.
Defined.

End HeapProperties.

(** The function on the heap and the function on values agree where an entry
    has [title: null], and where an entry is not a dict. *)
Example anonymize_null_title_heap :
  let '(h, data) := Heap.store (JArr null_title_document) [] in
  match data with
  | Ok data =>
      let '(h', out) := Heap.anonymize data h in
      match out, anonymize (JArr null_title_document) with
      | Ok v, Ok j => Heap.read_back 5 h' v = Some j
      | _, _ => False
      end
  | Raise _ => False
  end.
Proof. vm_compute. reflexivity. Qed.

Example anonymize_raises_heap :
  let '(h, data) := Heap.store (JArr [JObj [(lit "entries", JArr [JArr []])]]) [] in
  match data with
  | Ok data =>
      snd (Heap.anonymize data h) = Raise AttributeError /\
      anonymize (JArr [JObj [(lit "entries", JArr [JArr []])]]) = Raise AttributeError
  | Raise _ => False
  end.
Proof. vm_compute. split; reflexivity. Qed.

(** * Further properties *)

(** ** anonymize: the titles of the output *)

Lemma Forall2_nth_error_r {A B} (R : A -> B -> Prop) l l' :
  Forall2 R l l' ->
  forall i y, nth_error l' i = Some y ->
  exists x, nth_error l i = Some x /\ R x y.
Proof.
  induction 1 as [|a b l l' Hab Hl IH]; intros [|i] y; cbn; try discriminate.
  - intros [= <-]. eauto.
  - apply IH.
Qed.

(** The output entry at a position comes from the input entry there, read
    from the output side. *)
Lemma anonymize_entry_from rooms new_rooms mapping i j e' :
  Forall2 (fun room room' => anonymize_room mapping room = Ok room') rooms new_rooms ->
  entry_at new_rooms i j = Some e' ->
  exists e, entry_at rooms i j = Some e /\ anonymize_entry mapping e = Ok e'.
Proof.
  intros Hf He'. unfold entry_at in *.
  destruct (nth_error new_rooms i) as [room' |] eqn:Hi'; [| discriminate].
  destruct (Forall2_nth_error_r _ _ _ Hf _ _ Hi') as (room & Hi & Hroom).
  apply anonymize_room_Ok in Hroom.
  destruct Hroom as (id & entries & new_entries & _ & Hent & Hfe & ->).
  rewrite room_entries_new in He'. rewrite Hi, Hent.
  destruct (Forall2_nth_error_r _ _ _ Hfe _ _ He') as (e & Hj & He).
  eauto.
Qed.

(** The label an entry with a title leaves with. *)
Lemma anonymize_entry_label rooms titles mapping new_rooms i j e t :
  collect_titles rooms = Ok titles ->
  build_mapping titles = Ok mapping ->
  Forall2 (fun room room' => anonymize_room mapping room = Ok room') rooms new_rooms ->
  entry_at rooms i j = Some e -> title_of e = Some t ->
  exists k label fields,
    hash_key t = Ok k /\
    dict_get hkey_eqb mapping k = Some label /\
    e = JObj fields /\
    entry_at new_rooms i j =
      Some (JObj (dict_set str_eqb fields (lit "title") (JStr label))).
Proof.
  intros Ht Hm Hf He Hs.
  destruct (build_mapping_Ok _ _ Hm) as (ks & Hmap & Hnd & Hks & Hhash).
  assert (Hin : In t titles)
    by (apply (collect_titles_In rooms titles t Ht); eauto).
  destruct (Hhash t Hin) as (k & Hk).
  assert (Hink : In k ks) by (apply Hks; eauto).
  destruct (mapping_lookup ks k Hink Hnd) as (label & Hlabel).
  rewrite <- Hmap in Hlabel.
  destruct (anonymize_entry_at _ _ _ _ _ _ Hf He) as (e' & He' & Hanon).
  apply anonymize_entry_Ok in Hanon.
  destruct Hanon as (fields & title & k' & -> & Htitle & Hk' & ->).
  rewrite (title_of_get _ _ Hs) in Htitle. injection Htitle as <-.
  assert (k' = k) by congruence. subst k'. rewrite Hlabel in He'.
  exists k, label, fields. auto.
Qed.

(** The values of the mapping are the first labels, one per key. *)
Lemma mapping_value_label ks k label :
  dict_get hkey_eqb (combine ks (generate_labels (len ks))) k = Some label ->
  exists K, (K < length ks)%nat /\ label = label_loop (N.of_nat K) [].
Proof.
  intros H. apply dict_get_combine_inv in H. destruct H as (K & HK & Hl).
  assert (HKlt : (K < length ks)%nat) by (apply nth_error_Some; congruence).
  rewrite generate_labels_nth in Hl by (unfold len; rewrite Nat2Z.id; exact HKlt).
  exists K. split; [exact HKlt | congruence].
Qed.

(** X1. Whenever an output entry has a [title], it is one of the generated
    labels: the first [n] labels, where [n] is the number of keys of the
    mapping; and each of these [n] labels is the title of some output entry.
    No title of the input is left in a [title] field. *)
Theorem anonymize_titles_are_the_first_labels (rooms : list json) (out : json)
  (Hrun : anonymize (JArr rooms) = Ok out) :
  exists new_rooms (n : nat),
    out = JArr new_rooms /\
    (forall i j e' t',
       entry_at new_rooms i j = Some e' -> title_of e' = Some t' ->
       exists K, (K < n)%nat /\
                 t' = JStr (label_loop (N.of_nat K) []) /\
                 represents (label_loop (N.of_nat K) []) (N.of_nat K)) /\
    (forall K, (K < n)%nat ->
       exists i j e',
         entry_at new_rooms i j = Some e' /\
         title_of e' = Some (JStr (label_loop (N.of_nat K) []))).
Proof.
  apply anonymize_Ok in Hrun.
  destruct Hrun as (titles & mapping & new_rooms & Ht & Hm & Hf & ->).
  destruct (build_mapping_Ok _ _ Hm) as (ks & Hmap & Hnd & Hks & Hhash).
  exists new_rooms, (length ks). split; [reflexivity | split].
  - intros i j e' t' He' Ht'.
    destruct (anonymize_entry_from _ _ _ _ _ _ Hf He') as (e & He & Hanon).
    apply anonymize_entry_Ok in Hanon.
    destruct Hanon as (fields & title & k & -> & Htitle & Hk & ->).
    destruct (dict_get hkey_eqb mapping k) as [label |] eqn:Hlabel.
    + cbn [title_of] in Ht'. rewrite dict_get_set_same in Ht'. injection Ht' as <-.
      rewrite Hmap in Hlabel.
      destruct (mapping_value_label _ _ _ Hlabel) as (K & HK & ->).
      exists K. split; [exact HK | split; [reflexivity | apply label_loop_represents]].
    + exfalso. cbn [title_of py_get] in *. rewrite Ht' in Htitle.
      injection Htitle as <-.
      assert (Hin : In t' titles)
        by (apply (collect_titles_In rooms titles t' Ht); exists i, j, (JObj fields); auto).
      assert (Hink : In k ks) by (apply Hks; eauto).
      destruct (mapping_lookup ks k Hink Hnd) as (label & Hl).
      rewrite <- Hmap in Hl. congruence.
  - intros K HK.
    destruct (nth_error ks K) as [k |] eqn:Hk;
      [| apply nth_error_None in Hk; lia].
    destruct (proj1 (Hks k) (nth_error_In _ _ Hk)) as (t & Hin & Hhk).
    apply (collect_titles_In rooms titles t Ht) in Hin.
    destruct Hin as (i & j & e & He & Hte).
    destruct (anonymize_entry_label _ _ _ _ _ _ _ _ Ht Hm Hf He Hte)
      as (k' & label & fields & Hk' & Hlabel & -> & He').
    assert (k' = k) by congruence. subst k'.
    exists i, j, (JObj (dict_set str_eqb fields (lit "title") (JStr label))).
    split; [exact He' |]. cbn [title_of]. rewrite dict_get_set_same.
    rewrite Hmap in Hlabel.
    rewrite (dict_get_combine_nth ks (generate_labels (len ks)) K k
               (label_loop (N.of_nat K) []) Hnd Hk) in Hlabel.
    + congruence.
    + apply generate_labels_nth. unfold len. rewrite Nat2Z.id. exact HK.
Qed.

Lemma anonymize_titles_are_the_first_labels_witness :
  exists new_rooms (n : nat),
    JArr scenario_anonymized = JArr new_rooms /\
    (forall i j e' t',
       entry_at new_rooms i j = Some e' -> title_of e' = Some t' ->
       exists K, (K < n)%nat /\
                 t' = JStr (label_loop (N.of_nat K) []) /\
                 represents (label_loop (N.of_nat K) []) (N.of_nat K)) /\
    (forall K, (K < n)%nat ->
       exists i j e',
         entry_at new_rooms i j = Some e' /\
         title_of e' = Some (JStr (label_loop (N.of_nat K) []))).
Proof.
  apply (anonymize_titles_are_the_first_labels scenario (JArr scenario_anonymized)).
  vm_compute. reflexivity.
Defined.

(** X2. Two entries whose titles are different strings leave with different
    labels: the labels do not collide. *)
Theorem anonymize_distinct_titles_distinct_labels (rooms : list json) (out : json)
  (Hrun : anonymize (JArr rooms) = Ok out) :
  exists new_rooms,
    out = JArr new_rooms /\
    forall i1 j1 e1 s1 i2 j2 e2 s2,
      entry_at rooms i1 j1 = Some e1 -> title_of e1 = Some (JStr s1) ->
      entry_at rooms i2 j2 = Some e2 -> title_of e2 = Some (JStr s2) ->
      s1 <> s2 ->
      exists e1' e2' label1 label2,
        entry_at new_rooms i1 j1 = Some e1' /\ title_of e1' = Some (JStr label1) /\
        entry_at new_rooms i2 j2 = Some e2' /\ title_of e2' = Some (JStr label2) /\
        label1 <> label2.
Proof.
  apply anonymize_Ok in Hrun.
  destruct Hrun as (titles & mapping & new_rooms & Ht & Hm & Hf & ->).
  exists new_rooms. split; [reflexivity |].
  intros i1 j1 e1 s1 i2 j2 e2 s2 H1 Hs1 H2 Hs2 Hne.
  destruct (anonymize_entry_label _ _ _ _ _ _ _ _ Ht Hm Hf H1 Hs1)
    as (k1 & label1 & fields1 & Hk1 & Hl1 & -> & He1).
  destruct (anonymize_entry_label _ _ _ _ _ _ _ _ Ht Hm Hf H2 Hs2)
    as (k2 & label2 & fields2 & Hk2 & Hl2 & -> & He2).
  cbn in Hk1, Hk2. injection Hk1 as <-. injection Hk2 as <-.
  do 2 eexists. exists label1, label2.
  split; [exact He1 | split; [cbn [title_of]; apply dict_get_set_same |]].
  split; [exact He2 | split; [cbn [title_of]; apply dict_get_set_same |]].
  intros E. subst label2.
  destruct (build_mapping_Ok _ _ Hm) as (ks & Hmap & _).
  rewrite Hmap in Hl1, Hl2.
  pose proof (dict_get_combine_injective ks _ _ _ _
                (generate_labels_NoDup (len ks)) Hl1 Hl2) as E.
  congruence.
Qed.

Lemma anonymize_distinct_titles_distinct_labels_witness :
  exists new_rooms,
    JArr scenario_anonymized = JArr new_rooms /\
    forall i1 j1 e1 s1 i2 j2 e2 s2,
      entry_at scenario i1 j1 = Some e1 -> title_of e1 = Some (JStr s1) ->
      entry_at scenario i2 j2 = Some e2 -> title_of e2 = Some (JStr s2) ->
      s1 <> s2 ->
      exists e1' e2' label1 label2,
        entry_at new_rooms i1 j1 = Some e1' /\ title_of e1' = Some (JStr label1) /\
        entry_at new_rooms i2 j2 = Some e2' /\ title_of e2' = Some (JStr label2) /\
        label1 <> label2.
Proof.
  apply (anonymize_distinct_titles_distinct_labels scenario (JArr scenario_anonymized)).
  vm_compute. reflexivity.
Defined.

(** ** anonymize: what happens to one entry *)

Lemma dict_set_present {V} (d : dict str V) k v v0 :
  dict_get str_eqb d k = Some v0 ->
  keys (dict_set str_eqb d k v) = keys d.
Proof.
  unfold keys. induction d as [|[k' v'] d IH]; cbn; [discriminate |].
  destruct (str_eqb k' k) eqn:E; cbn; [reflexivity |].
  intros H. f_equal. apply IH, H.
Qed.

Lemma dict_set_absent {V} (d : dict str V) k v :
  dict_get str_eqb d k = None -> dict_set str_eqb d k v = d ++ [(k, v)].
Proof.
  induction d as [|[k' v'] d IH]; cbn; [reflexivity |].
  destruct (str_eqb k' k); [discriminate |].
  intros H. rewrite (IH H). reflexivity.
Qed.

(** X3. The only change to an entry is under [title].  An entry that has a
    title keeps all its keys in their order, the title in its place with a
    label as value; an entry without title is output as it is, or with
    [title] appended as its last key. *)
Theorem anonymize_entry_keeps_key_order (rooms : list json) (out : json)
  (Hrun : anonymize (JArr rooms) = Ok out) :
  exists new_rooms,
    out = JArr new_rooms /\
    forall i j e, entry_at rooms i j = Some e ->
      exists fields fields',
        e = JObj fields /\
        entry_at new_rooms i j = Some (JObj fields') /\
        (forall t, title_of e = Some t ->
           keys fields' = keys fields /\
           exists label, fields' = dict_set str_eqb fields (lit "title") (JStr label)) /\
        (title_of e = None ->
           fields' = fields \/
           exists label, fields' = fields ++ [(lit "title", JStr label)]).
Proof.
  apply anonymize_Ok in Hrun.
  destruct Hrun as (titles & mapping & new_rooms & Ht & Hm & Hf & ->).
  exists new_rooms. split; [reflexivity |].
  intros i j e He.
  destruct (anonymize_entry_at _ _ _ _ _ _ Hf He) as (e' & He' & Hanon).
  apply anonymize_entry_Ok in Hanon.
  destruct Hanon as (fields & title & k & -> & Htitle & Hk & ->).
  cbn [title_of py_get] in *.
  destruct (dict_get str_eqb fields (lit "title")) as [t0 |] eqn:Hget.
  - destruct (anonymize_entry_label _ _ _ _ _ _ (JObj fields) t0 Ht Hm Hf He Hget)
      as (k' & label & fields0 & _ & _ & [= <-] & He2).
    exists fields, (dict_set str_eqb fields (lit "title") (JStr label)).
    split; [reflexivity | split; [exact He2 | split]].
    + intros t _. split; [eapply dict_set_present, Hget | eauto].
    + discriminate.
  - destruct (dict_get hkey_eqb mapping k) as [label |].
    + exists fields, (dict_set str_eqb fields (lit "title") (JStr label)).
      split; [reflexivity | split; [exact He' | split; [discriminate |]]].
      intros _. right. exists label. apply dict_set_absent, Hget.
    + exists fields, fields.
      split; [reflexivity | split; [exact He' | split; [discriminate | auto]]].
Qed.

Lemma anonymize_entry_keeps_key_order_witness :
  exists new_rooms,
    JArr scenario_anonymized = JArr new_rooms /\
    forall i j e, entry_at scenario i j = Some e ->
      exists fields fields',
        e = JObj fields /\
        entry_at new_rooms i j = Some (JObj fields') /\
        (forall t, title_of e = Some t ->
           keys fields' = keys fields /\
           exists label, fields' = dict_set str_eqb fields (lit "title") (JStr label)) /\
        (title_of e = None ->
           fields' = fields \/
           exists label, fields' = fields ++ [(lit "title", JStr label)]).
Proof.
  apply (anonymize_entry_keeps_key_order scenario (JArr scenario_anonymized)).
  vm_compute. reflexivity.
Defined.

(** A document to which X4 applies. *)
Lemma untitled_entry_document_no_null :
  forall i j e, entry_at untitled_entry_document i j = Some e ->
    title_of e <> Some JNull.
Proof.
  intros [|[|i]] j e; cbn; try discriminate.
  destruct j as [|[|[|j]]]; cbn; intros [= <-]; discriminate.
Defined.

Lemma anonymize_keeps_missing_title_witness :
  entry_at [JObj [(lit "room", JStr (lit "101"));
                  (lit "entries",
                   JArr [JObj [(lit "title", JStr (lit "A"))];
                         JObj [(lit "note", JStr (lit "x"))]])]] 0 1
  = Some (JObj [(lit "note", JStr (lit "x"))]).
Proof.
  apply (anonymize_keeps_missing_title untitled_entry_document
           [JObj [(lit "room", JStr (lit "101"));
                  (lit "entries",
                   JArr [JObj [(lit "title", JStr (lit "A"))];
                         JObj [(lit "note", JStr (lit "x"))]])]]).
  - vm_compute. reflexivity.
  - apply untitled_entry_document_no_null.
  - reflexivity.
  - reflexivity.
Defined.

(** ** anonymize: when it returns and what it raises *)















Lemma raises_bind {A B} (c : result A) (k : A -> result B) :
  raises_shape_error c -> (forall a, c = Ok a -> raises_shape_error (k a)) ->
  raises_shape_error (bind c k).
Proof.
  intros Hc Hk. destruct c as [a | e]; cbn.
  - apply Hk. reflexivity.
  - intros e' [= <-]. apply Hc. reflexivity.
Qed.

Lemma raises_Ok {A} (a : A) : raises_shape_error (Ok a).
Proof. intros e. discriminate. Qed.

Lemma raises_TypeError {A} : raises_shape_error (@Raise A TypeError).
Proof. intros e [= <-]. left. reflexivity. Qed.

Lemma raises_ValueError {A} : raises_shape_error (@Raise A ValueError).
Proof. intros e [= <-]. right. left. reflexivity. Qed.

Lemma raises_AttributeError {A} : raises_shape_error (@Raise A AttributeError).
Proof. intros e [= <-]. right. right. reflexivity. Qed.

Lemma raises_for_each {A S} (l : list A) (body : S -> A -> result S) :
  (forall s x, raises_shape_error (body s x)) ->
  forall s, raises_shape_error (for_each l body s).
Proof.
  intros Hbody. induction l as [|x l IH]; intros s; cbn [for_each].
  - apply raises_Ok.
  - apply raises_bind; [apply Hbody | intros s' _; apply IH].
Qed.

Lemma raises_py_iter v : raises_shape_error (py_iter v).
Proof. destruct v; cbn; first [apply raises_Ok | apply raises_TypeError]. Qed.

Lemma raises_py_get obj key default : raises_shape_error (py_get obj key default).
Proof.
  destruct obj; cbn; try apply raises_AttributeError.
  destruct (dict_get str_eqb fields key); apply raises_Ok.
Qed.

Lemma raises_hash_key v : raises_shape_error (hash_key v).
Proof. destruct v; cbn; first [apply raises_Ok | apply raises_TypeError]. Qed.

Lemma raises_room_entries room : raises_shape_error (room_entries room).
Proof.
  unfold room_entries. apply raises_bind; [apply raises_py_get |].
  intros entries _. apply raises_py_iter.
Qed.

(** [entry["title"]] runs only after ["title" in entry]: on a dict the key is
    there, and on a list or a string the subscript raises [TypeError]. *)
Lemma raises_collect_entry titles entry :
  raises_shape_error
    (has_title <- py_contains entry (lit "title") ;;
     if has_title : bool
     then title <- py_getitem entry (lit "title") ;; Ok (titles ++ [title])
     else Ok titles).
Proof.
  destruct entry as [| | | s | items | fields];
    cbn [py_contains py_getitem bind]; try apply raises_TypeError.
  - destruct (substringb _ _); cbn [bind];
      [apply raises_TypeError | apply raises_Ok].
  - destruct (existsb _ _); cbn [bind];
      [apply raises_TypeError | apply raises_Ok].
  - unfold dict_contains.
    destruct (dict_get str_eqb fields (lit "title")); cbn [bind]; apply raises_Ok.
Qed.

Lemma raises_collect_titles rooms : raises_shape_error (collect_titles rooms).
Proof.
  unfold collect_titles. apply raises_for_each. intros titles room.
  apply raises_bind; [apply raises_room_entries | intros entries _].
  apply raises_for_each. intros titles' entry. apply raises_collect_entry.
Qed.

Lemma raises_build_mapping titles : raises_shape_error (build_mapping titles).
Proof.
  unfold build_mapping, py_set, set_of, py_sorted.
  apply raises_bind.
  - apply raises_bind; [| intros ks _; apply raises_Ok].
    apply raises_for_each. intros acc v.
    apply raises_bind; [apply raises_hash_key | intros k _; apply raises_Ok].
  - intros title_set _. destruct (comparable title_set); cbn [bind];
      [apply raises_Ok | apply raises_TypeError].
Qed.

Lemma raises_check_pair item : raises_shape_error (check_pair item).
Proof.
  unfold check_pair. apply raises_bind; [apply raises_py_iter |].
  intros [|k [|v [|w kv]]] _; try apply raises_ValueError.
  apply raises_bind; [apply raises_hash_key | intros hk _; apply raises_Ok].
Qed.

Lemma raises_anonymize_entry mapping entry :
  raises_shape_error (anonymize_entry mapping entry).
Proof.
  assert (Hseq : raises_shape_error
                   (_ <- dict_of_sequence entry ;; @Raise json AttributeError)).
  { apply raises_bind; [| intros _ _; apply raises_AttributeError].
    unfold dict_of_sequence. apply raises_bind; [apply raises_py_iter |].
    intros items _. apply raises_for_each. intros u item. apply raises_check_pair. }
  destruct entry as [| | | | | fields]; cbn [anonymize_entry]; try exact Hseq.
  apply raises_bind; [apply raises_py_get | intros title _].
  apply raises_bind; [apply raises_hash_key | intros k _].
  destruct (dict_get hkey_eqb mapping k); apply raises_Ok.
Qed.

Lemma raises_anonymize_room mapping room :
  raises_shape_error (anonymize_room mapping room).
Proof.
  unfold anonymize_room.
  apply raises_bind; [apply raises_py_get | intros id _].
  apply raises_bind; [apply raises_room_entries | intros entries _].
  apply raises_bind; [| intros new_entries _; apply raises_Ok].
  apply raises_for_each. intros acc entry.
  apply raises_bind; [apply raises_anonymize_entry | intros e _; apply raises_Ok].
Qed.

(** X6. Whatever JSON value it is given, [anonymize] raises nothing but
    [TypeError], [ValueError] and [AttributeError], the errors of a value of
    the wrong shape.  Its two subscripts are guarded by a membership test, so
    it never raises [KeyError]; and it never ends the process itself. *)
Theorem anonymize_raises_shape_errors_only (data : json) (e : exn)
  (Hraise : anonymize data = Raise e) :
  shape_error e /\ e <> KeyError /\ e <> FileNotFoundError /\
  forall message, e <> SystemExit message.
Proof.
  assert (H : raises_shape_error (anonymize data)).
  { unfold anonymize.
    apply raises_bind; [apply raises_py_iter | intros rooms _].
    apply raises_bind; [apply raises_collect_titles | intros titles _].
    apply raises_bind; [apply raises_build_mapping | intros mapping _].
    apply raises_bind; [| intros anonymized _; apply raises_Ok].
    apply raises_for_each. intros acc room.
    apply raises_bind; [apply raises_anonymize_room | intros r _; apply raises_Ok]. }
  specialize (H e Hraise). split; [exact H |].
  destruct H as [-> | [-> | ->]]; repeat split; try discriminate;
    intros message; discriminate.
Qed.

Lemma anonymize_raises_shape_errors_only_witness :
  shape_error TypeError /\ TypeError <> KeyError /\ TypeError <> FileNotFoundError /\
  forall message, TypeError <> SystemExit message.
Proof.
  apply (anonymize_raises_shape_errors_only
           (JArr [JObj [(lit "entries", JArr [JInt 5])]]) TypeError).
  vm_compute. reflexivity.
Defined.

(** ** generate_labels: prefixes, lengths and order *)

Lemma firstn_seq_le n : forall start m,
  (n <= m)%nat -> firstn n (seq start m) = seq start n.
Proof.
  induction n as [|n IH]; intros start [|m] H; cbn; try reflexivity; [lia |].
  rewrite IH by lia. reflexivity.
Qed.

Lemma range_firstn count count' :
  (count <= count')%Z -> range count = firstn (Z.to_nat count) (range count').
Proof.
  intros H. unfold range. rewrite firstn_map, firstn_seq_le by lia. reflexivity.
Qed.

(** X7. The labels do not depend on how many are asked for: the labels of a
    smaller count are the first labels of a larger one, and a count of zero
    or less gives none. *)
Theorem generate_labels_prefix (count count' : Z) (Hle : (count <= count')%Z) :
  generate_labels count = firstn (Z.to_nat count) (generate_labels count') /\
  ((count <= 0)%Z -> generate_labels count = []).
Proof.
  split.
  - unfold generate_labels. rewrite (range_firstn count count' Hle), firstn_map.
    reflexivity.
  - intros H0. unfold generate_labels, range.
    replace (Z.to_nat count) with 0%nat by lia. reflexivity.
Qed.

Lemma generate_labels_prefix_witness :
  generate_labels 2 = firstn (Z.to_nat 2) (generate_labels 30) /\
  ((2 <= 0)%Z -> generate_labels 2 = []).
Proof. apply (generate_labels_prefix 2 30). lia. Defined.

Lemma count_upto_succ L : count_upto (S L) = count_upto L + base ^ N.of_nat (S L).
Proof.
  induction L as [|L IH].
  - reflexivity.
  - change (count_upto (S (S L))) with (base * (count_upto (S L) + 1)).
    rewrite IH at 1.
    change (count_upto (S L)) with (base * (count_upto L + 1)).
    rewrite (Nat2N.inj_succ (S L)), N.pow_succ_r'. lia.
Qed.

Lemma count_upto_mono L L' : (L <= L')%nat -> count_upto L <= count_upto L'.
Proof.
  induction 1 as [|L' _ IH]; [lia |].
  rewrite count_upto_succ. lia.
Qed.

(** The numerals of [L] letters lie between the counts of shorter and of
    not longer labels. *)
Lemma bijective_value_upper s :
  Forall is_upper s -> bijective_value s <= count_upto (length s).
Proof.
  induction s as [|c s IH] using rev_ind; intros Hup; [cbn; lia |].
  apply Forall_app in Hup. destruct Hup as [Hs Hc].
  inversion Hc as [|? ? Hc' _]; subst.
  rewrite bijective_value_app, length_app, Nat.add_1_r.
  pose proof (digit_bounds _ Hc'). specialize (IH Hs).
  change (count_upto (S (length s))) with (base * (count_upto (length s) + 1)).
  unfold base in *. lia.
Qed.

Lemma bijective_value_lower s :
  Forall is_upper s -> s <> [] ->
  count_upto (length s - 1) + 1 <= bijective_value s.
Proof.
  induction s as [|c s IH] using rev_ind; intros Hup Hne; [contradiction |].
  apply Forall_app in Hup. destruct Hup as [Hs Hc].
  inversion Hc as [|? ? Hc' _]; subst.
  rewrite bijective_value_app, length_app, Nat.add_1_r.
  pose proof (digit_bounds _ Hc').
  replace (S (length s) - 1)%nat with (length s) by lia.
  destruct (list_eq_dec N.eq_dec s []) as [-> | Hs0].
  - cbn. lia.
  - specialize (IH Hs Hs0).
    destruct (length s) as [|n] eqn:El.
    + destruct s; [contradiction | discriminate].
    + replace (S n - 1)%nat with n in IH by lia.
      change (count_upto (S n)) with (base * (count_upto n + 1)).
      unfold base in *. lia.
Qed.

Lemma label_length_le K L :
  (length (label_loop K []) <= L)%nat <-> K < count_upto L.
Proof.
  destruct (label_loop_represents K) as (Hne & Hup & Hval).
  pose proof (bijective_value_upper _ Hup) as Hu.
  pose proof (bijective_value_lower _ Hup Hne) as Hl.
  rewrite Hval in Hu, Hl. split.
  - intros Hlen. pose proof (count_upto_mono _ _ Hlen). lia.
  - intros HK.
    destruct (Nat.le_gt_cases (length (label_loop K [])) L) as [H | H]; [exact H |].
    assert (Hm : count_upto L <= count_upto (length (label_loop K []) - 1))
      by (apply count_upto_mono; lia).
    lia.
Qed.

(** X8. The label of index [K] has at most [L] letters exactly when
    [K < 26 + 26^2 + ... + 26^L]: the first 26 labels have one letter, the
    next 676 two letters, and so on. *)
Theorem generate_labels_length_of_label (count : Z) (K : nat) (label : str)
  (Hlabel : nth_error (generate_labels count) K = Some label) :
  (forall L, (length label <= L)%nat <-> N.of_nat K < count_upto L) /\
  (length label = 1%nat <-> (K < 26)%nat) /\
  (length label = 2%nat <-> (26 <= K < 702)%nat).
Proof.
  assert (HK : (K < Z.to_nat count)%nat).
  { rewrite <- generate_labels_length. apply nth_error_Some. congruence. }
  rewrite (generate_labels_nth count K HK) in Hlabel. injection Hlabel as <-.
  pose proof (label_length_le (N.of_nat K)) as H.
  destruct (label_loop_represents (N.of_nat K)) as (Hne & _ & _).
  assert (Hpos : (1 <= length (label_loop (N.of_nat K) []))%nat).
  { destruct (label_loop (N.of_nat K) []); [contradiction | cbn; lia]. }
  pose proof (H 1%nat) as H1. pose proof (H 2%nat) as H2.
  change (count_upto 1) with 26 in H1. change (count_upto 2) with 702 in H2.
  split; [exact H | split]; lia.
Qed.

Lemma generate_labels_length_of_label_witness :
  (forall L, (length (lit "AA") <= L)%nat <-> N.of_nat 26 < count_upto L) /\
  (length (lit "AA") = 1%nat <-> (26 < 26)%nat) /\
  (length (lit "AA") = 2%nat <-> (26 <= 26 < 702)%nat).
Proof.
  apply (generate_labels_length_of_label 27 26 (lit "AA")). reflexivity.
Defined.

Lemma fold_value_from s : forall a,
  fold_left (fun acc c => acc * base + digit c) s a =
  a * base ^ N.of_nat (length s) + bijective_value s.
Proof.
  unfold bijective_value.
  induction s as [|c s IH]; intros a; cbn [fold_left length].
  - cbn. lia.
  - rewrite IH, (IH (0 * base + digit c)).
    rewrite Nat2N.inj_succ, N.pow_succ_r'. lia.
Qed.

Lemma bijective_value_cons c s :
  bijective_value (c :: s) = digit c * base ^ N.of_nat (length s) + bijective_value s.
Proof.
  unfold bijective_value at 1. cbn [fold_left]. rewrite fold_value_from. lia.
Qed.

(** Two numerals of one length differ by less than the weight of a letter
    put before them. *)
Lemma bijective_value_gap s t :
  Forall is_upper s -> Forall is_upper t -> length s = length t ->
  bijective_value s < bijective_value t + base ^ N.of_nat (length s).
Proof.
  intros Hs Ht Hlen.
  destruct (list_eq_dec N.eq_dec t []) as [-> | Hne].
  - destruct s; [cbn; lia | discriminate].
  - pose proof (bijective_value_upper s Hs) as Hu.
    pose proof (bijective_value_lower t Ht Hne) as Hl.
    rewrite Hlen in *.
    destruct (length t) as [|n] eqn:E; [destruct t; [contradiction | discriminate] |].
    replace (S n - 1)%nat with n in Hl by lia.
    rewrite count_upto_succ in Hu. lia.
Qed.

(** Between numerals of one length, the smaller number is the smaller
    string. *)
Lemma bijective_value_lt_str_lt s : forall t,
  Forall is_upper s -> Forall is_upper t -> length s = length t ->
  bijective_value s < bijective_value t -> str_lt s t.
Proof.
  induction s as [|a s IH]; intros [|b t] Hs Ht Hlen Hlt; try discriminate.
  inversion Hs as [|? ? Ha Hs']; inversion Ht as [|? ? Hb Ht']; subst.
  injection Hlen as Hlen.
  rewrite !bijective_value_cons, <- Hlen in Hlt.
  pose proof (bijective_value_gap s t Hs' Ht' Hlen) as Hgap.
  pose proof (bijective_value_gap t s Ht' Hs' (eq_sym Hlen)) as Hgap'.
  rewrite <- Hlen in Hgap'.
  remember (base ^ N.of_nat (length s)) as w eqn:Ew.
  destruct (N.lt_total a b) as [Hab | [-> | Hba]].
  - apply str_lt_head, Hab.
  - apply str_lt_tail, IH; try assumption. lia.
  - exfalso.
    assert (Hd : digit b + 1 <= digit a)
      by (unfold is_upper, digit, ord_A in *; lia).
    assert (digit b * w + w <= digit a * w) by nia.
    lia.
Qed.

Lemma label_loop_shortlex K K' :
  K < K' -> shortlex (label_loop K []) (label_loop K' []).
Proof.
  intros Hlt.
  destruct (label_loop_represents K) as (_ & Hup & Hval).
  destruct (label_loop_represents K') as (_ & Hup' & Hval').
  assert (Hle : (length (label_loop K []) <= length (label_loop K' []))%nat).
  { apply label_length_le.
    pose proof (proj1 (label_length_le K' _) (Nat.le_refl _)). lia. }
  unfold shortlex.
  destruct (Nat.eq_dec (length (label_loop K [])) (length (label_loop K' [])))
    as [E | E]; [| left; lia].
  right. split; [exact E |].
  apply bijective_value_lt_str_lt; try assumption. lia.
Qed.

(** X9. The labels come in the order A, B, ..., Z, AA, AB, ...: a label of
    a smaller index is shorter than a label of a larger one, or has the same
    number of letters and comes before it in code point order. *)
Theorem generate_labels_shortlex (count : Z) (K K' : nat) (label label' : str)
  (HK : nth_error (generate_labels count) K = Some label)
  (HK' : nth_error (generate_labels count) K' = Some label')
  (Hlt : (K < K')%nat) :
  shortlex label label'.
Proof.
  assert (Hb : (K < Z.to_nat count)%nat /\ (K' < Z.to_nat count)%nat).
  { rewrite <- generate_labels_length. split; apply nth_error_Some; congruence. }
  destruct Hb as [Hb Hb'].
  rewrite (generate_labels_nth count K Hb) in HK. injection HK as <-.
  rewrite (generate_labels_nth count K' Hb') in HK'. injection HK' as <-.
  apply label_loop_shortlex. lia.
Qed.

Lemma generate_labels_shortlex_witness : shortlex (lit "Z") (lit "AA").
Proof.
  apply (generate_labels_shortlex 27 25 26 (lit "Z") (lit "AA")).
  - reflexivity.
  - reflexivity.
  - lia.
Defined.

(** ** build_mapping: what decides a label *)

(** The mapping of string titles, by its sorted keys. *)
Lemma build_mapping_strings (titles : list str) :
  exists us,
    build_mapping (map JStr titles)
      = Ok (combine (map HStr us) (generate_labels (len us))) /\
    StronglySorted str_lt us /\
    (forall t, In t us <-> In t titles).
Proof.
  pose proof (sort_perm (dedup (map HStr titles))) as Hperm.
  assert (Hstr : forallb is_HStr (dedup (map HStr titles)) = true)
    by apply forallb_dedup, forallb_is_HStr_map.
  assert (Hstr' : forallb is_HStr (sort (dedup (map HStr titles))) = true)
    by (rewrite <- (forallb_perm _ _ _ Hperm); exact Hstr).
  destruct (all_HStr_map _ Hstr') as (us & Hus).
  assert (Hnd : NoDup (map HStr us)).
  { rewrite <- Hus. eapply Permutation_NoDup; [exact Hperm | apply dedup_NoDup]. }
  exists us. split; [| split].
  - unfold build_mapping. rewrite py_set_str. cbn [bind].
    unfold py_sorted, comparable. rewrite Hstr, orb_true_r. cbn [bind orb].
    rewrite Hus. unfold len at 1. rewrite length_map. fold (len us).
    rewrite dict_of_pairs_NoDup; [reflexivity |].
    rewrite keys_combine; [exact Hnd |].
    rewrite length_map, len_generate_labels. reflexivity.
  - apply StronglySorted_map_HStr. rewrite <- Hus.
    apply Sorted_strict; [left; exact Hstr' | rewrite Hus; exact Hnd | apply sort_Sorted].
  - intros t. transitivity (In (HStr t) (map HStr us)).
    + split; [apply in_map |]. rewrite in_map_iff. intros (x & [= ->] & Hx). exact Hx.
    + rewrite <- Hus.
      transitivity (In (HStr t) (dedup (map HStr titles))).
      * split; apply Permutation_in; [symmetry |]; exact Hperm.
      * rewrite dedup_In. split; [| apply in_map].
        rewrite in_map_iff. intros (x & [= ->] & Hx). exact Hx.
Qed.

(** X10. The mapping depends on which titles occur, not on their order or
    on how often each occurs: two lists with the same elements give the same
    mapping. *)
Theorem build_mapping_ignores_order_and_duplicates (titles titles' : list str)
  (Hsame : forall t, In t titles <-> In t titles') :
  build_mapping (map JStr titles) = build_mapping (map JStr titles').
Proof.
  destruct (build_mapping_strings titles) as (us & -> & Hs & Hin).
  destruct (build_mapping_strings titles') as (us' & -> & Hs' & Hin').
  assert (us = us').
  { apply StronglySorted_unique; try assumption.
    intros t. rewrite Hin, Hin'. apply Hsame. }
  subst us'. reflexivity.
Qed.

Lemma build_mapping_ignores_order_and_duplicates_witness :
  build_mapping (map JStr [lit "b"; lit "a"; lit "b"])
  = build_mapping (map JStr [lit "a"; lit "b"]).
Proof.
  apply (build_mapping_ignores_order_and_duplicates
           [lit "b"; lit "a"; lit "b"] [lit "a"; lit "b"]).
  intros t. cbn. tauto.
Defined.

Lemma sorted_position_lt us : forall i j t u,
  StronglySorted str_lt us ->
  nth_error us i = Some t -> nth_error us j = Some u ->
  str_lt t u -> (i < j)%nat.
Proof.
  induction us as [|x us IH]; intros [|i] [|j] t u Hs Hi Hj Hlt; cbn in *;
    try discriminate; inversion Hs as [|? ? Hs' Hall]; subst.
  - injection Hi as <-. injection Hj as <-. destruct (str_lt_irrefl _ Hlt).
  - lia.
  - injection Hj as <-. rewrite Forall_forall in Hall.
    destruct (str_lt_irrefl t). eapply str_lt_trans; [exact Hlt |].
    apply Hall. eapply nth_error_In, Hi.
  - apply -> Nat.succ_lt_mono. eapply IH; eassumption.
Qed.

Lemma sorted_smaller_count us : forall k t,
  StronglySorted str_lt us -> nth_error us k = Some t ->
  length (filter (fun u => str_ltb u t) us) = k.
Proof.
  induction us as [|x us IH]; intros [|k] t Hs Hk; cbn in *; try discriminate;
    inversion Hs as [|? ? Hs' Hall]; subst; rewrite Forall_forall in Hall.
  - injection Hk as <-.
    destruct (str_ltb x x) eqn:E;
      [apply str_ltb_lt in E; destruct (str_lt_irrefl _ E) |].
    assert (Hnone : filter (fun u => str_ltb u x) us = []).
    { clear - Hall. induction us as [|y us IH]; cbn; [reflexivity |].
      destruct (str_ltb y x) eqn:E.
      - apply str_ltb_lt in E. destruct (str_lt_irrefl x).
        eapply str_lt_trans; [apply Hall; left; reflexivity | exact E].
      - apply IH. intros z Hz. apply Hall. right. exact Hz. }
    rewrite Hnone. reflexivity.
  - assert (Hxt : str_ltb x t = true)
      by (apply str_ltb_lt, Hall; eapply nth_error_In, Hk).
    rewrite Hxt. cbn. f_equal. apply IH; assumption.
Qed.

Lemma NoDup_same_length {A} (l l' : list A) :
  NoDup l -> NoDup l' -> (forall x, In x l <-> In x l') -> length l = length l'.
Proof.
  intros Hl Hl' Hin. apply Permutation_length, NoDup_Permutation; assumption.
Qed.

Lemma NoDup_filter_map_HStr f us :
  NoDup us -> NoDup (map HStr (filter f us)).
Proof. intros H. apply NoDup_map_HStr, NoDup_filter, H. Qed.

(** X11. The label of a title is decided by how many distinct titles sort
    before it: with [k] of them, the title maps to the label of index [k]. *)
Theorem build_mapping_label_by_rank (titles : list str) (t : str)
  (Ht : In t titles) :
  exists mapping,
    build_mapping (map JStr titles) = Ok mapping /\
    dict_get hkey_eqb mapping (HStr t)
      = Some (label_loop (N.of_nat (smaller_titles t titles)) []).
Proof.
  destruct (build_mapping_strings titles) as (us & Hm & Hs & Hin).
  eexists. split; [exact Hm |].
  pose proof (StronglySorted_NoDup us Hs) as Hnd.
  destruct (In_nth_error us t (proj2 (Hin t) Ht)) as (k & Hk).
  assert (Hrank : smaller_titles t titles = k).
  { unfold smaller_titles.
    rewrite <- (sorted_smaller_count us k t Hs Hk).
    rewrite <- (length_map HStr (filter _ us)).
    apply NoDup_same_length.
    - apply dedup_NoDup.
    - apply NoDup_filter_map_HStr, Hnd.
    - intros x. rewrite dedup_In, !in_map_iff. split.
      + intros (u & <- & Hu). apply filter_In in Hu. destruct Hu as [Hu Hlt].
        exists u. split; [reflexivity |]. apply filter_In. split; [apply Hin, Hu | exact Hlt].
      + intros (u & <- & Hu). apply filter_In in Hu. destruct Hu as [Hu Hlt].
        exists u. split; [reflexivity |]. apply filter_In. split; [apply Hin, Hu | exact Hlt]. }
  rewrite Hrank.
  apply (dict_get_combine_nth _ _ k).
  - apply NoDup_map_HStr, Hnd.
  - rewrite nth_error_map, Hk. reflexivity.
  - apply generate_labels_nth. unfold len. rewrite Nat2Z.id.
    apply nth_error_Some. congruence.
Qed.

Lemma build_mapping_label_by_rank_witness :
  exists mapping,
    build_mapping (map JStr [lit "b"; lit "a"; lit "b"]) = Ok mapping /\
    dict_get hkey_eqb mapping (HStr (lit "b"))
      = Some (label_loop (N.of_nat (smaller_titles (lit "b") [lit "b"; lit "a"; lit "b"])) []).
Proof.
  apply (build_mapping_label_by_rank [lit "b"; lit "a"; lit "b"] (lit "b")).
  left. reflexivity.
Defined.

(** X12. The mapping keeps the order: of two titles, the one that sorts
    first gets the label that comes first in A, B, ..., Z, AA, AB, ... *)
Theorem build_mapping_keeps_order (titles : list str) (t u : str)
  (Ht : In t titles) (Hu : In u titles) (Hlt : str_lt t u) :
  exists mapping label_t label_u,
    build_mapping (map JStr titles) = Ok mapping /\
    dict_get hkey_eqb mapping (HStr t) = Some label_t /\
    dict_get hkey_eqb mapping (HStr u) = Some label_u /\
    shortlex label_t label_u.
Proof.
  destruct (build_mapping_strings titles) as (us & Hm & Hs & Hin).
  pose proof (StronglySorted_NoDup us Hs) as Hnd.
  destruct (In_nth_error us t (proj2 (Hin t) Ht)) as (i & Hi).
  destruct (In_nth_error us u (proj2 (Hin u) Hu)) as (j & Hj).
  pose proof (sorted_position_lt us i j t u Hs Hi Hj Hlt) as Hij.
  assert (Hget : forall k x, nth_error us k = Some x ->
            dict_get hkey_eqb (combine (map HStr us) (generate_labels (len us))) (HStr x)
            = Some (label_loop (N.of_nat k) [])).
  { intros k x Hk. apply (dict_get_combine_nth _ _ k).
    - apply NoDup_map_HStr, Hnd.
    - rewrite nth_error_map, Hk. reflexivity.
    - apply generate_labels_nth. unfold len. rewrite Nat2Z.id.
      apply nth_error_Some. congruence. }
  eexists. exists (label_loop (N.of_nat i) []), (label_loop (N.of_nat j) []).
  split; [exact Hm | split; [apply Hget, Hi | split; [apply Hget, Hj |]]].
  apply label_loop_shortlex. lia.
Qed.

Lemma build_mapping_keeps_order_witness :
  exists mapping label_t label_u,
    build_mapping (map JStr [lit "b"; lit "a"; lit "b"]) = Ok mapping /\
    dict_get hkey_eqb mapping (HStr (lit "a")) = Some label_t /\
    dict_get hkey_eqb mapping (HStr (lit "b")) = Some label_u /\
    shortlex label_t label_u.
Proof.
  apply (build_mapping_keeps_order [lit "b"; lit "a"; lit "b"] (lit "a") (lit "b")).
  - right. left. reflexivity.
  - left. reflexivity.
  - apply str_lt_head. reflexivity.
Defined.

(** ** main: a run that succeeds, a run that fails *)

Section ScriptRuns.
Variable json_load : str -> result json.
Variable json_dump : json -> str.
Variable Path : str -> str.



End ScriptRuns.







(** ** anonymize on the heap and on values *)

Module HeapRefinement.
Import HeapProperties.
#[local] Open Scope nat_scope.

Lemma rep_in_JArr D h js v :
  rep_in D h (JArr js) v <->
  exists l vs, v = Heap.VRef l /\ D l /\ nth_error h l = Some (Heap.OList vs) /\
               Forall2 (rep_in D h) js vs.
Proof.
  cbn [rep_in]. split; intros (l & vs & Hv & HD & Hl & H); exists l, vs;
    (split; [exact Hv | split; [exact HD | split; [exact Hl |]]]); clear Hv Hl.
  - revert vs H. induction js as [|j js IH]; intros [|v' vs] H;
      try contradiction; constructor; [apply H | apply IH, H].
  - induction H as [|j v' js vs Hj _ IH]; [exact I | split; [exact Hj | exact IH]].
Qed.

Lemma rep_in_JObj D h fs v :
  rep_in D h (JObj fs) v <->
  exists l kvs, v = Heap.VRef l /\ D l /\ nth_error h l = Some (Heap.ODict kvs) /\
                Forall2 (field_in D h) fs kvs.
Proof.
  cbn [rep_in]. split; intros (l & kvs & Hv & HD & Hl & H); exists l, kvs;
    (split; [exact Hv | split; [exact HD | split; [exact Hl |]]]); clear Hv Hl.
  - revert kvs H. induction fs as [|[k j] fs IH]; intros [|[hk v'] kvs] H;
      try contradiction; constructor.
    + split; [apply H | apply H].
    + apply IH, H.
  - induction H as [|[k j] [hk v'] fs kvs [Hk Hj] _ IH]; [exact I |].
    cbn in Hk, Hj. split; [exact Hk | split; [exact Hj | exact IH]].
Qed.

(** An induction on JSON values that reaches the items and the fields. *)
Lemma json_nested_ind (P : json -> Prop) :
  P JNull -> (forall b, P (JBool b)) -> (forall z, P (JInt z)) ->
  (forall s, P (JStr s)) ->
  (forall js, Forall P js -> P (JArr js)) ->
  (forall fs, Forall (fun f => P (snd f)) fs -> P (JObj fs)) ->
  forall j, P j.
Proof.
  intros Hnull Hbool Hint Hstr Harr Hobj.
  fix IH 1. intros [| b | z | s | js | fs].
  - exact Hnull.
  - apply Hbool.
  - apply Hint.
  - apply Hstr.
  - apply Harr. induction js as [|j js IHjs]; constructor; [apply IH | exact IHjs].
  - apply Hobj. induction fs as [|[k j] fs IHfs]; constructor; [apply IH | exact IHfs].
Qed.

Lemma Forall2_impl_In {A B} (R R' : A -> B -> Prop) l l' :
  Forall (fun x => forall y, R x y -> R' x y) l ->
  Forall2 R l l' -> Forall2 R' l l'.
Proof.
  intros Hall H. induction H as [|x y l l' Hxy _ IH]; constructor;
    inversion Hall; subst; auto.
Qed.

(** What stands for a value keeps standing for it when the objects it
    goes through are kept. *)
Lemma rep_in_mono (D D' : Heap.loc -> Prop) (h h' : Heap.heap) :
  (forall l o, D l -> nth_error h l = Some o -> D' l /\ nth_error h' l = Some o) ->
  forall j v, rep_in D h j v -> rep_in D' h' j v.
Proof.
  intros Hm j. induction j as [| b | z | s | js IH | fs IH] using json_nested_ind;
    intros v; try (cbn; tauto).
  - rewrite !rep_in_JArr. intros (l & vs & -> & HD & Hl & H). exists l, vs.
    destruct (Hm l _ HD Hl) as [HD' Hl'].
    split; [reflexivity | split; [exact HD' | split; [exact Hl' |]]].
    eapply Forall2_impl_In; [| exact H]. exact IH.
  - rewrite !rep_in_JObj. intros (l & kvs & -> & HD & Hl & H). exists l, kvs.
    destruct (Hm l _ HD Hl) as [HD' Hl'].
    split; [reflexivity | split; [exact HD' | split; [exact Hl' |]]].
    eapply Forall2_impl_In; [| exact H].
    eapply Forall_impl; [| exact IH].
    intros [k j] Hj [hk v] [Hkey Hrep]. split; [exact Hkey | apply Hj, Hrep].
Qed.

Lemma Forall2_rep_in_mono (D D' : Heap.loc -> Prop) (h h' : Heap.heap) js vs :
  (forall l o, D l -> nth_error h l = Some o -> D' l /\ nth_error h' l = Some o) ->
  Forall2 (rep_in D h) js vs -> Forall2 (rep_in D' h') js vs.
Proof.
  intros Hm H. eapply Forall2_impl; [| exact H].
  intros j v. apply rep_in_mono, Hm.
Qed.

Lemma field_in_mono (D D' : Heap.loc -> Prop) (h h' : Heap.heap) fs kvs :
  (forall l o, D l -> nth_error h l = Some o -> D' l /\ nth_error h' l = Some o) ->
  Forall2 (field_in D h) fs kvs -> Forall2 (field_in D' h') fs kvs.
Proof.
  intros Hm H. eapply Forall2_impl; [| exact H].
  intros f kv [Hk Hv]. split; [exact Hk | eapply rep_in_mono; eassumption].
Qed.

Lemma nth_error_update_same h : forall l o,
  l < length h -> nth_error (Heap.update h l o) l = Some o.
Proof.
  induction h as [|o' h IH]; intros [|l] o Hl; cbn in *; try lia; auto.
  apply IH. lia.
Qed.

Lemma nth_error_length (h : Heap.heap) o : nth_error (h ++ [o]) (length h) = Some o.
Proof. rewrite nth_error_app2, Nat.sub_diag by lia. reflexivity. Qed.

Lemma nth_error_lt (h : Heap.heap) l o : nth_error h l = Some o -> l < length h.
Proof. intros H. apply nth_error_Some. congruence. Qed.

Lemma keeps_trans h0 h1 h2 : keeps h0 h1 -> keeps h1 h2 -> keeps h0 h2.
Proof.
  intros (n1 & ->) (n2 & ->). exists (n1 ++ n2). rewrite app_assoc. reflexivity.
Qed.

Lemma bind_assoc {A B C} (c : result A) (k : A -> result B) (k' : B -> result C) :
  bind (bind c k) k'
  = bind c (fun a => bind (k a) k').
Proof. destruct c; reflexivity. Qed.

(** *** The mapping in the heap *)

Lemma mapping_fields_get mapping k :
  dict_get hkey_eqb (mapping_fields mapping) k
  = option_map Heap.VStr (dict_get hkey_eqb mapping k).
Proof.
  induction mapping as [|[k' s] mapping IH]; cbn; [reflexivity |].
  destruct (hkey_eqb k' k); [reflexivity | exact IH].
Qed.

Lemma mapping_fields_set mapping k s :
  dict_set hkey_eqb (mapping_fields mapping) k (Heap.VStr s)
  = mapping_fields (dict_set hkey_eqb mapping k s).
Proof.
  induction mapping as [|[k' s'] mapping IH]; cbn; [reflexivity |].
  destruct (hkey_eqb k' k); cbn; [reflexivity |]. f_equal. exact IH.
Qed.

Lemma mapping_fields_of_pairs ks labels :
  dict_of_pairs hkey_eqb (combine ks (map Heap.VStr labels))
  = mapping_fields (dict_of_pairs hkey_eqb (combine ks labels)).
Proof.
  unfold dict_of_pairs.
  change (@nil (hkey * Heap.val)) with (mapping_fields []).
  generalize (@nil (hkey * str)) as acc. revert labels.
  induction ks as [|k ks IH]; intros [|s labels] acc; cbn; try reflexivity.
  rewrite mapping_fields_set. apply IH.
Qed.

Section Simulation.
(** The heap before the call. *)
Variable h0 : Heap.heap.

(** A computation on values and a statement on the heap that agree, from
    every heap where [P] holds; [Q] holds for their results. *)
Definition agree {A B} (Q : A -> B -> Heap.heap -> Prop) (c : result A)
  (run : Heap.heap * result B) : Prop :=
  same_outcome (fun a b => Q a b (fst run)) c (snd run).

Definition sim {A B} (P : Heap.heap -> Prop) (c : result A) (m : Heap.M B)
  (Q : A -> B -> Heap.heap -> Prop) : Prop :=
  forall h, P h -> agree Q c (m h).

Lemma sim_bind {A B A' B'} P (c : result A) (m : Heap.M B) Q
  (k : A -> result A') (k' : B -> Heap.M B') R :
  sim P c m Q -> (forall a b, sim (Q a b) (k a) (k' b) R) ->
  sim P (bind c k) (Heap.bind m k') R.
Proof.
  intros Hm Hk h Hh. specialize (Hm h Hh). unfold Heap.bind, agree in *.
  destruct c as [a | e], (m h) as [h' [b | e']]; cbn in *; try contradiction.
  - apply (Hk a b h' Hm).
  - exact Hm.
Qed.

Lemma sim_pre {A B} (P P' : Heap.heap -> Prop) (c : result A) (m : Heap.M B) Q :
  (forall h, P' h -> P h) -> sim P c m Q -> sim P' c m Q.
Proof. intros HP Hm h Hh. apply Hm, HP, Hh. Qed.

Lemma sim_post {A B} P (c : result A) (m : Heap.M B) (Q Q' : A -> B -> Heap.heap -> Prop) :
  (forall a b h, Q a b h -> Q' a b h) -> sim P c m Q -> sim P c m Q'.
Proof.
  intros HQ Hm h Hh. specialize (Hm h Hh). unfold agree in *.
  destruct c as [a | e], (snd (m h)) as [b | e']; cbn in *; auto.
Qed.

(** A fact that does not depend on the heap may be assumed. *)
Lemma sim_assume {A B} (F : Prop) P (c : result A) (m : Heap.M B) Q :
  (F -> sim P c m Q) -> sim (fun h => P h /\ F) c m Q.
Proof. intros H h [Hh HF]. apply (H HF h Hh). Qed.

Lemma sim_reading {A B} P (c : result A) (f : Heap.heap -> result B) (R : A -> B -> Prop) :
  (forall h, P h -> same_outcome R c (f h)) ->
  sim P c (Heap.reading f) (fun a b h => P h /\ R a b).
Proof.
  intros H h Hh. specialize (H h Hh). unfold Heap.reading, agree. cbn [fst snd].
  destruct c, (f h); cbn in *; auto.
Qed.

(** A statement on the heap that allocates, with no counterpart on values. *)
Lemma sim_alloc {A B} P (c : result A) o (k' : Heap.val -> Heap.M B) Q :
  (forall hp, P hp ->
     sim (fun h => h = hp ++ [o]) c (k' (Heap.VRef (length hp))) Q) ->
  sim P c (Heap.bind (Heap.alloc o) k') Q.
Proof.
  intros H h Hh. unfold Heap.bind, Heap.alloc. apply (H h Hh). reflexivity.
Qed.

(** Two loops that agree when their bodies do, under an invariant that
    follows the state of the loop on values. *)
Lemma sim_for_each {A B S} (E : A -> B -> Prop) (Inv : S -> Heap.heap -> Prop)
  (body : S -> A -> result S) (body' : B -> Heap.M unit) xs ys :
  (forall s x y, E x y -> sim (Inv s) (body s x) (body' y) (fun s' _ h => Inv s' h)) ->
  Forall2 E xs ys ->
  forall s, sim (Inv s) (for_each xs body s) (Heap.for_each ys body')
                (fun s' _ h => Inv s' h).
Proof.
  intros Hbody H. induction H as [|x y xs ys Hxy _ IH]; intros s.
  - intros h Hh. exact Hh.
  - cbn [for_each Heap.for_each].
    eapply sim_bind; [apply Hbody, Hxy | intros s' u; apply IH].
Qed.

(** *** Reading values that stand for JSON *)

Definition shape_of (j : json) (sh : Heap.shape) : Prop :=
  match j, sh with
  | JNull, Heap.SNone => True
  | JBool b, Heap.SBool b' => b = b'
  | JInt z, Heap.SInt z' => z = z'
  | JStr s, Heap.SStr s' => s = s'
  | JArr js, Heap.SList _ vs => Forall2 (rep h0) js vs
  | JObj fs, Heap.SDict _ kvs => Forall2 (rep_field h0) fs kvs
  | _, _ => False
  end.

Lemma rep_view h j v : keeps h0 h -> rep h0 j v -> shape_of j (Heap.view h v).
Proof.
  intros Hk Hrep. unfold rep in Hrep. destruct j as [| b | z | s | js | fs].
  - cbn in Hrep. subst. exact I.
  - cbn in Hrep. subst. reflexivity.
  - cbn in Hrep. subst. reflexivity.
  - cbn in Hrep. subst. reflexivity.
  - apply rep_in_JArr in Hrep. destruct Hrep as (l & vs & -> & _ & Hl & H).
    cbn. rewrite (keeps_nth_error h0 h l _ Hk Hl). exact H.
  - apply rep_in_JObj in Hrep. destruct Hrep as (l & kvs & -> & _ & Hl & H).
    cbn. rewrite (keeps_nth_error h0 h l _ Hk Hl). exact H.
Qed.

Lemma hash_rep D h j v : rep_in D h j v -> Heap.hash_val v = hash_key j.
Proof.
  destruct j; cbn; try (intros ->; reflexivity).
  - intros (l & vs & -> & _). reflexivity.
  - intros (l & kvs & -> & _). reflexivity.
Qed.

Lemma fields_get D h fs kvs key :
  Forall2 (field_in D h) fs kvs ->
  match dict_get str_eqb fs key, dict_get hkey_eqb kvs (HStr key) with
  | Some j, Some v => rep_in D h j v
  | None, None => True
  | _, _ => False
  end.
Proof.
  induction 1 as [|[k j] [hk v] fs kvs [Hk Hj] _ IH]; cbn in *; [exact I |].
  subst hk. cbn [hkey_eqb]. destruct (str_eqb k key); [exact Hj | exact IH].
Qed.

Lemma fields_set D h fs kvs key j v :
  Forall2 (field_in D h) fs kvs -> rep_in D h j v ->
  Forall2 (field_in D h) (dict_set str_eqb fs key j)
          (dict_set hkey_eqb kvs (HStr key) v).
Proof.
  intros H Hjv. induction H as [|[k j'] [hk v'] fs kvs [Hk Hj] Hrest IH]; cbn in *.
  - constructor; [split; [reflexivity | exact Hjv] | constructor].
  - subst hk. cbn [hkey_eqb]. destruct (str_eqb k key).
    + constructor; [split; [reflexivity | exact Hjv] | exact Hrest].
    + constructor; [split; [reflexivity | exact Hj] | exact IH].
Qed.

Lemma rep_is_str D h key j v : rep_in D h j v -> Heap.is_VStr key v = is_JStr key j.
Proof.
  destruct j; cbn; try (intros ->; reflexivity).
  - intros (l & vs & -> & _). reflexivity.
  - intros (l & kvs & -> & _). reflexivity.
Qed.

Lemma py_iter_rep h j v :
  keeps h0 h -> rep h0 j v ->
  same_outcome (Forall2 (rep h0)) (py_iter j) (snd (Heap.py_iter v h)).
Proof.
  intros Hk Hrep. pose proof (rep_view h j v Hk Hrep) as Hv. clear Hrep.
  unfold Heap.py_iter, Heap.reading. cbn [snd].
  destruct j, (Heap.view h v); cbn in *; try contradiction; try reflexivity.
  - subst. induction s0 as [|c s IH]; cbn; constructor; [reflexivity | exact IH].
  - exact Hv.
  - induction Hv as [|[k j] [hk w] fs kvs [Hkey _] _ IH]; cbn in *; constructor.
    + subst hk. reflexivity.
    + exact IH.
Qed.

Lemma py_get_rep h j v key dj dv :
  keeps h0 h -> rep h0 j v ->
  same_outcome (fun rj rv => rep h0 rj rv \/ (rj = dj /\ rv = dv))
               (py_get j key dj) (snd (Heap.py_get v key dv h)).
Proof.
  intros Hk Hrep. pose proof (rep_view h j v Hk Hrep) as Hv. clear Hrep.
  unfold Heap.py_get, Heap.reading. cbn [snd].
  destruct j, (Heap.view h v); cbn in *; try contradiction; try reflexivity.
  pose proof (fields_get _ _ _ _ key Hv) as Hget.
  destruct (dict_get str_eqb fields key), (dict_get hkey_eqb fields0 (HStr key));
    cbn; try contradiction; auto.
Qed.

Lemma py_contains_rep h j v key :
  keeps h0 h -> rep h0 j v ->
  same_outcome eq (py_contains j key) (snd (Heap.py_contains v key h)).
Proof.
  intros Hk Hrep. pose proof (rep_view h j v Hk Hrep) as Hv. clear Hrep.
  unfold Heap.py_contains, Heap.reading. cbn [snd].
  destruct j, (Heap.view h v); cbn in *; try contradiction; try reflexivity.
  - subst. reflexivity.
  - induction Hv as [|j w js vs Hj _ IH]; cbn; [reflexivity |].
    rewrite (rep_is_str _ _ key j w Hj), IH. reflexivity.
  - pose proof (fields_get _ _ _ _ key Hv) as Hget. unfold dict_contains.
    destruct (dict_get str_eqb fields key), (dict_get hkey_eqb fields0 (HStr key));
      try contradiction; reflexivity.
Qed.

Lemma py_getitem_rep h j v key :
  keeps h0 h -> rep h0 j v ->
  same_outcome (rep h0) (py_getitem j key) (snd (Heap.py_getitem v (HStr key) h)).
Proof.
  intros Hk Hrep. pose proof (rep_view h j v Hk Hrep) as Hv. clear Hrep.
  unfold Heap.py_getitem, Heap.reading. cbn [snd].
  destruct j, (Heap.view h v); cbn in *; try contradiction; try reflexivity.
  pose proof (fields_get _ _ _ _ key Hv) as Hget.
  destruct (dict_get str_eqb fields key), (dict_get hkey_eqb fields0 (HStr key));
    cbn; try contradiction; auto.
Qed.

(** *** The entries of a room *)

Lemma room_entries_run v h :
  Heap.room_entries v h
  = (h ++ [Heap.OList []],
     bind
       (snd (Heap.py_get v (lit "entries") (Heap.VRef (length h)) (h ++ [Heap.OList []])))
       (fun ev => snd (Heap.py_iter ev (h ++ [Heap.OList []])))).
Proof.
  unfold Heap.room_entries, Heap.bind, Heap.alloc, Heap.py_get, Heap.py_iter, Heap.reading. cbn [snd].
  destruct (Heap.view (h ++ [Heap.OList []]) v); try reflexivity.
  destruct (dict_get hkey_eqb fields (HStr (lit "entries"))); reflexivity.
Qed.

Lemma room_entries_rep h j v :
  keeps h0 h -> rep h0 j v ->
  fst (Heap.room_entries v h) = h ++ [Heap.OList []] /\
  same_outcome (Forall2 (rep h0)) (room_entries j) (snd (Heap.room_entries v h)).
Proof.
  intros Hk Hrep. rewrite room_entries_run. cbn [fst snd].
  split; [reflexivity |].
  assert (Hk1 : keeps h0 (h ++ [Heap.OList []])) by apply keeps_alloc, Hk.
  pose proof (py_get_rep _ j v (lit "entries") (JArr []) (Heap.VRef (length h)) Hk1 Hrep)
    as Hget.
  unfold room_entries.
  destruct (py_get j (lit "entries") (JArr [])) as [ej | e],
           (snd (Heap.py_get v (lit "entries") (Heap.VRef (length h)) (h ++ [Heap.OList []])))
             as [ev | e']; cbn in Hget; try contradiction.
  - cbn [bind]. destruct Hget as [Hev | [-> ->]].
    + apply (py_iter_rep _ ej ev Hk1 Hev).
    + unfold Heap.py_iter, Heap.reading. cbn [Heap.view snd]. rewrite nth_error_length.
      cbn. constructor.
  - exact Hget.
Qed.

Lemma sim_room_entries (P : Heap.heap -> Prop) j v :
  (forall h, P h -> keeps h0 h) -> (forall h o, P h -> P (h ++ [o])) ->
  rep h0 j v ->
  sim P (room_entries j) (Heap.room_entries v)
      (fun js vs h => P h /\ Forall2 (rep h0) js vs).
Proof.
  intros HPk HPa Hrep h Hh.
  destruct (room_entries_rep h j v (HPk h Hh) Hrep) as [Hfst Hsnd].
  unfold agree. rewrite Hfst.
  destruct (room_entries j), (snd (Heap.room_entries v h)); cbn in *; auto.
Qed.

(** *** The first loop *)

(** While the titles are collected, the list at [t] holds them. *)
Definition collecting (t : Heap.loc) (titles : list json) (h : Heap.heap) : Prop :=
  keeps h0 h /\ length h0 <= t /\
  exists tvs, nth_error h t = Some (Heap.OList tvs) /\ Forall2 (rep h0) titles tvs.

Lemma collecting_keeps t titles h : collecting t titles h -> keeps h0 h.
Proof. intros [H _]. exact H. Qed.

Lemma collecting_alloc t titles h o :
  collecting t titles h -> collecting t titles (h ++ [o]).
Proof.
  intros (Hk & Ht & tvs & Hn & HF). split; [apply keeps_alloc, Hk |].
  split; [exact Ht |]. exists tvs. split; [apply nth_error_alloc, Hn | exact HF].
Qed.

Lemma sim_titles_append t titles tj tv :
  sim (fun h => collecting t titles h /\ rep h0 tj tv)
      (Ok (titles ++ [tj])) (Heap.list_append (Heap.VRef t) tv)
      (fun titles' _ h => collecting t titles' h).
Proof.
  intros h [(Hk & Ht & tvs & Hn & HF) Hrep].
  unfold Heap.list_append, agree. cbn [Heap.view]. rewrite Hn. cbn.
  split; [apply keeps_update; assumption |]. split; [exact Ht |].
  exists (tvs ++ [tv]). split.
  - apply nth_error_update_same. eapply nth_error_lt, Hn.
  - apply Forall2_app; [exact HF | constructor; [exact Hrep | constructor]].
Qed.

Lemma sim_collect_entry t titles ej ev :
  rep h0 ej ev ->
  sim (collecting t titles)
      (has_title <- py_contains ej (lit "title") ;;
       if has_title : bool
       then title <- py_getitem ej (lit "title") ;; Ok (titles ++ [title])
       else Ok titles)
      (Heap.bind (Heap.py_contains ev (lit "title")) (fun has_title =>
         if has_title : bool
         then Heap.bind (Heap.py_getitem ev (HStr (lit "title")))
                        (fun title => Heap.list_append (Heap.VRef t) title)
         else Heap.ret tt))
      (fun titles' _ h => collecting t titles' h).
Proof.
  intros Hrep. eapply sim_bind.
  - apply sim_reading with (R := eq). intros h Hh.
    apply (py_contains_rep h ej ev (lit "title") (collecting_keeps _ _ _ Hh) Hrep).
  - intros b b'. apply sim_assume. intros <-. destruct b.
    + eapply sim_bind.
      * apply sim_reading with (R := rep h0). intros h Hh.
        apply (py_getitem_rep h ej ev (lit "title") (collecting_keeps _ _ _ Hh) Hrep).
      * intros tj tv. apply sim_titles_append.
    + intros h Hh. exact Hh.
Qed.

Lemma sim_collect_titles t rooms rooms' :
  Forall2 (rep h0) rooms rooms' ->
  sim (collecting t [])
      (collect_titles rooms)
      (Heap.for_each rooms' (fun room =>
         Heap.bind (Heap.room_entries room) (fun entries =>
           Heap.for_each entries (fun entry =>
             Heap.bind (Heap.py_contains entry (lit "title")) (fun has_title =>
               if has_title : bool
               then Heap.bind (Heap.py_getitem entry (HStr (lit "title")))
                              (fun title => Heap.list_append (Heap.VRef t) title)
               else Heap.ret tt)))))
      (fun titles _ h => collecting t titles h).
Proof.
  intros Hrooms. unfold collect_titles.
  apply (sim_for_each (rep h0) (collecting t)); [| exact Hrooms].
  intros titles rj rv Hr. eapply sim_bind.
  - apply (sim_room_entries (collecting t titles)); [| | exact Hr].
    + apply collecting_keeps.
    + intros h o. apply collecting_alloc.
  - intros ejs evs. apply sim_assume. intros Hes.
    apply (sim_for_each (rep h0) (collecting t)); [| exact Hes].
    intros titles' ej ev He. apply sim_collect_entry, He.
Qed.

(** *** build_mapping *)

Lemma for_each_hash_rep D h js vs :
  Forall2 (rep_in D h) js vs ->
  forall acc,
    for_each vs (fun acc v => k <- Heap.hash_val v ;; Ok (acc ++ [k])) acc
    = for_each js (fun acc v => k <- hash_key v ;; Ok (acc ++ [k])) acc.
Proof.
  induction 1 as [|j v js vs Hjv _ IH]; intros acc; cbn; [reflexivity |].
  rewrite (hash_rep _ _ j v Hjv). destruct (hash_key j); cbn; [apply IH | reflexivity].
Qed.

Lemma set_of_rep D h js vs :
  Forall2 (rep_in D h) js vs -> set_of Heap.hash_val vs = py_set js.
Proof.
  intros H. unfold py_set, set_of. rewrite (for_each_hash_rep _ _ _ _ H). reflexivity.
Qed.

(** The heap once the mapping is built: it is the newest object. *)
Definition mapped (mapping : dict hkey str) (mv : Heap.val) (h : Heap.heap) : Prop :=
  exists hp, keeps h0 hp /\ h = hp ++ [Heap.ODict (mapping_fields mapping)] /\
             mv = Heap.VRef (length hp).

Lemma sim_build_mapping t titles :
  sim (collecting t titles) (build_mapping titles) (Heap.build_mapping (Heap.VRef t))
      mapped.
Proof.
  intros h (Hk & Ht & tvs & Hn & HF).
  unfold Heap.build_mapping, build_mapping, Heap.bind, Heap.py_iter, Heap.reading, agree.
  cbn [Heap.view]. rewrite Hn. rewrite (set_of_rep _ _ _ _ HF).
  destruct (py_set titles) as [title_set | e]; cbn; [| reflexivity].
  destruct (py_sorted title_set) as [unique_titles | e]; cbn; [| reflexivity].
  exists h. split; [exact Hk |]. rewrite mapping_fields_of_pairs. auto.
Qed.

(** *** Statements run on objects that are known *)

Lemma py_dict_run h l kvs :
  nth_error h l = Some (Heap.ODict kvs) ->
  Heap.py_dict (Heap.VRef l) h = (h ++ [Heap.ODict kvs], Ok (Heap.VRef (length h))).
Proof. intros H. unfold Heap.py_dict. cbn [Heap.view]. rewrite H. reflexivity. Qed.

Lemma py_get_run h l kvs key d :
  nth_error h l = Some (Heap.ODict kvs) ->
  Heap.py_get (Heap.VRef l) key d h
  = (h, Ok match dict_get hkey_eqb kvs (HStr key) with Some v => v | None => d end).
Proof.
  intros H. unfold Heap.py_get, Heap.reading. cbn [Heap.view]. rewrite H.
  destruct (dict_get hkey_eqb kvs (HStr key)); reflexivity.
Qed.

Lemma py_in_run h l kvs v :
  nth_error h l = Some (Heap.ODict kvs) ->
  Heap.py_in (Heap.VRef l) v h
  = (h, match Heap.hash_val v with
        | Ok k => Ok (dict_contains hkey_eqb kvs k)
        | Raise e => Raise e
        end).
Proof. intros H. unfold Heap.py_in, Heap.reading. cbn [Heap.view]. rewrite H. reflexivity. Qed.

Lemma py_getitem_run h l kvs k :
  nth_error h l = Some (Heap.ODict kvs) ->
  Heap.py_getitem (Heap.VRef l) k h
  = (h, match dict_get hkey_eqb kvs k with
        | Some v => Ok v
        | None => Raise KeyError
        end).
Proof. intros H. unfold Heap.py_getitem, Heap.reading. cbn [Heap.view]. rewrite H. reflexivity. Qed.

Lemma py_setitem_run h l kvs k v :
  nth_error h l = Some (Heap.ODict kvs) ->
  Heap.py_setitem (Heap.VRef l) k v h = (Heap.update h l (Heap.ODict (dict_set hkey_eqb kvs k v)), Ok tt).
Proof. intros H. unfold Heap.py_setitem. cbn [Heap.view]. rewrite H. reflexivity. Qed.

Lemma list_append_run h l vs v :
  nth_error h l = Some (Heap.OList vs) ->
  Heap.list_append (Heap.VRef l) v h = (Heap.update h l (Heap.OList (vs ++ [v])), Ok tt).
Proof. intros H. unfold Heap.list_append. cbn [Heap.view]. rewrite H. reflexivity. Qed.

(** *** Objects that are kept *)

(** The objects of [h] at the locations in [D] are in [D'] and the same
    in [h']. *)
Definition kept (D : Heap.loc -> Prop) (h : Heap.heap) (D' : Heap.loc -> Prop) (h' : Heap.heap) : Prop :=
  forall l o, D l -> nth_error h l = Some o -> D' l /\ nth_error h' l = Some o.

(** The locations below [n] that are not in [xs]. *)
Definition outside (xs : list Heap.loc) (n : nat) (l : Heap.loc) : Prop :=
  l < n /\ ~ In l xs.

Lemma kept_trans D1 h1 D2 h2 D3 h3 :
  kept D1 h1 D2 h2 -> kept D2 h2 D3 h3 -> kept D1 h1 D3 h3.
Proof.
  intros H12 H23 l o HD Hl. destruct (H12 l o HD Hl) as [HD2 Hl2].
  apply (H23 l o HD2 Hl2).
Qed.

Lemma kept_alloc D h o : kept D h D (h ++ [o]).
Proof. intros l o' HD Hl. split; [exact HD | apply nth_error_alloc, Hl]. Qed.

Lemma kept_update_new xs n h l o :
  n <= l -> kept (outside xs n) h (outside xs n) (Heap.update h l o).
Proof.
  intros Hn l' o' [Hlt Hout] Hl'. split; [split; assumption |].
  rewrite nth_error_update_other by lia. exact Hl'.
Qed.

Lemma kept_update_out xs n h l o :
  In l xs -> kept (outside xs n) h (outside xs n) (Heap.update h l o).
Proof.
  intros Hin l' o' [Hlt Hout] Hl'. split; [split; assumption |].
  rewrite nth_error_update_other; [exact Hl' |]. intros ->. contradiction.
Qed.

Lemma kept_weaken xs xs' n n' h :
  n <= n' -> incl xs' xs -> kept (outside xs n) h (outside xs' n') h.
Proof.
  intros Hn Hincl l o [Hlt Hout] Hl. split; [| exact Hl].
  split; [lia |]. intros Hin. apply Hout, Hincl, Hin.
Qed.

Lemma kept_anywhere D h : kept D h anywhere h.
Proof. intros l o _ Hl. split; [exact I | exact Hl]. Qed.

Lemma kept_keeps xs n h :
  keeps h0 h -> length h0 <= n -> Forall (fun x => length h0 <= x) xs ->
  kept anywhere h0 (outside xs n) h.
Proof.
  intros Hk Hn Hxs l o _ Hl. pose proof (nth_error_lt _ _ _ Hl) as Hlt.
  split; [| eapply keeps_nth_error; eassumption].
  split; [lia |]. intros Hin.
  rewrite Forall_forall in Hxs. specialize (Hxs l Hin). lia.
Qed.

Lemma kept_keeps_below xs h1 h :
  keeps h1 h -> kept (outside xs (length h1)) h1 (outside xs (length h)) h.
Proof.
  intros Hk l o [Hlt Hout] Hl. pose proof (keeps_length _ _ Hk).
  split; [split; [lia | exact Hout] | eapply keeps_nth_error; eassumption].
Qed.

(** *** The second loop *)

Section Second.
(** The mapping, the dict at [m] that holds it, and the list [a] of the
    rooms. *)
Variables (mapping : dict hkey str) (m a : Heap.loc).
Hypothesis Ha : length h0 <= a.
Hypothesis Hma : m <> a.

(** The rooms done so far are in the list at [a]. *)
Definition rooms_done (racc : list json) (h : Heap.heap) : Prop :=
  keeps h0 h /\ nth_error h m = Some (Heap.ODict (mapping_fields mapping)) /\
  exists rvs, nth_error h a = Some (Heap.OList rvs) /\
              Forall2 (rep_in (outside [a] (length h)) h) racc rvs.

Definition room_fields (room_id : Heap.val) (e : Heap.loc) : list (hkey * Heap.val) :=
  [(HStr (lit "room"), room_id); (HStr (lit "entries"), Heap.VRef e)].

(** The body of the inner loop. *)
Definition entry_statement (new_room : Heap.val) (entry : Heap.val) : Heap.M unit :=
  Heap.bind (Heap.py_dict entry) (fun new_entry =>
  Heap.bind (Heap.py_get entry (lit "title") Heap.VNone) (fun title =>
  Heap.bind (Heap.py_in (Heap.VRef m) title) (fun mapped =>
  Heap.bind (if mapped : bool
             then Heap.bind (Heap.reading (fun _ => Heap.hash_val title)) (fun k =>
                  Heap.bind (Heap.py_getitem (Heap.VRef m) k) (fun label =>
                  Heap.py_setitem new_entry (HStr (lit "title")) label))
             else Heap.ret tt) (fun _ =>
  Heap.bind (Heap.py_getitem new_room (HStr (lit "entries"))) (fun target =>
  Heap.list_append target new_entry))))).

(** The body of the outer loop. *)
Definition room_statement (room : Heap.val) : Heap.M unit :=
  Heap.bind (Heap.py_get room (lit "room") Heap.VNone) (fun room_id =>
  Heap.bind (Heap.alloc (Heap.OList [])) (fun new_entries =>
  Heap.bind (Heap.alloc (Heap.ODict [(HStr (lit "room"), room_id);
                           (HStr (lit "entries"), new_entries)])) (fun new_room =>
  Heap.bind (Heap.room_entries room) (fun entries =>
  Heap.bind (Heap.for_each entries (entry_statement new_room)) (fun _ =>
  Heap.list_append (Heap.VRef a) new_room))))).

Section Room.
(** The heap [h1] when the room is begun, the rooms done before and the
    room's id. *)
Variables (h1 : Heap.heap) (racc : list json) (ridj : json) (ridv : Heap.val).
Hypothesis Hdone : rooms_done racc h1.
Hypothesis Hrid : rep h0 ridj ridv.

(** The entries done so far are in the list at [length h1], which the dict
    of the new room, at the next location, refers to. *)
Definition entries_done (eacc : list json) (h : Heap.heap) : Prop :=
  keeps h1 h /\
  nth_error h (S (length h1)) = Some (Heap.ODict (room_fields ridv (length h1))) /\
  exists evs, nth_error h (length h1) = Some (Heap.OList evs) /\
              Forall2 (rep_in (outside [a; length h1] (length h)) h) eacc evs.

Lemma rooms_done_a : a < length h1.
Proof. destruct Hdone as (_ & _ & rvs & H & _). eapply nth_error_lt, H. Qed.

Lemma entries_done_keeps eacc h : entries_done eacc h -> keeps h0 h.
Proof.
  intros [H _]. destruct Hdone as (Hk & _). eapply keeps_trans; eassumption.
Qed.

Lemma entries_done_alloc eacc h o :
  entries_done eacc h -> entries_done eacc (h ++ [o]).
Proof.
  intros (Hk & Hr & evs & He & HF). split; [apply keeps_alloc, Hk |].
  split; [apply nth_error_alloc, Hr |]. exists evs.
  split; [apply nth_error_alloc, He |].
  eapply Forall2_rep_in_mono; [| exact HF].
  eapply kept_trans; [apply kept_alloc |].
  apply kept_weaken; [rewrite length_app; lia | apply incl_refl].
Qed.

Lemma entries_done_mapping eacc h :
  entries_done eacc h -> nth_error h m = Some (Heap.ODict (mapping_fields mapping)).
Proof.
  intros [Hk _]. destruct Hdone as (_ & Hm & _).
  eapply keeps_nth_error; eassumption.
Qed.

(** The new entry is put at the end of the entries of the new room. *)
Lemma entry_append_run eacc evs h ne nj :
  keeps h1 h ->
  nth_error h (S (length h1)) = Some (Heap.ODict (room_fields ridv (length h1))) ->
  nth_error h (length h1) = Some (Heap.OList evs) ->
  Forall2 (rep_in (outside [a; length h1] (length h)) h) eacc evs ->
  rep_in (outside [a; length h1] (length h)) h nj (Heap.VRef ne) ->
  snd (Heap.bind (Heap.py_getitem (Heap.VRef (S (length h1))) (HStr (lit "entries")))
                 (fun target => Heap.list_append target (Heap.VRef ne)) h) = Ok tt /\
  entries_done (eacc ++ [nj])
    (fst (Heap.bind (Heap.py_getitem (Heap.VRef (S (length h1))) (HStr (lit "entries")))
                    (fun target => Heap.list_append target (Heap.VRef ne)) h)).
Proof.
  intros Hk Hr He HF Hnj. unfold Heap.bind.
  rewrite (py_getitem_run _ _ _ _ Hr).
  change (dict_get hkey_eqb (room_fields ridv (length h1)) (HStr (lit "entries")))
    with (Some (Heap.VRef (length h1))).
  cbv beta iota. rewrite (list_append_run _ _ _ _ He). cbn [fst snd].
  split; [reflexivity |].
  assert (Hkept : kept (outside [a; length h1] (length h)) h
                       (outside [a; length h1]
                          (length (Heap.update h (length h1) (Heap.OList (evs ++ [Heap.VRef ne])))))
                       (Heap.update h (length h1) (Heap.OList (evs ++ [Heap.VRef ne])))).
  { rewrite update_length. apply kept_update_out. right. left. reflexivity. }
  split; [apply keeps_update; [exact Hk | lia] |].
  split; [rewrite nth_error_update_other by lia; exact Hr |].
  exists (evs ++ [Heap.VRef ne]). split.
  - apply nth_error_update_same. eapply nth_error_lt, He.
  - apply Forall2_app.
    + eapply Forall2_rep_in_mono; [exact Hkept | exact HF].
    + constructor; [| constructor]. eapply rep_in_mono; [exact Hkept | exact Hnj].
Qed.

Lemma bind_run {A B} (c : Heap.M A) (k : A -> Heap.M B) h h' x :
  c h = (h', Ok x) -> Heap.bind c k h = k x h'.
Proof. intros H. unfold Heap.bind. rewrite H. reflexivity. Qed.

Lemma bind_run_raise {A B} (c : Heap.M A) (k : A -> Heap.M B) h h' e :
  c h = (h', Raise e) -> Heap.bind c k h = (h', Raise e).
Proof. intros H. unfold Heap.bind. rewrite H. reflexivity. Qed.

(** *** An entry that is a dict *)

Lemma sim_entry_dict eacc fs l kvs :
  nth_error h0 l = Some (Heap.ODict kvs) -> Forall2 (field_in anywhere h0) fs kvs ->
  sim (entries_done eacc)
      (new_entry <- anonymize_entry mapping (JObj fs) ;; Ok (eacc ++ [new_entry]))
      (entry_statement (Heap.VRef (S (length h1))) (Heap.VRef l))
      (fun eacc' _ h => entries_done eacc' h).
Proof.
  intros Hl Hfs h Hh.
  pose proof Hh as (Hk & Hr & evs & He & HF).
  pose proof (entries_done_keeps _ _ Hh) as Hk0.
  pose proof (entries_done_mapping _ _ Hh) as Hm.
  pose proof (keeps_nth_error _ _ _ _ Hk0 Hl) as Hlh.
  pose proof (fields_get _ _ _ _ (lit "title") Hfs) as Hget.
  pose proof rooms_done_a as Ha1. pose proof (nth_error_lt _ _ _ Hr) as Hlen.
  assert (Hk3 : forall h3, keeps h0 h3 -> length h < length h3 ->
            Forall2 (field_in (outside [a; length h1] (length h3)) h3) fs kvs).
  { intros h3 Hk3 Hlt. eapply field_in_mono; [| exact Hfs]. apply kept_keeps.
    - exact Hk3.
    - pose proof (keeps_length _ _ Hk3). lia.
    - destruct Hdone as (Hk1 & _). pose proof (keeps_length _ _ Hk1).
      repeat constructor; lia. }
  unfold entry_statement.
  rewrite (bind_run _ _ _ _ _ (py_dict_run _ _ _ Hlh)).
  rewrite (bind_run _ _ _ _ _
             (py_get_run _ _ _ (lit "title") Heap.VNone (nth_error_alloc _ _ _ _ Hlh))).
  cbn [anonymize_entry py_get].
  assert (Ht : exists tj tv,
            match dict_get str_eqb fs (lit "title") with
            | Some v => Ok v | None => Ok JNull end = Ok tj /\
            match dict_get hkey_eqb kvs (HStr (lit "title")) with
            | Some v => v | None => Heap.VNone end = tv /\
            rep h0 tj tv).
  { destruct (dict_get str_eqb fs (lit "title")) as [tj |],
             (dict_get hkey_eqb kvs (HStr (lit "title"))) as [tv |];
      try contradiction.
    - exists tj, tv. auto.
    - exists JNull, Heap.VNone. split; [reflexivity | split; reflexivity]. }
  destruct Ht as (tj & tv & -> & -> & Ht). clear Hget. cbn [bind].
  pose proof (hash_rep _ _ _ _ Ht) as Hhash.
  destruct (hash_key tj) as [k | e] eqn:Ek.
  2:{ rewrite (bind_run_raise _ _ _ (h ++ [Heap.ODict kvs]) e).
      - reflexivity.
      - rewrite (py_in_run _ _ _ _ (nth_error_alloc _ _ _ _ Hm)), Hhash. reflexivity. }
  cbn [bind].
  rewrite (bind_run _ _ _ (h ++ [Heap.ODict kvs])
                    (dict_contains hkey_eqb (mapping_fields mapping) k)).
  2:{ rewrite (py_in_run _ _ _ _ (nth_error_alloc _ _ _ _ Hm)), Hhash. reflexivity. }
  unfold dict_contains. rewrite mapping_fields_get.
  assert (Hold : Forall2 (rep_in (outside [a; length h1] (length h))
                                 (h ++ [Heap.ODict kvs])) eacc evs).
  { eapply Forall2_rep_in_mono; [apply kept_alloc | exact HF]. }
  assert (Hne : forall x, In x [a; length h1] -> x <> length h).
  { intros x [<- | [<- | []]]; lia. }
  destruct (dict_get hkey_eqb mapping k) as [label |] eqn:Elab; cbn [option_map].
  - rewrite (bind_run _ _ _ (Heap.update (h ++ [Heap.ODict kvs]) (length h)
                 (Heap.ODict (dict_set hkey_eqb kvs (HStr (lit "title")) (Heap.VStr label)))) tt).
    2:{ rewrite (bind_run _ _ _ (h ++ [Heap.ODict kvs]) k)
          by (unfold Heap.reading; rewrite Hhash; reflexivity).
        rewrite (bind_run _ _ _ (h ++ [Heap.ODict kvs]) (Heap.VStr label)).
        - apply py_setitem_run, nth_error_length.
        - rewrite (py_getitem_run _ _ _ _ (nth_error_alloc _ _ _ _ Hm)).
          rewrite mapping_fields_get, Elab. reflexivity. }
    match goal with |- agree _ _ (Heap.bind _ _ ?h3) =>
      destruct (entry_append_run eacc evs h3 (length h)
                  (JObj (dict_set str_eqb fs (lit "title") (JStr label))))
        as [Hsnd Hfst] end.
    + apply keeps_update; [apply keeps_alloc, Hk | lia].
    + rewrite nth_error_update_other by lia. apply nth_error_alloc, Hr.
    + rewrite nth_error_update_other by lia. apply nth_error_alloc, He.
    + rewrite update_length, length_app. cbn [length].
      eapply Forall2_rep_in_mono; [| exact Hold].
      eapply kept_trans; [apply kept_update_new, Nat.le_refl |].
      apply kept_weaken; [lia | apply incl_refl].
    + apply rep_in_JObj. eexists _, _. split; [reflexivity |]. split; [| split].
      * split; [rewrite update_length, length_app; cbn [length]; lia |].
        intros Hin. apply (Hne _ Hin). reflexivity.
      * apply nth_error_update_same. rewrite length_app. cbn [length]. lia.
      * apply fields_set; [| reflexivity]. apply Hk3.
        -- apply keeps_update; [apply keeps_alloc, Hk0 |].
           pose proof (keeps_length _ _ Hk0). lia.
        -- rewrite update_length, length_app. cbn [length]. lia.
    + unfold agree. rewrite Hsnd. exact Hfst.
  - rewrite (bind_run _ _ _ (h ++ [Heap.ODict kvs]) tt) by reflexivity.
    destruct (entry_append_run eacc evs (h ++ [Heap.ODict kvs]) (length h) (JObj fs))
      as [Hsnd Hfst].
    + apply keeps_alloc, Hk.
    + apply nth_error_alloc, Hr.
    + apply nth_error_alloc, He.
    + eapply Forall2_rep_in_mono; [| exact Hold].
      apply kept_weaken; [rewrite length_app; lia | apply incl_refl].
    + apply rep_in_JObj. eexists _, _. split; [reflexivity |]. split; [| split].
      * split; [rewrite length_app; cbn [length]; lia |].
        intros Hin. apply (Hne _ Hin). reflexivity.
      * apply nth_error_length.
      * apply Hk3; [apply keeps_alloc, Hk0 | rewrite length_app; cbn [length]; lia].
    + unfold agree. rewrite Hsnd. exact Hfst.
Qed.
(** *** An entry that is not a dict *)

Lemma pairs_of_rep h :
  keeps h0 h -> forall items vs, Forall2 (rep h0) items vs -> forall acc,
  same_outcome (fun _ _ => True)
    (for_each items (fun _ item => check_pair item) tt)
    (Heap.pairs_of h vs acc).
Proof.
  intros Hk items vs H.
  induction H as [|item v items vs Hiv _ IH]; intros acc; [exact I |].
  cbn [for_each Heap.pairs_of]. unfold check_pair.
  pose proof (py_iter_rep h item v Hk Hiv) as Hiter.
  destruct (py_iter item) as [kv | e], (snd (Heap.py_iter v h)) as [kv' | e'];
    cbn in Hiter; try contradiction; cbn [bind]; [| exact Hiter].
  destruct Hiter as [|k k' kv kv' Hk1 Hiter]; [reflexivity |].
  destruct Hiter as [|x x' kv kv' Hx Hiter]; [reflexivity |].
  destruct Hiter as [|y y' kv kv' Hy Hiter]; [| reflexivity].
  rewrite (hash_rep _ _ _ _ Hk1).
  destruct (hash_key k) as [hk | e]; cbn [bind]; [apply IH | reflexivity].
Qed.

Lemma py_iter_run v h : Heap.py_iter v h = (h, snd (Heap.py_iter v h)).
Proof. reflexivity. Qed.

Lemma sim_entry_other eacc ej ev :
  rep h0 ej ev -> (forall fs, ej <> JObj fs) ->
  sim (entries_done eacc)
      (new_entry <- anonymize_entry mapping ej ;; Ok (eacc ++ [new_entry]))
      (entry_statement (Heap.VRef (S (length h1))) ev)
      (fun eacc' _ h => entries_done eacc' h).
Proof.
  intros Hrep Hnot h Hh. pose proof (entries_done_keeps _ _ Hh) as Hk0.
  assert (Epure : anonymize_entry mapping ej
                  = (_ <- dict_of_sequence ej ;; Raise AttributeError)).
  { destruct ej; try reflexivity. exfalso. eapply Hnot. reflexivity. }
  assert (Hview : forall h', keeps h0 h' -> forall l f, Heap.view h' ev <> Heap.SDict l f).
  { intros h' Hk' l f E. pose proof (rep_view h' ej ev Hk' Hrep) as Hs.
    rewrite E in Hs. destruct ej; try contradiction. eapply Hnot. reflexivity. }
  assert (Edict : Heap.py_dict ev h
                  = Heap.bind (Heap.py_iter ev) (fun items =>
                    Heap.bind (Heap.reading (fun h => Heap.pairs_of h items [])) (fun fields =>
                    Heap.alloc (Heap.ODict fields))) h).
  { unfold Heap.py_dict. destruct (Heap.view h ev) eqn:E; try reflexivity.
    exfalso. eapply Hview; eassumption. }
  rewrite Epure. unfold dict_of_sequence, entry_statement.
  pose proof (py_iter_rep h ej ev Hk0 Hrep) as Hiter.
  destruct (py_iter ej) as [items | e],
           (snd (Heap.py_iter ev h)) as [vs | e'] eqn:Eiter;
    cbn in Hiter; try contradiction; cbn [bind].
  2:{ rewrite (bind_run_raise _ _ h h e'); [exact Hiter |].
      rewrite Edict. apply bind_run_raise. rewrite py_iter_run, Eiter. reflexivity. }
  pose proof (pairs_of_rep h Hk0 items vs Hiter []) as Hpairs.
  destruct (for_each items (fun _ item => check_pair item) tt) as [u | e],
           (Heap.pairs_of h vs []) as [fields | e'] eqn:Epairs;
    cbn in Hpairs; try contradiction; cbn [bind].
  - rewrite (bind_run _ _ h (h ++ [Heap.ODict fields]) (Heap.VRef (length h))).
    + rewrite (bind_run_raise _ _ _ (h ++ [Heap.ODict fields]) AttributeError);
        [reflexivity |].
      unfold Heap.py_get, Heap.reading.
      destruct (Heap.view (h ++ [Heap.ODict fields]) ev) eqn:E; try reflexivity.
      exfalso. eapply (Hview (h ++ [Heap.ODict fields])); [| exact E].
      apply keeps_alloc, Hk0.
    + rewrite Edict. rewrite (bind_run _ _ h h vs)
        by (rewrite py_iter_run, Eiter; reflexivity).
      rewrite (bind_run _ _ h h fields)
        by (unfold Heap.reading; rewrite Epairs; reflexivity).
      reflexivity.
  - rewrite (bind_run_raise _ _ h h e'); [exact Hpairs |].
    rewrite Edict. rewrite (bind_run _ _ h h vs)
      by (rewrite py_iter_run, Eiter; reflexivity).
    apply bind_run_raise. unfold Heap.reading. rewrite Epairs. reflexivity.
Qed.

Lemma sim_entry eacc ej ev :
  rep h0 ej ev ->
  sim (entries_done eacc)
      (new_entry <- anonymize_entry mapping ej ;; Ok (eacc ++ [new_entry]))
      (entry_statement (Heap.VRef (S (length h1))) ev)
      (fun eacc' _ h => entries_done eacc' h).
Proof.
  intros Hrep. destruct ej as [| b | z | s | js | fs];
    try (apply sim_entry_other; [exact Hrep | discriminate]).
  apply rep_in_JObj in Hrep. destruct Hrep as (l & kvs & -> & _ & Hl & Hfs).
  apply (sim_entry_dict eacc fs l kvs Hl Hfs).
Qed.

(** *** A room *)

Lemma sim_room_append eacc :
  sim (entries_done eacc)
      (Ok (racc ++ [JObj [(lit "room", ridj); (lit "entries", JArr eacc)]]))
      (Heap.list_append (Heap.VRef a) (Heap.VRef (S (length h1))))
      (fun racc' _ h => rooms_done racc' h).
Proof.
  intros h Hh. pose proof Hh as (Hk & Hr & evs & He & HF).
  pose proof (entries_done_keeps _ _ Hh) as Hk0.
  pose proof (entries_done_mapping _ _ Hh) as Hm.
  destruct Hdone as (Hk1 & _ & rvs & Hrvs & HR).
  pose proof (keeps_nth_error _ _ _ _ Hk Hrvs) as Hav.
  pose proof (nth_error_lt _ _ _ Hrvs) as Ha1.
  pose proof (keeps_length _ _ Hk) as Hlen.
  pose proof (keeps_length _ _ Hk1) as Hlen1.
  rewrite (list_append_run _ _ _ _ Hav). unfold agree. cbn [fst snd same_outcome].
  assert (Hk' : keeps h0 (Heap.update h a (Heap.OList (rvs ++ [Heap.VRef (S (length h1))]))))
    by (apply keeps_update; assumption).
  split; [exact Hk' |].
  split; [rewrite nth_error_update_other by (intros E; apply Hma; exact E); exact Hm |].
  exists (rvs ++ [Heap.VRef (S (length h1))]).
  split; [apply nth_error_update_same; lia |].
  rewrite update_length. apply Forall2_app.
  - eapply Forall2_rep_in_mono; [| exact HR].
    eapply kept_trans; [apply kept_keeps_below, Hk |].
    apply kept_update_out. left. reflexivity.
  - constructor; [| constructor].
    apply rep_in_JObj. exists (S (length h1)), (room_fields ridv (length h1)).
    split; [reflexivity |]. split; [| split].
    + split; [eapply nth_error_lt, Hr |]. intros [E | []]. lia.
    + rewrite nth_error_update_other by lia. exact Hr.
    + constructor; [| constructor; [| constructor]].
      * split; [reflexivity |]. cbn [fst snd].
        eapply rep_in_mono; [| exact Hrid].
        rewrite <- (update_length h a (Heap.OList (rvs ++ [Heap.VRef (S (length h1))]))).
        apply kept_keeps; [exact Hk' | rewrite update_length; lia |].
        constructor; [exact Ha | constructor].
      * split; [reflexivity |]. cbn [fst snd].
        apply rep_in_JArr. exists (length h1), evs.
        split; [reflexivity |]. split; [| split].
        -- split; [eapply nth_error_lt, He |]. intros [E | []]. lia.
        -- rewrite nth_error_update_other by lia. exact He.
        -- eapply Forall2_rep_in_mono; [| exact HF].
           eapply kept_trans; [apply kept_update_out; left; reflexivity |].
           apply kept_weaken; [lia |]. intros x [<- | []]. left. reflexivity.
Qed.
End Room.

Lemma same_outcome_impl {A B} (R R' : A -> B -> Prop) c r :
  (forall x y, R x y -> R' x y) -> same_outcome R c r -> same_outcome R' c r.
Proof. intros HR. destruct c, r; cbn; auto. Qed.

Lemma sim_room racc rj rv :
  rep h0 rj rv ->
  sim (rooms_done racc)
      (new_room <- anonymize_room mapping rj ;; Ok (racc ++ [new_room]))
      (room_statement rv)
      (fun racc' _ h => rooms_done racc' h).
Proof.
  intros Hr. unfold anonymize_room, room_statement. rewrite bind_assoc.
  eapply sim_bind.
  - apply sim_reading with (R := rep h0). intros h (Hk & _).
    eapply same_outcome_impl;
      [| apply (py_get_rep h rj rv (lit "room") JNull Heap.VNone Hk Hr)].
    intros x y [H | [-> ->]]; [exact H | reflexivity].
  - intros ridj ridv. apply sim_assume. intros Hrid.
    apply sim_alloc. intros h1 Hdone.
    apply sim_alloc. intros h1' ->.
    replace (length (h1 ++ [Heap.OList []])) with (S (length h1))
      by (rewrite length_app; cbn [length]; lia).
    apply sim_pre with (P := entries_done h1 ridv []).
    { intros h ->. split; [| split].
      - exists [Heap.OList []; Heap.ODict (room_fields ridv (length h1))].
        rewrite <- app_assoc. reflexivity.
      - rewrite <- (Nat.add_1_r (length h1)).
        replace (length h1 + 1) with (length (h1 ++ [Heap.OList []]))
          by (rewrite length_app; reflexivity).
        apply nth_error_length.
      - exists []. split; [apply nth_error_alloc, nth_error_length | constructor]. }
    rewrite bind_assoc. eapply sim_bind.
    + apply (sim_room_entries (entries_done h1 ridv [])); [| | exact Hr].
      * intros h. apply (entries_done_keeps h1 racc ridv Hdone).
      * intros h o. apply entries_done_alloc.
    + intros ejs evs. apply sim_assume. intros Hes.
      rewrite bind_assoc. eapply sim_bind.
      * apply (sim_for_each (rep h0) (entries_done h1 ridv)); [| exact Hes].
        intros eacc ej ev He. apply (sim_entry h1 racc ridv Hdone eacc ej ev He).
      * intros eacc u. cbn [bind].
        apply (sim_room_append h1 racc ridj ridv Hdone Hrid eacc).
Qed.

End Second.

(** *** The whole function *)

Lemma py_iter_keeps h j v :
  keeps h0 h -> rep h0 j v -> snd (Heap.py_iter v h) = snd (Heap.py_iter v h0).
Proof.
  intros Hk Hrep. unfold Heap.py_iter, Heap.reading. cbn [snd].
  rewrite (view_keeps h0 h v Hk); [reflexivity |].
  pose proof (rep_view h0 j v (keeps_refl h0) Hrep) as Hs.
  intros E. rewrite E in Hs. destruct j; contradiction.
Qed.

(** A statement on the heap that reads a value that is known, with no
    counterpart on values. *)
Lemma sim_heap_reading {A B C} P (c : result A) (f : Heap.heap -> result B) b
  (k' : B -> Heap.M C) Q :
  (forall h, P h -> f h = Ok b) -> sim P c (k' b) Q ->
  sim P c (Heap.bind (Heap.reading f) k') Q.
Proof.
  intros Hf Hk h Hh. unfold Heap.bind, Heap.reading. rewrite (Hf h Hh). apply Hk, Hh.
Qed.

Lemma sim_anonymize j v :
  rep h0 j v ->
  sim (fun h => h = h0) (anonymize j) (Heap.anonymize v)
      (fun out w h => rep h out w).
Proof.
  intros Hrep. unfold anonymize, Heap.anonymize.
  apply sim_alloc. intros hp ->.
  apply sim_pre with (P := collecting (length h0) []).
  { intros h ->. split; [apply keeps_alloc, keeps_refl |]. split; [apply Nat.le_refl |].
    exists []. split; [apply nth_error_length | constructor]. }
  eapply sim_bind.
  - apply sim_reading with
      (R := fun rooms rooms' =>
              Forall2 (rep h0) rooms rooms' /\ snd (Heap.py_iter v h0) = Ok rooms').
    intros h (Hk & _).
    pose proof (py_iter_rep h j v Hk Hrep) as Hiter.
    rewrite (py_iter_keeps h j v Hk Hrep) in Hiter.
    change (same_outcome
              (fun rooms rooms' =>
                 Forall2 (rep h0) rooms rooms' /\ snd (Heap.py_iter v h0) = Ok rooms')
              (py_iter j) (snd (Heap.py_iter v h))).
    rewrite (py_iter_keeps h j v Hk Hrep).
    destruct (py_iter j), (snd (Heap.py_iter v h0)); cbn in *; auto.
  - intros rooms rooms'. apply sim_assume. intros [Hrooms Eiter].
    eapply sim_bind; [apply sim_collect_titles, Hrooms |].
    intros titles u. eapply sim_bind; [apply sim_build_mapping |].
    intros mapping mv. apply sim_alloc. intros h (hp & Hk & -> & ->).
    assert (Hlen : length (hp ++ [Heap.ODict (mapping_fields mapping)]) = S (length hp))
      by (rewrite length_app; cbn [length]; lia).
    rewrite Hlen.
    pose proof (keeps_length _ _ Hk) as Hle.
    apply sim_pre with (P := rooms_done mapping (length hp) (S (length hp)) []).
    { intros h ->. split; [apply keeps_alloc, keeps_alloc, Hk |].
      split; [apply nth_error_alloc, nth_error_length |].
      exists []. split; [rewrite <- Hlen; apply nth_error_length | constructor]. }
    apply sim_heap_reading with (b := rooms').
    { intros h (Hk' & _). rewrite <- Eiter. apply (py_iter_keeps h j v Hk' Hrep). }
    eapply sim_bind.
    + apply (sim_for_each (rep h0) (rooms_done mapping (length hp) (S (length hp))));
        [| exact Hrooms].
      intros racc rj rv Hr.
      apply (sim_room mapping (length hp) (S (length hp))); [lia | lia | exact Hr].
    + intros racc u' h (_ & _ & rvs & Ha & HR). unfold agree, Heap.ret. cbn.
      apply rep_in_JArr. exists (S (length hp)), rvs.
      split; [reflexivity |]. split; [exact I |]. split; [exact Ha |].
      eapply Forall2_rep_in_mono; [apply kept_anywhere | exact HR].
Qed.

End Simulation.

End HeapRefinement.

(** X16. The function on the heap and the function on values agree.  Run
    on a heap where [v] stands for the JSON value [j], [Heap.anonymize v]
    returns a value that stands, in the heap it leaves, for the value that
    [anonymize j] returns; and it raises the exception that [anonymize j]
    raises. *)
Theorem anonymize_heap_agrees (h : Heap.heap) (j : json) (v : Heap.val) :
  rep h j v ->
  same_outcome (rep (fst (Heap.anonymize v h))) (anonymize j)
               (snd (Heap.anonymize v h)).
Proof.
  intros Hrep. apply (HeapRefinement.sim_anonymize h j v Hrep h eq_refl).
Qed.


Lemma anonymize_heap_agrees_witness :
  same_outcome
    (rep (fst (Heap.anonymize HeapProperties.scenario_data
                              HeapProperties.scenario_heap)))
    (anonymize (JArr scenario))
    (snd (Heap.anonymize HeapProperties.scenario_data HeapProperties.scenario_heap)).
Proof.
  apply (anonymize_heap_agrees HeapProperties.scenario_heap (JArr scenario)
                               HeapProperties.scenario_data).
  unfold rep. vm_compute.
  repeat (first [reflexivity | exact I | apply conj | eexists]).
Defined.
